(** * Flat-master planning (flatParse, flat_parse4_0.py): a shallow embedding

    The program has two halves: a Python scanner/planner (metadata
    extraction, exposure grouping, dark inventory, run configuration) and a
    PJSR script embedded as [PJSR_TEMPLATE] that the planner hands to the
    image-processing engine (dark selection, scoring, integration set-up).
    Both are embedded below, each definition next to the source function it
    translates.

    Numbers are modelled as exact rationals [Q]: the properties compare
    thresholds and distances, and none turns on binary rounding.
    Python/JS exceptions are the [inl] side of a sum. File names and header
    text are ASCII strings, so regex classes, case folding and [str.lower]
    act on their ASCII ranges. *)

From Stdlib Require Import QArith Qabs Qround Lqa ZArith Lia List Bool String Ascii.
From Stdlib Require Import Sorting.Sorted.
Import ListNotations.

Open Scope Q_scope.

(* ------------------------------------------------------------------ *)
(** ** PJSR [integrateToMaster]: the ImageIntegration set-up *)

Module II.

(** The [II_ENUM] constants used by the script (distinct engine enums). *)
Inductive combination := Comb_Average.
Inductive weightMode := Weight_Dont.
Inductive normalization := Norm_None | Norm_Mult.
Inductive rejection := Rej_None | Rej_Winsor | Rej_PC | Rej_LinFit.
Inductive rejNorm := RejNorm_None | RejNorm_Eq.

Definition rejection_eqb (a b : rejection) : bool :=
  match a, b with
  | Rej_None, Rej_None | Rej_Winsor, Rej_Winsor
  | Rej_PC, Rej_PC | Rej_LinFit, Rej_LinFit => true
  | _, _ => false
  end.

(** The properties of a fresh [ImageIntegration] instance the script
    assigns; [None] is "not assigned by the script" (engine default). *)
Record t := mk {
  images : list string;
  comb : option combination;
  weight : option weightMode;
  evaluateNoise : option bool;
  generate64BitResult : option bool;
  generateRejectionMaps : option bool;
  generateSlopeMaps : option bool;
  generateIntegratedImage : option bool;
  norm : option normalization;
  rej : option rejection;
  rejNormalization : option rejNorm;
  pcClipLow : option Q;
  pcClipHigh : option Q;
  sigmaLow : option Q;
  sigmaHigh : option Q;
  winsorizationCutoff : option Q;
  clipLow : option bool;
  clipHigh : option bool;
  linearFitLow : option Q;
  linearFitHigh : option Q;
  largeScaleClipHigh : option bool
}.

Definition fresh (paths : list string) : t :=
  mk paths None None None None None None None None None None
     None None None None None None None None None None.

(** Setters, one per assignment form used by the script. *)
Definition set_common (x : t) : t :=
  mk (images x) (Some Comb_Average) (Some Weight_Dont) (Some false) (Some true)
     (Some false) (Some false) (Some true) (norm x) (rej x) (rejNormalization x)
     (pcClipLow x) (pcClipHigh x) (sigmaLow x) (sigmaHigh x)
     (winsorizationCutoff x) (clipLow x) (clipHigh x) (linearFitLow x)
     (linearFitHigh x) (largeScaleClipHigh x).

Definition set_norms (n : normalization) (r : option rejection) (rn : rejNorm)
    (x : t) : t :=
  mk (images x) (comb x) (weight x) (evaluateNoise x) (generate64BitResult x)
     (generateRejectionMaps x) (generateSlopeMaps x) (generateIntegratedImage x)
     (Some n) (match r with Some _ => r | None => rej x end) (Some rn)
     (pcClipLow x) (pcClipHigh x) (sigmaLow x) (sigmaHigh x)
     (winsorizationCutoff x) (clipLow x) (clipHigh x) (linearFitLow x)
     (linearFitHigh x) (largeScaleClipHigh x).

Definition set_pc (lo hi : Q) (x : t) : t :=
  mk (images x) (comb x) (weight x) (evaluateNoise x) (generate64BitResult x)
     (generateRejectionMaps x) (generateSlopeMaps x) (generateIntegratedImage x)
     (norm x) (Some Rej_PC) (rejNormalization x)
     (Some lo) (Some hi) (sigmaLow x) (sigmaHigh x)
     (winsorizationCutoff x) (clipLow x) (clipHigh x) (linearFitLow x)
     (linearFitHigh x) (largeScaleClipHigh x).

Definition set_winsor (lo hi cut : Q) (x : t) : t :=
  mk (images x) (comb x) (weight x) (evaluateNoise x) (generate64BitResult x)
     (generateRejectionMaps x) (generateSlopeMaps x) (generateIntegratedImage x)
     (norm x) (Some Rej_Winsor) (rejNormalization x)
     (pcClipLow x) (pcClipHigh x) (Some lo) (Some hi)
     (Some cut) (Some true) (Some true) (linearFitLow x)
     (linearFitHigh x) (largeScaleClipHigh x).

Definition set_linfit (lo hi : Q) (x : t) : t :=
  mk (images x) (comb x) (weight x) (evaluateNoise x) (generate64BitResult x)
     (generateRejectionMaps x) (generateSlopeMaps x) (generateIntegratedImage x)
     (norm x) (Some Rej_LinFit) (rejNormalization x)
     (pcClipLow x) (pcClipHigh x) (sigmaLow x) (sigmaHigh x)
     (winsorizationCutoff x) (Some true) (Some true) (Some lo)
     (Some hi) (largeScaleClipHigh x).

Definition set_largeScaleClipHigh (b : bool) (x : t) : t :=
  mk (images x) (comb x) (weight x) (evaluateNoise x) (generate64BitResult x)
     (generateRejectionMaps x) (generateSlopeMaps x) (generateIntegratedImage x)
     (norm x) (rej x) (rejNormalization x)
     (pcClipLow x) (pcClipHigh x) (sigmaLow x) (sigmaHigh x)
     (winsorizationCutoff x) (clipLow x) (clipHigh x) (linearFitLow x)
     (linearFitHigh x) (Some b).

Definition set_sigmaLow (v : Q) (x : t) : t :=
  mk (images x) (comb x) (weight x) (evaluateNoise x) (generate64BitResult x)
     (generateRejectionMaps x) (generateSlopeMaps x) (generateIntegratedImage x)
     (norm x) (rej x) (rejNormalization x)
     (pcClipLow x) (pcClipHigh x) (Some v) (sigmaHigh x)
     (winsorizationCutoff x) (clipLow x) (clipHigh x) (linearFitLow x)
     (linearFitHigh x) (largeScaleClipHigh x).

Definition set_sigmaHigh (v : Q) (x : t) : t :=
  mk (images x) (comb x) (weight x) (evaluateNoise x) (generate64BitResult x)
     (generateRejectionMaps x) (generateSlopeMaps x) (generateIntegratedImage x)
     (norm x) (rej x) (rejNormalization x)
     (pcClipLow x) (pcClipHigh x) (sigmaLow x) (Some v)
     (winsorizationCutoff x) (clipLow x) (clipHigh x) (linearFitLow x)
     (linearFitHigh x) (largeScaleClipHigh x).

End II.

(** The [rej] argument: an object whose [lowSigma]/[highSigma] are kept
    only when [typeof ... === "number"] ([None]: absent or not a number);
    the argument itself may be falsy ([None]). *)
Record rejCfg := mkRejCfg { lowSigma : option Q; highSigma : option Q }.

(** [run()]: [var rej = CFG.rejection || {lowSigma:5.0, highSigma:5.0}] and
    [runSelected] writes ["rejection": {"lowSigma": 5.0, "highSigma": 5.0}]. *)
Definition CFG_rejection : rejCfg := mkRejCfg (Some 5.0) (Some 5.0).

(** [integrateToMaster(paths,outPath,forDark,hints,rej)] up to
    [II.executeGlobal()]: the integration instance as it is executed, or the
    error thrown before. *)
Definition integrateToMaster_config (paths : list string) (forDark : bool)
    (rej : option rejCfg) : string + II.t :=
  if Nat.eqb (List.length paths) 0 then inl "No frames"%string
  else if Nat.ltb (List.length paths) 3 then
    inl "ImageIntegration needs >=3 inputs"%string
  else
    let ii := II.set_common (II.fresh paths) in
    let ii :=
      if forDark then II.set_norms II.Norm_None (Some II.Rej_Winsor) II.RejNorm_None ii
      else
        let ii := II.set_norms II.Norm_Mult None II.RejNorm_Eq ii in
        let n := List.length paths in
        let ii :=
          if Nat.ltb n 6 then II.set_pc 0.20 0.10 ii
          else if Nat.leb n 15 then II.set_winsor 4.0 3.0 5.0 ii
          else II.set_linfit 5.0 4.0 ii in
        II.set_largeScaleClipHigh false ii in
    let ii :=
      match II.rej ii with
      | Some r =>
        if II.rejection_eqb r II.Rej_Winsor then
          let ii := match rej with
                    | Some {| lowSigma := Some v |} => II.set_sigmaLow v ii
                    | _ => ii end in
          match rej with
          | Some {| highSigma := Some v |} => II.set_sigmaHigh v ii
          | _ => ii
          end
        else ii
      | None => ii
      end in
    inr ii.

(* ------------------------------------------------------------------ *)
(** ** PJSR dark catalog, [metaScore], [groupByExp], [kexp] *)

(** The [type] field written by [_classify_dark_type] (never [""] in the
    catalog: unclassified files are skipped by [scan_darks]). *)
Inductive darkType := MASTERDARKFLAT | MASTERDARK | DARKFLAT | DARK.

Definition darkType_eqb (a b : darkType) : bool :=
  match a, b with
  | MASTERDARKFLAT, MASTERDARKFLAT | MASTERDARK, MASTERDARK
  | DARKFLAT, DARKFLAT | DARK, DARK => true
  | _, _ => false
  end.

(** A [darkCatalog] entry as JSON-decoded in the script; [None] is [null]. *)
Record darkEntry := mkDark {
  d_path : string;
  d_type : darkType;
  d_exposure : Q;
  d_binning : option string;
  d_gain : option Q;
  d_offset : option Q;
  d_temp : option Q
}.

(** [want] after [run()] has defaulted its missing fields to [null]. *)
Record want := mkWant {
  w_binning : option string;
  w_gain : option Q;
  w_offset : option Q;
  w_temp : option Q
}.

(** [CFG.match]; [maxTempDeltaC = None] when it is not a number
    ([dt <= undefined] is false). *)
Record matchPolicy := mkMatch {
  enforceBinning : bool;
  preferSameGainOffset : bool;
  preferClosestTemp : bool;
  maxTempDeltaC : option Q
}.

(** [runSelected]: ["match": {enforceBinning: True, preferSameGainOffset:
    True, preferClosestTemp: True, maxTempDeltaC: 5.0}]. *)
Definition CFG_match : matchPolicy := mkMatch true true true (Some 5.0).

(** JS truthiness of a string-or-null. *)
Definition truthy_str (o : option string) : bool :=
  match o with Some s => negb (String.eqb s "") | None => false end.

Definition Qltb (a b : Q) : bool := negb (Qle_bool b a).

(** [metaScore(c,want,match)]; [safeNum] maps [null] to [NaN], and every
    [!isNaN] test is the [Some] case. *)
Definition metaScore (c : darkEntry) (w : want) (m : matchPolicy) : Q :=
  let s := 0 in
  let s := if enforceBinning m && truthy_str (w_binning w)
              && truthy_str (d_binning c)
              && (match d_binning c, w_binning w with
                  | Some a, Some b => String.eqb a b | _, _ => false end)
           then s + 3 else s in
  let s := if preferSameGainOffset m then
             let s := match d_gain c, w_gain w with
                      | Some cg, Some wg =>
                          if Qltb (Qabs (cg - wg)) 0.01 then s + 2 else s
                      | _, _ => s end in
             match d_offset c, w_offset w with
             | Some co, Some wo =>
                 if Qltb (Qabs (co - wo)) 0.5 then s + 2 else s
             | _, _ => s end
           else s in
  if preferClosestTemp m then
    match d_temp c, w_temp w with
    | Some ct, Some wt =>
        let dt := Qabs (ct - wt) in
        match maxTempDeltaC m with
        | Some mx => if Qle_bool dt mx then s + (1.5 - dt * 0.2) else s
        | None => s
        end
    | _, _ => s
    end
  else s.

(** [kexp(x)] is [(Math.round(x*1000)/1000).toString()]; the key is kept as
    the integer [Math.round(x*1000)] (= floor(x*1000 + 1/2)), which
    determines the string. *)
Definition kexp (x : Q) : Z := Qfloor (x * 1000 + (1#2)).

(** [groupByExp(cats, typeName)[k]]: the entries of that type whose key is
    [k], in catalog order. *)
Definition groupAt (cats : list darkEntry) (ty : darkType) (k : Z)
    : list darkEntry :=
  filter (fun c => darkType_eqb (d_type c) ty && Z.eqb (kexp (d_exposure c)) k)
         cats.

(** The keys of [groupByExp(cats, typeName)] in insertion order. *)
Fixpoint keys_insertion (cats : list darkEntry) (ty : darkType) (acc : list Z)
    : list Z :=
  match cats with
  | [] => acc
  | c :: r =>
      if darkType_eqb (d_type c) ty && negb (existsb (Z.eqb (kexp (d_exposure c))) acc)
      then keys_insertion r ty (acc ++ [kexp (d_exposure c)])
      else keys_insertion r ty acc
  end.

(** [for (kk in obj)] order: array-index keys ("0", "60", ... below
    2^32-1) ascending first, then the other keys in insertion order. *)
Definition is_index_key (k : Z) : bool :=
  (Z.modulo k 1000 =? 0)%Z && (0 <=? k)%Z && (k / 1000 <? 4294967295)%Z.

Fixpoint insertZ (x : Z) (l : list Z) : list Z :=
  match l with
  | [] => [x]
  | y :: r => if (x <=? y)%Z then x :: l else y :: insertZ x r
  end.

Definition sortZ (l : list Z) : list Z := fold_right insertZ [] l.

Definition js_key_order (ks : list Z) : list Z :=
  sortZ (filter is_index_key ks) ++ filter (fun k => negb (is_index_key k)) ks.

Definition groupKeys (cats : list darkEntry) (ty : darkType) : list Z :=
  js_key_order (keys_insertion cats ty []).

(** [String(k/1000)] for a key: sign, integer part and the fraction digits
    without trailing zeros (no exponent form in the exposure range). *)
Definition digit_char (d : Z) : ascii := ascii_of_nat (48 + Z.to_nat d).

Fixpoint digits_of_nat_aux (fuel : nat) (n : Z) (acc : string) : string :=
  match fuel with
  | O => acc
  | S f => if (n <? 10)%Z then String (digit_char n) acc
           else digits_of_nat_aux f (n / 10)%Z (String (digit_char (n mod 10)%Z) acc)
  end.

Definition digits_of_Z (n : Z) : string :=
  digits_of_nat_aux (S (Z.to_nat (Z.log2 (Z.max n 1)))) n "".

Definition kexp_string (k : Z) : string :=
  let a := Z.abs k in
  let ip := (a / 1000)%Z in
  let fr := (a mod 1000)%Z in
  let sign := if (k <? 0)%Z then "-"%string else ""%string in
  let frs :=
    if (fr =? 0)%Z then ""%string
    else if (fr mod 100 =? 0)%Z then String "." (String (digit_char (fr / 100)%Z) "")
    else if (fr mod 10 =? 0)%Z then
      String "." (String (digit_char (fr / 100)%Z)
                    (String (digit_char ((fr / 10) mod 10)%Z) ""))
    else String "." (String (digit_char (fr / 100)%Z)
           (String (digit_char ((fr / 10) mod 10)%Z)
              (String (digit_char (fr mod 10)%Z) ""))) in
  (sign ++ digits_of_Z ip ++ frs)%string.

(** [parseFloat(kk)] of a key string. *)
Definition key_value (k : Z) : Q := Qmake k 1000.

(** [joinPath(a,b)]. *)
Definition joinPath (a b : string) : string :=
  if String.eqb a "" then b
  else
    let slash := if existsb (Ascii.eqb "\"%char) (list_ascii_of_string a)
                 then "\"%string else "/"%string in
    let last := last (list_ascii_of_string a) " "%char in
    if Ascii.eqb last "/"%char || Ascii.eqb last "\"%char then (a ++ b)%string
    else (a ++ slash ++ b)%string.

(* ------------------------------------------------------------------ *)
(** ** PJSR [pickDarkFor]: state, exceptions and synthesis *)

(** Script state: the files on disk ([File.exists]) and the outputs of the
    integrations run so far, in call order. *)
Record pjsrState := mkPS { ps_files : list string; ps_built : list string }.

(** A script statement: an exception (message) or a value, with the state. *)
Definition PJ (A : Type) : Type := pjsrState -> (string + A) * pjsrState.

Definition pj_ret {A} (a : A) : PJ A := fun s => (inr a, s).
Definition pj_throw {A} (e : string) : PJ A := fun s => (inl e, s).
Definition pj_bind {A B} (m : PJ A) (f : A -> PJ B) : PJ B :=
  fun s => match m s with
           | (inl e, s') => (inl e, s')
           | (inr a, s') => f a s'
           end.
Definition pj_get : PJ pjsrState := fun s => (inr s, s).

Declare Scope pj_scope.
Notation "x <- m ;; k" := (pj_bind m (fun x => k))
  (at level 61, m at next level, right associativity) : pj_scope.
Notation "m ;;; k" := (pj_bind m (fun _ => k))
  (at level 61, right associativity) : pj_scope.
Open Scope pj_scope.

Definition file_exists (p : string) : PJ bool :=
  fun s => (inr (existsb (String.eqb p) (ps_files s)), s).

(** Which of the four result kinds [pickDarkFor] reports. *)
Inductive selKind :=
  | MasterDarkFlat_exact | MasterDarkFlat_built
  | MasterDark_exact | MasterDark_built | MasterDark_nearest_optimize.

(** [{path, optimize, kind}]. *)
Record selection := mkSel { sel_path : string; sel_optimize : bool; sel_kind : selKind }.

Section Pick.

(** The engine's [II.executeGlobal()] outcome and
    [CFG.allowNearestExposureWithOptimize] ([true] in [runSelected]). *)
Variable executeGlobal : II.t -> bool.
Variable allowNearest : bool.

(** [integrateToMaster(paths,outPath,forDark,hints,rej)]: throws before
    running on fewer than three inputs or on engine failure; otherwise the
    master is saved at [outPath]. *)
Definition integrateToMaster (paths : list string) (outPath : string)
    (forDark : bool) (rej : option rejCfg) : PJ unit :=
  match integrateToMaster_config paths forDark rej with
  | inl e => pj_throw e
  | inr ii =>
      if executeGlobal ii then
        fun s => (inr tt, mkPS (outPath :: ps_files s) (ps_built s ++ [outPath]))
      else pj_throw ("ImageIntegration failed: " ++ outPath)%string
  end.

(** The [best]/[bestS] loop of tiers 1 and 3: start from the first entry
    with score -1, replace on a strictly greater score. *)
Definition best_step (w : want) (m : matchPolicy)
    (acc : darkEntry * Q) (c : darkEntry) : darkEntry * Q :=
  let s := metaScore c w m in
  if Qltb (snd acc) s then (c, s) else acc.

Definition pick_best (w : want) (m : matchPolicy) (l : list darkEntry)
    : option darkEntry :=
  match l with
  | [] => None
  | c0 :: _ => Some (fst (fold_left (best_step w m) l (c0, -1)))
  end.

(** [allMD.sort(function(a,b){ return Math.abs(a.exposure-exp) -
    Math.abs(b.exposure-exp); })]: a stable sort (ES2019), here a stable
    insertion sort. *)
Definition dist (e : Q) (x : string * Q) : Q := Qabs (snd x - e).

Fixpoint insert_by (e : Q) (x : string * Q) (l : list (string * Q))
    : list (string * Q) :=
  match l with
  | [] => [x]
  | y :: r => if Qltb (dist e x) (dist e y) then x :: l else y :: insert_by e x r
  end.

Fixpoint sort_by_dist (e : Q) (l : list (string * Q)) (acc : list (string * Q))
    : list (string * Q) :=
  match l with
  | [] => acc
  | x :: r => sort_by_dist e r (insert_by e x acc)
  end.

Definition paths_of (l : list darkEntry) : list string := map d_path l.

(** The [for (kk in D)] loop of tier 5: synthesize [MasterDark_<kk>s.xisf]
    unless it exists, and collect [{path: out3, exposure: parseFloat(kk)}]. *)
Fixpoint synth_D_loop (cacheDir : string) (cats : list darkEntry)
    (rej : option rejCfg) (ks : list Z) : PJ (list (string * Q)) :=
  match ks with
  | [] => pj_ret []
  | kk :: r =>
      let out3 := joinPath cacheDir ("MasterDark_" ++ kexp_string kk ++ "s.xisf") in
      ex <- file_exists out3 ;;
      (if ex then pj_ret tt
       else integrateToMaster (paths_of (groupAt cats DARK kk)) out3 true rej) ;;;
      rest <- synth_D_loop cacheDir cats rej r ;;
      pj_ret ((out3, key_value kk) :: rest)
  end.

(** [pickDarkFor(exp, want, cacheDir, cats, rej, hintsCal, match)]. *)
Definition pickDarkFor (exp : Q) (w : want) (cacheDir : string)
    (cats : list darkEntry) (rej : option rejCfg) (m : matchPolicy)
    : PJ (option selection) :=
  let k := kexp exp in
  let MDFk := groupAt cats MASTERDARKFLAT k in
  let MDk := groupAt cats MASTERDARK k in
  let DFk := groupAt cats DARKFLAT k in
  let Dk := groupAt cats DARK k in
  match pick_best w m MDFk with
  | Some best => pj_ret (Some (mkSel (d_path best) false MasterDarkFlat_exact))
  | None =>
  match DFk with
  | _ :: _ =>
      let out := joinPath cacheDir ("MasterDarkFlat_" ++ kexp_string k ++ "s.xisf") in
      integrateToMaster (paths_of DFk) out true rej ;;;
      pj_ret (Some (mkSel out false MasterDarkFlat_built))
  | [] =>
  match pick_best w m MDk with
  | Some best2 => pj_ret (Some (mkSel (d_path best2) false MasterDark_exact))
  | None =>
  match Dk with
  | _ :: _ =>
      let out2 := joinPath cacheDir ("MasterDark_" ++ kexp_string k ++ "s.xisf") in
      integrateToMaster (paths_of Dk) out2 true rej ;;;
      pj_ret (Some (mkSel out2 false MasterDark_built))
  | [] =>
      if allowNearest then
        let fromMD := flat_map (fun kk => map (fun c => (d_path c, d_exposure c))
                                               (groupAt cats MASTERDARK kk))
                               (groupKeys cats MASTERDARK) in
        fromD <- synth_D_loop cacheDir cats rej (groupKeys cats DARK) ;;
        let allMD := fromMD ++ fromD in
        match sort_by_dist exp allMD [] with
        | best3 :: _ => pj_ret (Some (mkSel (fst best3) true MasterDark_nearest_optimize))
        | [] => pj_ret None
        end
      else pj_ret None
  end end end end.

End Pick.

(* ------------------------------------------------------------------ *)
(** ** Helpers and concrete inputs used by the statements *)

Definition numOr (d : Q) (o : option Q) : Q :=
  match o with Some v => v | None => d end.

Definition rejLow (rej : option rejCfg) : option Q :=
  match rej with Some r => lowSigma r | None => None end.

Definition six_flats : list string :=
  ["f1.xisf"; "f2.xisf"; "f3.xisf"; "f4.xisf"; "f5.xisf"; "f6.xisf"]%string.

Definition MDF_synth_path (cacheDir : string) (k : Z) : string :=
  joinPath cacheDir ("MasterDarkFlat_" ++ kexp_string k ++ "s.xisf").

Definition no_want : want := mkWant None None None None.

(** A dark library with three dark-flat frames and a master dark-flat at 30 s. *)
Definition cats_30 : list darkEntry :=
  [mkDark "lib/DarkFlat_30s_001.fits" DARKFLAT 30 None None None None;
   mkDark "lib/DarkFlat_30s_002.fits" DARKFLAT 30 None None None None;
   mkDark "lib/DarkFlat_30s_003.fits" DARKFLAT 30 None None None None;
   mkDark "lib/MasterDarkFlat_30s.xisf" MASTERDARKFLAT 30 None None None None]%string.

Definition rejHigh (rej : option rejCfg) : option Q :=
  match rej with Some r => highSigma r | None => None end.

Definition MD_synth_path (cacheDir : string) (k : Z) : string :=
  joinPath cacheDir ("MasterDark_" ++ kexp_string k ++ "s.xisf").

(** The similarity score as the spec's scoring rules state it, a sum of four
    independent bonuses ("known" binning: present and non-empty). *)
Definition bin_bonus (c : darkEntry) (w : want) (m : matchPolicy) : Q :=
  match d_binning c, w_binning w with
  | Some a, Some b =>
      if enforceBinning m && negb (String.eqb a "") && String.eqb a b then 3 else 0
  | _, _ => 0
  end.

Definition gain_bonus (c : darkEntry) (w : want) (m : matchPolicy) : Q :=
  match d_gain c, w_gain w with
  | Some a, Some b => if preferSameGainOffset m && Qltb (Qabs (a - b)) 0.01 then 2 else 0
  | _, _ => 0
  end.

Definition offset_bonus (c : darkEntry) (w : want) (m : matchPolicy) : Q :=
  match d_offset c, w_offset w with
  | Some a, Some b => if preferSameGainOffset m && Qltb (Qabs (a - b)) 0.5 then 2 else 0
  | _, _ => 0
  end.

Definition temp_bonus (c : darkEntry) (w : want) (m : matchPolicy) : Q :=
  match d_temp c, w_temp w, maxTempDeltaC m with
  | Some a, Some b, Some mx =>
      if preferClosestTemp m && Qle_bool (Qabs (a - b)) mx
      then 1.5 - 0.2 * Qabs (a - b) else 0
  | _, _, _ => 0
  end.

Definition score_spec (c : darkEntry) (w : want) (m : matchPolicy) : Q :=
  bin_bonus c w m + gain_bonus c w m + offset_bonus c w m + temp_bonus c w m.

(** [r] is a highest-scoring member of [l] and no earlier member ties it. *)
Definition first_best (w : want) (m : matchPolicy) (r : darkEntry)
    (l : list darkEntry) : Prop :=
  (forall c, In c l -> metaScore c w m <= metaScore r w m) /\
  exists l1 l2, l = l1 ++ r :: l2 /\
    forall c, In c l1 -> metaScore c w m < metaScore r w m.

Definition temp_window_le (m : matchPolicy) (b : Q) : Prop :=
  match maxTempDeltaC m with Some mx => mx <= b | None => True end.

(** Two master darks at 60 s whose temperatures are 15 and 14 degrees from
    the wanted one, scored with a 20-degree window. *)
Definition wide_match : matchPolicy := mkMatch true true true (Some 20).
Definition want_t0 : want := mkWant None None None (Some 0).
Definition md_t15 : darkEntry :=
  mkDark "lib/MasterDark_60s_t15.xisf" MASTERDARK 60 None None None (Some 15).
Definition md_t14 : darkEntry :=
  mkDark "lib/MasterDark_60s_t14.xisf" MASTERDARK 60 None None None (Some 14).

(** A dark and a wanted profile whose binnings are both the empty string. *)
Definition md_bin_empty : darkEntry :=
  mkDark "lib/MasterDark_60s.xisf" MASTERDARK 60 (Some ""%string) None None None.
Definition want_bin_empty : want := mkWant (Some ""%string) None None None.

(** The candidates of the nearest-exposure tier, in the order the script
    collects them: every master dark (key order of [MD]), then one master
    per dark-stack key, at the synthesis path and the key's exposure. *)
Definition nearest_candidates (cacheDir : string) (cats : list darkEntry)
    : list (string * Q) :=
  flat_map (fun kk => map (fun c => (d_path c, d_exposure c))
                          (groupAt cats MASTERDARK kk))
           (groupKeys cats MASTERDARK) ++
  map (fun kk => (MD_synth_path cacheDir kk, key_value kk)) (groupKeys cats DARK).

(** The spec's example library: master darks at 60 s and 300 s only. *)
Definition md_60 : darkEntry :=
  mkDark "lib/MasterDark_60s.xisf" MASTERDARK 60 None None None None.
Definition md_300 : darkEntry :=
  mkDark "lib/MasterDark_300s.xisf" MASTERDARK 300 None None None None.
Definition cats_60_300 : list darkEntry := [md_60; md_300].

(* ------------------------------------------------------------------ *)
(** ** Python planner: paths, directory listing, master filter *)

Definition lower_ascii (c : ascii) : ascii :=
  let n := nat_of_ascii c in
  if (65 <=? n)%nat && (n <=? 90)%nat then ascii_of_nat (n + 32) else c.

(** [str.lower()] on ASCII text. *)
Definition py_lower (s : string) : string :=
  string_of_list_ascii (map lower_ascii (list_ascii_of_string s)).

Definition is_sep (c : ascii) : bool :=
  Ascii.eqb c "\"%char || Ascii.eqb c "/"%char.

(** [os.path.splitext(p)[1]] (ntpath: separators [\] and [/]; leading
    dots of the last component do not start an extension). *)
Fixpoint splitext_ext_aux (l : list ascii) (seen_non_dot : bool)
    (cand : option (list ascii)) : option (list ascii) :=
  match l with
  | [] => cand
  | c :: r =>
      if is_sep c then splitext_ext_aux r false None
      else if Ascii.eqb c "."%char then
        splitext_ext_aux r seen_non_dot (if seen_non_dot then Some (c :: r) else cand)
      else splitext_ext_aux r true cand
  end.

Definition splitext_ext (p : string) : string :=
  match splitext_ext_aux (list_ascii_of_string p) false None with
  | Some e => string_of_list_ascii e
  | None => ""%string
  end.

(** [FILE_EXTS = {".xisf",".fits",".fit"}]. *)
Definition FILE_EXTS : list string := [".xisf"; ".fits"; ".fit"]%string.

Definition in_FILE_EXTS (e : string) : bool := existsb (String.eqb e) FILE_EXTS.

(** [MASTER_RE = re.compile(r"^MasterFlat_.*\.xisf$", re.IGNORECASE)],
    [MASTER_RE.match(fn)]: the prefix [MasterFlat_], any run of characters
    other than a newline, [.xisf], then the end or a final newline
    (ASCII case folding). *)
Definition ci_eq (a b : list ascii) : bool :=
  String.eqb (string_of_list_ascii (map lower_ascii a))
    (string_of_list_ascii (map lower_ascii b)).

Definition no_newline (l : list ascii) : bool :=
  negb (existsb (Ascii.eqb "010"%char) l).

Definition ends_ci_xisf (l : list ascii) : bool :=
  (5 <=? List.length l)%nat &&
  ci_eq (skipn (List.length l - 5) l) (list_ascii_of_string ".xisf").

Definition MASTER_RE_match (fn : string) : bool :=
  let l := list_ascii_of_string fn in
  let pre := list_ascii_of_string "MasterFlat_" in
  (11 <=? List.length l)%nat && ci_eq (firstn 11 l) pre &&
  (let r := skipn 11 l in
   (ends_ci_xisf r && no_newline r) ||
   (match rev r with
    | c :: r0 => Ascii.eqb c "010"%char && ends_ci_xisf (rev r0) && no_newline (rev r0)
    | [] => false
    end)).

(** [os.path.join(a, b)] for a relative [b] without drive (ntpath). *)
Definition path_join (a b : string) : string :=
  match rev (list_ascii_of_string a) with
  | [] => b
  | c :: _ =>
      if is_sep c then (a ++ b)%string
      else if (Nat.eqb (String.length a) 2 && Ascii.eqb c ":"%char) then (a ++ b)%string
      else (a ++ "\" ++ b)%string
  end.

(** [sorted(...)] on strings: code-point order (stable insertion sort). *)
Fixpoint insert_str (x : string) (l : list string) : list string :=
  match l with
  | [] => [x]
  | y :: r => match String.compare x y with
              | Lt => x :: l
              | _ => y :: insert_str x r
              end
  end.

Definition sort_str (l : list string) : list string := fold_left (fun acc x => insert_str x acc) l [].

(** Python exceptions the planner raises or catches. *)
Inductive pyExc := PermissionError | OtherOSError | ValueError | TypeError | ParseError.

(** [_dir_image_files(dir_path)]: [os.listdir] gives the names; the listing
    records for each whether [os.path.isfile] holds. A [PermissionError]
    yields no files; any other error propagates. *)
Definition dir_image_files (dir_path : string)
    (listing : pyExc + list (string * bool)) : pyExc + list string :=
  match listing with
  | inl PermissionError => inr []
  | inl e => inl e
  | inr names =>
      inr (sort_str
        (map (fun fb => path_join dir_path (fst fb))
          (filter (fun fb => snd fb && in_FILE_EXTS (py_lower (splitext_ext (fst fb)))
                              && negb (MASTER_RE_match (fst fb)))
                  names)))
  end.

(* ------------------------------------------------------------------ *)
(** ** Python planner: metadata records, exposure buckets, the plan *)

(** The dictionary returned by [read_meta]. *)
Record pyMeta := mkMeta {
  m_exposure : option Q;
  m_binning : option string;
  m_gain : option Q;
  m_offset : option Q;
  m_temp : option Q
}.

(** [round(x, 3)] scaled by 1000: round half to even of [x * 1000]. *)
Definition py_round3 (x : Q) : Z :=
  let y := x * 1000 in
  let f := Qfloor y in
  let fr := y - inject_Z f in
  if Qltb fr (1#2) then f
  else if Qltb (1#2) fr then (f + 1)%Z
  else if Z.even f then f else (f + 1)%Z.

Definition pad3 (n : Z) : string :=
  if (n <? 10)%Z then ("00" ++ digits_of_Z n)%string
  else if (n <? 100)%Z then ("0" ++ digits_of_Z n)%string
  else digits_of_Z n.

(** [f"{round(ex,3):.3f}"]; a negative exposure that rounds to zero
    gives [-0.000], as Python prints the negative zero. *)
Definition bucket_key (ex : Q) : string :=
  let r := Z.abs (py_round3 ex) in
  let sign := if Qltb ex 0 then "-"%string else ""%string in
  (sign ++ digits_of_Z (r / 1000) ++ "." ++ pad3 (r mod 1000))%string.

Definition digit_val (c : ascii) : option Z :=
  let n := nat_of_ascii c in
  if (48 <=? n)%nat && (n <=? 57)%nat then Some (Z.of_nat n - 48)%Z else None.

Fixpoint digits_val (l : list ascii) (acc : Z) (cnt : nat) : option (Z * nat) :=
  match l with
  | [] => Some (acc, cnt)
  | c :: r => match digit_val c with
              | Some d => digits_val r (acc * 10 + d)%Z (S cnt)
              | None => None
              end
  end.

(** [float(s)] on the fixed-point decimals the planner writes
    ([-]digits[.digits]); any other text is reported as unparsable. *)
Definition py_float (s : string) : option Q :=
  let l := list_ascii_of_string s in
  let '(neg, l1) := match l with
                    | c :: r => if Ascii.eqb c "-"%char then (true, r) else (false, l)
                    | [] => (false, l)
                    end in
  let fix split_dot (l : list ascii) (pre : list ascii) :=
    match l with
    | [] => (rev pre, None)
    | c :: r => if Ascii.eqb c "."%char then (rev pre, Some r) else split_dot r (c :: pre)
    end in
  let '(a, b) := split_dot l1 [] in
  match digits_val a 0 0 with
  | Some (ia, na) =>
      let fr := match b with
                | None => Some (0%Z, 0%nat)
                | Some bl => digits_val bl 0 0
                end in
      match fr with
      | Some (ib, nb) =>
          if (na + nb =? 0)%nat then None
          else
            let v := inject_Z ia + Qmake ib (Z.to_pos (10 ^ Z.of_nat nb)) in
            Some (if neg then - v else v)
      | None => None
      end
  | None => None
  end.

(** [bins.setdefault(k, []).append(p)]: dicts keep insertion order. *)
Fixpoint bin_add (k : string) (p : string) (bins : list (string * list string))
    : list (string * list string) :=
  match bins with
  | [] => [(k, [p])]
  | (k', ps) :: r =>
      if String.eqb k k' then (k', ps ++ [p]) :: r else (k', ps) :: bin_add k p r
  end.

Section Scan.

Variable meta_of : string -> pyMeta.

(** The bucket key of a file, [None] when its exposure is unknown. *)
Definition file_key (p : string) : option string :=
  match m_exposure (meta_of p) with
  | Some ex => Some (bucket_key ex)
  | None => None
  end.

Definition bin_step (bins : list (string * list string)) (p : string)
    : list (string * list string) :=
  match file_key p with
  | Some k => bin_add k p bins
  | None => bins
  end.

(** The loop building [bins] over [flat_files]. *)
Definition make_bins (flat_files : list string) : list (string * list string) :=
  fold_left bin_step flat_files [].

(** [wants[k]] from [meta_map[plist[0]]]. *)
Definition want_of_meta (m0 : pyMeta) : want :=
  mkWant (m_binning m0) (m_gain m0) (m_offset m0) (m_temp m0).

(** [bins_filtered]: buckets with at least 3 files, in insertion order. *)
Definition filter_bins (bins : list (string * list string)) : list (string * list string) :=
  filter (fun kp => (3 <=? List.length (snd kp))%nat) bins.

(** Grouping of one directory's files: bucketing, then the size filter. *)
Definition group_files (flat_files : list string) : list (string * list string) :=
  filter_bins (make_bins flat_files).

End Scan.

(** [wants[k]]: the group's want dictionary, or [{}] as the UI sends it. *)
Inductive pyWant := WantOf (w : want) | WantEmpty.

Record pyGroup := mkPyGroup {
  g_exposure : Q;
  g_files : list string;
  g_want : pyWant
}.

Record pyJob := mkPyJob {
  j_dirPath : string;
  j_groups : list pyGroup
}.

(** The flats tree: a directory item (checkable) with one item per
    group, whose children are the files' base names. *)
Record groupNode := mkGroupNode {
  gn_text : string;
  gn_children : list string
}.

Record dirNode := mkDirNode {
  dn_text : string;
  dn_groups : list groupNode
}.

Definition float_or0 (s : string) : Q :=
  match py_float s with Some v => v | None => 0 end.

(** [sorted(keys, key=lambda s: float(s))] (stable). *)
Fixpoint insert_key (k : string) (l : list string) : list string :=
  match l with
  | [] => [k]
  | y :: r => if Qltb (float_or0 k) (float_or0 y) then k :: l else y :: insert_key k r
  end.

Definition sort_keys (l : list string) : list string :=
  fold_left (fun acc x => insert_key x acc) l [].

Fixpoint assoc_get {A} (d : A) (k : string) (l : list (string * A)) : A :=
  match l with
  | [] => d
  | (k', v) :: r => if String.eqb k k' then v else assoc_get d k r
  end.

(** [os.path.basename] (ntpath). *)
Definition basename (p : string) : string :=
  let fix go (l : list ascii) (cur : list ascii) :=
    match l with
    | [] => rev cur
    | c :: r => if is_sep c then go r [] else go r (c :: cur)
    end in
  string_of_list_ascii (go (list_ascii_of_string p) []).

Definition group_label (k : string) (n : nat) : string :=
  (k ++ "s  (" ++ digits_of_Z (Z.of_nat n) ++ " files)")%string.

(** The body of the [os.walk] loop of [scan_flats] for a directory [r]
    whose image files are [flat_files] (non-empty, not seen before):
    [None] when no group survives, else the plan entry and the tree item. *)
Definition scan_dir (meta_of : string -> pyMeta) (r : string) (flat_files : list string)
    : option (pyJob * dirNode) :=
  let bins := make_bins meta_of flat_files in
  let wants := map (fun kp => (fst kp, want_of_meta (meta_of (hd ""%string (snd kp))))) bins in
  let bf := filter_bins bins in
  match bf with
  | [] => None
  | _ :: _ =>
      let ks := sort_keys (map fst bf) in
      let groups := map (fun k => mkPyGroup (float_or0 k) (assoc_get [] k bf)
                                             (WantOf (assoc_get no_want k wants))) ks in
      let node := mkDirNode r (map (fun k => mkGroupNode (group_label k (List.length (assoc_get [] k bf)))
                                                          (map basename (assoc_get [] k bf))) ks) in
      Some (mkPyJob r groups, node)
  end.

(** [scan_flats]: [walk] lists the directories [os.walk] visits over all
    base roots (after pruning), [listdir] gives each directory's entries
    (with [os.path.isfile]), [meta_of] is [read_meta]. The result is
    [self.plan] and the rows of the flats tree, or the exception. *)
Fixpoint scan_loop (listdir : string -> pyExc + list (string * bool))
    (meta_of : string -> pyMeta) (walk : list string) (seen : list string)
    : pyExc + (list pyJob * list dirNode) :=
  match walk with
  | [] => inr ([], [])
  | r :: rest =>
      match dir_image_files r (listdir r) with
      | inl e => inl e
      | inr [] => scan_loop listdir meta_of rest seen
      | inr flat_files =>
          if existsb (String.eqb r) seen then scan_loop listdir meta_of rest seen
          else
            match scan_dir meta_of r flat_files with
            | None => scan_loop listdir meta_of rest (r :: seen)
            | Some (j, n) =>
                match scan_loop listdir meta_of rest (r :: seen) with
                | inl e => inl e
                | inr (js, ns) => inr (j :: js, n :: ns)
                end
            end
      end
  end.

Definition scan_flats (listdir : string -> pyExc + list (string * bool))
    (meta_of : string -> pyMeta) (walk : list string) : pyExc + (list pyJob * list dirNode) :=
  scan_loop listdir meta_of walk [].

(** [label.split("s",1)[0]]. *)
Definition label_prefix (s : string) : string :=
  let fix go (l : list ascii) (acc : list ascii) :=
    match l with
    | [] => rev acc
    | c :: r => if Ascii.eqb c "s"%char then rev acc else go r (c :: acc)
    end in
  string_of_list_ascii (go (list_ascii_of_string s) []).

(** [_gather_selected_plan]: [checked] is the check state of each
    directory item; every group is sent with ["want": {}]. *)
Definition gather_selected_plan (checked : string -> bool) (tree : list dirNode) : list pyJob :=
  map (fun dn =>
         mkPyJob (dn_text dn)
           (flat_map (fun gn =>
                        match py_float (label_prefix (gn_text gn)) with
                        | None => []
                        | Some ex => [mkPyGroup ex (map (path_join (dn_text dn)) (gn_children gn)) WantEmpty]
                        end) (dn_groups dn)))
      (filter (fun dn => checked (dn_text dn)) tree).

(** [runSelected]: the plan sent to PixInsight is the gathered one. *)
Definition runSelected_plan (checked : string -> bool) (tree : list dirNode) : list pyJob :=
  gather_selected_plan checked tree.

(** In [run()]: [want = grp.want || {}] and each missing field set to [null]. *)
Definition want_in_run (pw : pyWant) : want :=
  match pw with
  | WantOf w => w
  | WantEmpty => no_want
  end.

(** The files of [flat_files] whose bucket key is [k], in list order. *)
Definition bucket (meta_of : string -> pyMeta) (flat_files : list string) (k : string)
    : list string :=
  filter (fun p => match file_key meta_of p with
                   | Some k' => String.eqb k k'
                   | None => false
                   end) flat_files.

(** A flats tree: [night1] holds three 30 s flats, two 45 s flats and a
    file without exposure; [night2] holds two 10 s flats only. *)
Definition ex_listdir (r : string) : pyExc + list (string * bool) :=
  if String.eqb r "D:\flats\night1"%string then
    inr [("a3.fits", true); ("a1.fits", true); ("a2.fits", true);
         ("b1.fits", true); ("b2.fits", true); ("c1.fits", true); ("notes.txt", true)]%string
  else if String.eqb r "D:\flats\night2"%string then
    inr [("d1.fits", true); ("d2.fits", true)]%string
  else inr [].

Definition ex_meta (p : string) : pyMeta :=
  let b := basename p in
  if String.prefix "a"%string b then mkMeta (Some 30) (Some "2x2"%string) (Some 100) (Some 10) (Some (-10))
  else if String.prefix "b"%string b then mkMeta (Some 45) None None None None
  else if String.prefix "d"%string b then mkMeta (Some 10) None None None None
  else mkMeta None None None None None.

Definition ex_walk : list string := ["D:\flats"; "D:\flats\night1"; "D:\flats\night2"]%string.

Definition ex_scan : list pyJob * list dirNode :=
  match scan_flats ex_listdir ex_meta ex_walk with
  | inr out => out
  | inl _ => ([], [])
  end.

Definition ex_group0 : pyGroup := mkPyGroup 0 [] WantEmpty.

Definition ex_job0 : pyJob := mkPyJob ""%string [].

(** The 30 s group of [self.plan], and the same group as the run gets it. *)
Definition ex_scan_group : pyGroup := hd ex_group0 (j_groups (hd ex_job0 (fst ex_scan))).

Definition ex_run_job : pyJob := hd ex_job0 (runSelected_plan (fun _ => true) (snd ex_scan)).

Definition ex_run_group : pyGroup := hd ex_group0 (j_groups ex_run_job).

(** Two master darks at 30 s, a warm one listed first. *)
Definition ex_darks : list darkEntry :=
  [mkDark "lib/MasterDark_30s_warm.xisf"%string MASTERDARK 30 None None None (Some 20);
   mkDark "lib/MasterDark_30s_cold.xisf"%string MASTERDARK 30 None None None (Some (-10))].

(** The flat files [_dir_image_files] lists in a directory of the example. *)
Definition ex_files (r : string) : list string :=
  match dir_image_files r (ex_listdir r) with
  | inr ff => ff
  | inl _ => []
  end.

(** The naming pattern as the spec words it: [MasterFlat_*],
    case-insensitive, whatever the extension. *)
Definition master_name_spec (fn : string) : bool :=
  let l := list_ascii_of_string fn in
  (11 <=? List.length l)%nat && ci_eq (firstn 11 l) (list_ascii_of_string "MasterFlat_").

(** A directory listing with a master flat saved as FITS. *)
Definition ex_fits_master_listing : pyExc + list (string * bool) :=
  inr [("MasterFlat_30s.fits", true); ("flat_001.fits", true)]%string.

(** A directory listing with a master flat saved as XISF, in lower case. *)
Definition ex_xisf_master_listing : pyExc + list (string * bool) :=
  inr [("masterflat_30S.XISF", true); ("flat_001.xisf", true)]%string.

(* ------------------------------------------------------------------ *)
(** ** Python planner: metadata extraction *)

Definition upper_ascii (c : ascii) : ascii :=
  let n := nat_of_ascii c in
  if (97 <=? n)%nat && (n <=? 122)%nat then ascii_of_nat (n - 32) else c.

(** [str.upper()] on ASCII text. *)
Definition py_upper (s : string) : string :=
  string_of_list_ascii (map upper_ascii (list_ascii_of_string s)).

Definition is_digit (c : ascii) : bool :=
  let n := nat_of_ascii c in (48 <=? n)%nat && (n <=? 57)%nat.

(** [[A-Za-z]]. *)
Definition is_alpha (c : ascii) : bool :=
  let n := nat_of_ascii c in
  ((65 <=? n)%nat && (n <=? 90)%nat) || ((97 <=? n)%nat && (n <=? 122)%nat).

(** [\s] on ASCII characters (those [str.isspace] accepts). *)
Definition is_space (c : ascii) : bool :=
  let n := nat_of_ascii c in
  ((9 <=? n)%nat && (n <=? 13)%nat) || ((28 <=? n)%nat && (n <=? 32)%nat).

Fixpoint span (p : ascii -> bool) (l : list ascii) : list ascii * list ascii :=
  match l with
  | c :: r => if p c then let '(a, b) := span p r in (c :: a, b) else ([], l)
  | [] => ([], [])
  end.

(** [(\d+(?:\.\d+)?)] at the head of [l]: the group and the rest. The
    greedy choice is the only one that can be followed by [\s*s] or by
    nothing, so no backtracking is needed. *)
Definition num_at (l : list ascii) : option (list ascii * list ascii) :=
  let '(d, r) := span is_digit l in
  match d with
  | [] => None
  | _ :: _ =>
      match r with
      | c :: r' =>
          if Ascii.eqb c "."%char then
            let '(f, r'') := span is_digit r' in
            match f with
            | [] => Some (d, r)
            | _ :: _ => Some (d ++ c :: f, r'')
            end
          else Some (d, r)
      | [] => Some (d, r)
      end
  end.

Definition ci_char (c d : ascii) : bool := Ascii.eqb (lower_ascii c) (lower_ascii d).

(** [(?=[_\- \.]|$)]: one of [_ - space .], the end, or a final newline. *)
Definition lookahead_sep (r : list ascii) : bool :=
  match r with
  | [] => true
  | c :: r' =>
      existsb (Ascii.eqb c) ["_"; "-"; " "; "."]%char ||
      (Ascii.eqb c "010"%char && match r' with [] => true | _ => false end)
  end.

(** [\s*s(?=[_\- \.]|$)] at the head of [r]. *)
Definition tail_s (r : list ascii) : bool :=
  match snd (span is_space r) with
  | c :: r' => ci_char c "s"%char && lookahead_sep r'
  | [] => false
  end.

Definition not_after_letter (prev : option ascii) : bool :=
  match prev with Some c => negb (is_alpha c) | None => true end.

(** A match attempt at one position: the previous character and the
    remaining text; the result is group 1. *)
Definition rx_at := option ascii -> list ascii -> option (list ascii).

(** [(?<![A-Za-z])(\d+(?:\.\d+)?)\s*s(?=[_\- \.]|$)], ignoring case. *)
Definition rx_trailing_s : rx_at := fun prev l =>
  if not_after_letter prev then
    match num_at l with
    | Some (g, r) => if tail_s r then Some g else None
    | None => None
    end
  else None.

(** [EXPOSURE[_\-=: ]?(\d+(?:\.\d+)?)], ignoring case. *)
Definition rx_exposure_token : rx_at := fun _ l =>
  if ci_eq (firstn 8 l) (list_ascii_of_string "EXPOSURE") then
    let r := skipn 8 l in
    let r1 := match r with
              | c :: r' => if existsb (Ascii.eqb c) ["_"; "-"; "="; ":"; " "]%char then r' else r
              | [] => r
              end in
    option_map fst (num_at r1)
  else None.

(** [(?<![A-Za-z])S(?:IN)?\s*(\d+(?:\.\d+)?)\s*s(?=[_\- \.]|$)], ignoring
    case (when [IN] follows, only the branch taking it can succeed). *)
Definition rx_s_number_s : rx_at := fun prev l =>
  if not_after_letter prev then
    match l with
    | c :: r =>
        if ci_char c "s"%char then
          let r1 := if ci_eq (firstn 2 r) (list_ascii_of_string "IN") then skipn 2 r else r in
          match num_at (snd (span is_space r1)) with
          | Some (g, r2) => if tail_s r2 then Some g else None
          | None => None
          end
        else None
    | [] => None
    end
  else None.

(** [rx.search(name)]: the leftmost position where the attempt succeeds. *)
Fixpoint rx_search (rx : rx_at) (prev : option ascii) (l : list ascii) : option (list ascii) :=
  match rx prev l with
  | Some g => Some g
  | None => match l with
            | [] => None
            | c :: r => rx_search rx (Some c) r
            end
  end.

(** [_EXPOSURE_NAME_RES], in the order of the source. *)
Definition EXPOSURE_NAME_RES : list rx_at := [rx_trailing_s; rx_exposure_token; rx_s_number_s].

Fixpoint infer_loop (rxs : list rx_at) (name : list ascii) : option Q :=
  match rxs with
  | [] => None
  | rx :: rest =>
      match rx_search rx None name with
      | Some g => match py_float (string_of_list_ascii g) with
                  | Some v => Some v
                  | None => infer_loop rest name
                  end
      | None => infer_loop rest name
      end
  end.

(** [_infer_exposure_from_name(path)]. *)
Definition infer_exposure_from_name (path : string) : option Q :=
  infer_loop EXPOSURE_NAME_RES (list_ascii_of_string (basename path)).

(** A FITS card value as astropy returns it: a string, a number, a
    boolean, or a value [float()] rejects (undefined, complex). *)
Inductive hval := HStr (s : string) | HNum (q : Q) | HBool (b : bool) | HOther.

(** An element of the XISF header as [root.iter()] yields it. *)
Record xmlElem := mkElem {
  x_tag : string;
  x_attrs : list (string * string);
  x_text : option string
}.

(** What the extraction reads from outside: whether astropy imported,
    [float()] on a string, [str()] of a card value, the primary header of
    a FITS file (or the exception opening it raises), [_xisf_header_xml],
    and [ET.fromstring] (the elements, or the parse error). *)
Record metaEnv := mkMetaEnv {
  has_astropy : bool;
  float_str : string -> pyExc + Q;
  str_of : hval -> string;
  fits_header : string -> pyExc + list (string * hval);
  xisf_header_xml : string -> option string;
  et_fromstring : string -> pyExc + list xmlElem
}.

Definition py_try {A} (m : pyExc + A) (h : pyExc -> pyExc + A) : pyExc + A :=
  match m with inl e => h e | inr v => inr v end.

Definition starts_with_quote (s : string) : bool :=
  match list_ascii_of_string s with c :: _ => Ascii.eqb c "'"%char | [] => false end.

Definition ends_with_quote (s : string) : bool :=
  match rev (list_ascii_of_string s) with c :: _ => Ascii.eqb c "'"%char | [] => false end.

Fixpoint drop_quotes (l : list ascii) : list ascii :=
  match l with
  | c :: r => if Ascii.eqb c "'"%char then drop_quotes r else l
  | [] => []
  end.

(** [v.strip("'")]. *)
Definition strip_quotes (s : string) : string :=
  string_of_list_ascii (rev (drop_quotes (rev (drop_quotes (list_ascii_of_string s))))).

(** [_coerce_float(v)]; [None] is Python's [None]. *)
Definition coerce_float (env : metaEnv) (v : option hval) : option Q :=
  match v with
  | None => None
  | Some (HStr s) =>
      let s' := if starts_with_quote s && ends_with_quote s then strip_quotes s else s in
      match float_str env s' with inr q => Some q | inl _ => None end
  | Some (HNum q) => Some q
  | Some (HBool b) => Some (if b then 1 else 0)
  | Some HOther => None
  end.

Definition FITS_KEYS_EXPTIME : list string := ["EXPTIME"; "EXPOSURE"; "EXPOSURETIME"; "X_EXPOSURE"]%string.
Definition FITS_KEYS_BIN : list string := ["XBINNING"; "BINNING"; "CCDBINNING"; "BINNING_MODE"]%string.
Definition FITS_KEYS_GAIN : list string := ["GAIN"; "EGAIN"]%string.
Definition FITS_KEYS_OFFSET : list string := ["OFFSET"; "BLACKLEVEL"]%string.
Definition FITS_KEYS_TEMP : list string := ["CCD-TEMP"; "CCD_TEMP"; "SENSOR_TEMP"; "SENSOR-TEMP"]%string.

Fixpoint hdr_get (k : string) (hdr : list (string * hval)) : option hval :=
  match hdr with
  | [] => None
  | (k', v) :: r => if String.eqb k k' then Some v else hdr_get k r
  end.

(** [get(keys)] in [_fits_meta]: the value of the first key present. *)
Fixpoint fits_get (keys : list string) (hdr : list (string * hval)) : option hval :=
  match keys with
  | [] => None
  | k :: ks => match hdr_get k hdr with Some v => Some v | None => fits_get ks hdr end
  end.

(** The record returned when the header cannot be used. *)
Definition degraded_meta (path : string) : pyMeta :=
  mkMeta (infer_exposure_from_name path) None None None None.

Definition fits_body (env : metaEnv) (path : string) : pyExc + pyMeta :=
  match fits_header env path with
  | inl e => inl e
  | inr hdr =>
      let ex := match coerce_float env (fits_get FITS_KEYS_EXPTIME hdr) with
                | Some e => Some e
                | None => infer_exposure_from_name path
                end in
      let bn := option_map (fun v => py_upper (str_of env v)) (fits_get FITS_KEYS_BIN hdr) in
      inr (mkMeta ex bn (coerce_float env (fits_get FITS_KEYS_GAIN hdr))
                        (coerce_float env (fits_get FITS_KEYS_OFFSET hdr))
                        (coerce_float env (fits_get FITS_KEYS_TEMP hdr)))
  end.

(** [_fits_meta(path)]. *)
Definition fits_meta (env : metaEnv) (path : string) : pyExc + pyMeta :=
  if negb (has_astropy env) then inr (degraded_meta path)
  else py_try (fits_body env path) (fun _ => inr (degraded_meta path)).

(** [tag.rsplit("}",1)[-1].rsplit(":",1)[-1]]. *)
Definition after_last (sep : ascii) (s : string) : string :=
  let fix go (l : list ascii) (cur : list ascii) :=
    match l with
    | [] => rev cur
    | c :: r => if Ascii.eqb c sep then go r [] else go r (c :: cur)
    end in
  string_of_list_ascii (go (list_ascii_of_string s) []).

Definition local_name (tag : string) : string := after_last ":"%char (after_last "}"%char tag).

Fixpoint attr_get (k : string) (attrs : list (string * string)) : option string :=
  match attrs with
  | [] => None
  | (k', v) :: r => if String.eqb k k' then Some v else attr_get k r
  end.

(** Python truthiness of [None] or a string. *)
Definition truthy (v : option string) : bool :=
  match v with Some s => negb (String.eqb s "") | None => false end.

Definition py_or (a b : option string) : option string := if truthy a then a else b.

(** [d[k] = v] on a dict kept as an association list in insertion order. *)
Fixpoint dict_set {A} (k : string) (v : A) (d : list (string * A)) : list (string * A) :=
  match d with
  | [] => [(k, v)]
  | (k', v') :: r => if String.eqb k k' then (k', v) :: r else (k', v') :: dict_set k v r
  end.

Fixpoint dict_get {A} (k : string) (d : list (string * A)) : option A :=
  match d with
  | [] => None
  | (k', v) :: r => if String.eqb k k' then Some v else dict_get k r
  end.

(** The [vals] loop over the [FITSKeyword] elements. *)
Definition xisf_vals (elems : list xmlElem) : list (string * option string) :=
  fold_left (fun vals k =>
      if String.eqb (local_name (x_tag k)) "FITSKeyword" then
        let name := py_upper (match py_or (attr_get "name" (x_attrs k))
                                      (py_or (attr_get "keyword" (x_attrs k)) (Some ""%string)) with
                              | Some s => s | None => ""%string end) in
        let val := attr_get "value" (x_attrs k) in
        let val := if negb (truthy val) && truthy (x_text k) then x_text k else val in
        if String.eqb name "" then vals else dict_set name val vals
      else vals) elems [].

(** The [props] loop over the [Property] elements. *)
Definition xisf_props (elems : list xmlElem) : list (string * option string) :=
  fold_left (fun props p =>
      if String.eqb (local_name (x_tag p)) "Property" then
        let pid := py_upper (match py_or (attr_get "id" (x_attrs p)) (Some ""%string) with
                             | Some s => s | None => ""%string end) in
        let pv := attr_get "value" (x_attrs p) in
        let pv := match pv with None => if truthy (x_text p) then x_text p else pv | Some _ => pv end in
        if String.eqb pid "" then props else dict_set pid pv props
      else props) elems [].

Fixpoint is_prefix (k s : list ascii) : bool :=
  match k, s with
  | [], _ => true
  | c :: k', d :: s' => Ascii.eqb c d && is_prefix k' s'
  | _ :: _, [] => false
  end.

(** [k in pid] on strings. *)
Fixpoint substring_of (k s : list ascii) : bool :=
  is_prefix k s || match s with [] => false | _ :: r => substring_of k r end.

Fixpoint pick_vals (keys : list string) (vals : list (string * option string))
    : option (option string) :=
  match keys with
  | [] => None
  | k :: ks => match dict_get k vals with Some v => Some v | None => pick_vals ks vals end
  end.

Fixpoint pick_props (alt : list string) (props : list (string * option string))
    : option (option string) :=
  match alt with
  | [] => None
  | k :: ks =>
      match find (fun pv => substring_of (list_ascii_of_string k) (list_ascii_of_string (fst pv))) props with
      | Some (_, v) => Some v
      | None => pick_props ks props
      end
  end.

(** [pick(keys, alt_props)] in [_xisf_meta]. *)
Definition xisf_pick (vals props : list (string * option string)) (keys alt : list string)
    : option string :=
  match pick_vals keys vals with
  | Some v => v
  | None => match pick_props alt props with Some v => v | None => None end
  end.

Definition xisf_body (env : metaEnv) (path xml : string) : pyExc + pyMeta :=
  match et_fromstring env xml with
  | inl e => inl e
  | inr elems =>
      let vals := xisf_vals elems in
      let props := xisf_props elems in
      let pick := xisf_pick vals props in
      let ex := match coerce_float env (option_map HStr (pick FITS_KEYS_EXPTIME ["EXPOSURE"; "EXPTIME"]%string)) with
                | Some e => Some e
                | None => infer_exposure_from_name path
                end in
      let bn := option_map py_upper (pick FITS_KEYS_BIN ["BINNING"]%string) in
      inr (mkMeta ex bn
             (coerce_float env (option_map HStr (pick FITS_KEYS_GAIN ["GAIN"]%string)))
             (coerce_float env (option_map HStr (pick FITS_KEYS_OFFSET ["OFFSET"; "BLACKLEVEL"]%string)))
             (coerce_float env (option_map HStr (pick FITS_KEYS_TEMP ["TEMP"]%string))))
  end.

(** [_xisf_meta(path)]. *)
Definition xisf_meta (env : metaEnv) (path : string) : pyExc + pyMeta :=
  match xisf_header_xml env path with
  | None => inr (degraded_meta path)
  | Some xml =>
      if String.eqb xml "" then inr (degraded_meta path)
      else py_try (xisf_body env path xml) (fun _ => inr (degraded_meta path))
  end.

Fixpoint last_dot (l : list ascii) (i : nat) (acc : option nat) : option nat :=
  match l with
  | [] => acc
  | c :: r => last_dot r (S i) (if Ascii.eqb c "."%char then Some i else acc)
  end.

(** [Path(path).suffix] of the last component. *)
Definition path_suffix (path : string) : string :=
  let l := list_ascii_of_string (basename path) in
  match last_dot l 0 None with
  | Some i => if (0 <? i)%nat && (i <? List.length l - 1)%nat
              then string_of_list_ascii (skipn i l) else ""%string
  | None => ""%string
  end.

(** [read_meta(path)]. *)
Definition read_meta (env : metaEnv) (path : string) : pyExc + pyMeta :=
  let ext := py_lower (path_suffix path) in
  if String.eqb ext ".fits" || String.eqb ext ".fit" then fits_meta env path
  else if String.eqb ext ".xisf" then xisf_meta env path
  else inr (degraded_meta path).

(** The order of the filename patterns as the spec lists it: the
    [EXPOSURE=] token, then the trailing [<number>s], then [S<number>s]. *)
Definition EXPOSURE_NAME_RES_spec_order : list rx_at := [rx_exposure_token; rx_trailing_s; rx_s_number_s].

(** The exposure a file's header gives: the value of the first exposure
    alias keyword present, coerced to a number (FITS headers are read only
    when astropy is available). For XISF, when no alias keyword is present,
    the Property ids are searched for EXPOSURE and only then for EXPTIME.
    [None] when there is none or it is not numeric. *)
Definition header_exposure (env : metaEnv) (path : string) : option Q :=
  let ext := py_lower (path_suffix path) in
  if String.eqb ext ".fits" || String.eqb ext ".fit" then
    if has_astropy env then
      match fits_header env path with
      | inr hdr => coerce_float env (fits_get FITS_KEYS_EXPTIME hdr)
      | inl _ => None
      end
    else None
  else if String.eqb ext ".xisf" then
    match xisf_header_xml env path with
    | Some xml =>
        if String.eqb xml "" then None
        else match et_fromstring env xml with
             | inr elems =>
                 coerce_float env (option_map HStr
                   (xisf_pick (xisf_vals elems) (xisf_props elems) FITS_KEYS_EXPTIME ["EXPOSURE"; "EXPTIME"]%string))
             | inl _ => None
             end
    | None => None
    end
  else None.

(** A parse failure in the spec's sense: the header cannot be read
    (no astropy, the FITS open fails, no XISF header, the XML does not
    parse) or the extension is not a supported one. *)
Definition parse_failure (env : metaEnv) (path : string) : Prop :=
  let ext := py_lower (path_suffix path) in
  ((ext = ".fits"%string \/ ext = ".fit"%string) /\
     (has_astropy env = false \/ exists e, fits_header env path = inl e)) \/
  (ext = ".xisf"%string /\
     (xisf_header_xml env path = None \/ xisf_header_xml env path = Some ""%string \/
      exists xml e, xisf_header_xml env path = Some xml /\ et_fromstring env xml = inl e)) \/
  (ext <> ".fits"%string /\ ext <> ".fit"%string /\ ext <> ".xisf"%string).

(** [float()] raises on a card value: a string (after stripping quotes)
    it cannot parse, or a value that is neither a string nor a number. *)
Definition float_raises (env : metaEnv) (v : hval) : Prop :=
  match v with
  | HStr s =>
      exists e, float_str env (if starts_with_quote s && ends_with_quote s then strip_quotes s else s) = inl e
  | HOther => True
  | _ => False
  end.

(** An environment where astropy is present and [float()] parses plain
    decimals; [flat_45s.fits] has [EXPTIME = 30], other FITS files only a gain. *)
Definition ex_env : metaEnv :=
  mkMetaEnv true
    (fun s => match py_float s with Some q => inr q | None => inl ValueError end)
    (fun _ => ""%string)
    (fun p => if String.eqb (basename p) "flat_45s.fits"
              then inr [("EXPTIME", HNum 30); ("GAIN", HNum 100)]%string
              else inr [("GAIN", HNum 100)]%string)
    (fun _ => None)
    (fun _ => inl ParseError).

Definition meta_or_degraded (path : string) (r : pyExc + pyMeta) : pyMeta :=
  match r with inr m => m | inl _ => degraded_meta path end.
(** The local [split_dot] loop of [py_float], named for the proofs. *)
Fixpoint split_dot (l : list ascii) (pre : list ascii) : list ascii * option (list ascii) :=
  match l with
  | [] => (rev pre, None)
  | c :: r => if Ascii.eqb c "."%char then (rev pre, Some r) else split_dot r (c :: pre)
  end.

(** [py_float] with its local loop named: the same function (see [py_float_unfold]). *)
Definition py_float_body (s : string) : option Q :=
  let l := list_ascii_of_string s in
  let '(neg, l1) := match l with
                    | c :: r => if Ascii.eqb c "-"%char then (true, r) else (false, l)
                    | [] => (false, l)
                    end in
  let '(a, b) := split_dot l1 [] in
  match digits_val a 0 0 with
  | Some (ia, na) =>
      let fr := match b with
                | None => Some (0%Z, 0%nat)
                | Some bl => digits_val bl 0 0
                end in
      match fr with
      | Some (ib, nb) =>
          if (na + nb =? 0)%nat then None
          else
            let v := inject_Z ia + Qmake ib (Z.to_pos (10 ^ Z.of_nat nb)) in
            Some (if neg then - v else v)
      | None => None
      end
  | None => None
  end.

(** The local loop of [basename], named for the proofs. *)
Fixpoint basename_go (l : list ascii) (cur : list ascii) : list ascii :=
  match l with
  | [] => rev cur
  | c :: r => if is_sep c then basename_go r [] else basename_go r (c :: cur)
  end.

(** The local loop of [label_prefix], named for the proofs. *)
Fixpoint label_go (l : list ascii) (acc : list ascii) : list ascii :=
  match l with
  | [] => rev acc
  | c :: r => if Ascii.eqb c "s"%char then rev acc else label_go r (c :: acc)
  end.

(** No path separator ([\\] or [/]) in [s]. *)
Definition no_sep (s : string) : bool := forallb (fun c => negb (is_sep c)) (list_ascii_of_string s).

(** A job as [_gather_selected_plan] sends it: every group with ["want": {}]. *)
Definition without_wants (j : pyJob) : pyJob :=
  mkPyJob (j_dirPath j) (map (fun g => mkPyGroup (g_exposure g) (g_files g) WantEmpty) (j_groups j)).

(** [lastIndexOf] of either separator, [None] for -1. *)
Fixpoint last_sep_from (l : list ascii) (i : nat) (acc : option nat) : option nat :=
  match l with
  | [] => acc
  | c :: r => last_sep_from r (S i) (if is_sep c then Some i else acc)
  end.

(** [parentDir(p)]. *)
Definition parentDir (p : string) : string :=
  if String.eqb p "" then ""%string
  else match last_sep_from (list_ascii_of_string p) 0 None with
       | Some i => if (0 <? i)%nat then substring 0 i p else ""%string
       | None => ""%string
       end.

(** JS line terminators among ASCII characters: [.] does not match them. *)
Definition is_line_term (c : ascii) : bool :=
  Ascii.eqb c "010"%char || Ascii.eqb c "013"%char.

(** The text after the end of the match of [/^.*[\\/]/]: the last
    separator before the first line terminator. *)
Fixpoint base_after (l : list ascii) (acc : option (list ascii)) : option (list ascii) :=
  match l with
  | [] => acc
  | c :: r => if is_line_term c then acc
              else if is_sep c then base_after r (Some r) else base_after r acc
  end.

(** [baseName(p)] = [p.replace(/^.*[\\/]/,'')]. *)
Definition baseName (p : string) : string :=
  match base_after (list_ascii_of_string p) None with
  | Some r => string_of_list_ascii r
  | None => p
  end.

(** The last character of [s], if any. *)
Definition last_char (s : string) : option ascii :=
  match rev (list_ascii_of_string s) with c :: _ => Some c | [] => None end.

(** [s] ends with a path separator. *)
Definition ends_with_sep (s : string) : bool :=
  match last_char s with Some c => is_sep c | None => false end.

(** [[A-Za-z0-9]]. *)
Definition is_alnum (c : ascii) : bool := is_alpha c || is_digit c.

(** [[_\-]]. *)
Definition is_us_dash (c : ascii) : bool := Ascii.eqb c "_"%char || Ascii.eqb c "-"%char.

(** [[_\-]?([A-Za-z0-9]+)] right after the keyword: the group. The greedy
    run of [+] is the group; the optional separator is tried first. *)
Definition rx_filter_tail (l : list ascii) : option (list ascii) :=
  match match l with
        | c :: r => if is_us_dash c then
                      match fst (span is_alnum r) with [] => None | w => Some w end
                    else None
        | [] => None
        end with
  | Some w => Some w
  | None => match fst (span is_alnum l) with [] => None | w => Some w end
  end.

(** [(?:FILTER|Filter)] then the tail. *)
Definition rx_filter_kw (l : list ascii) : option (list ascii) :=
  match (if is_prefix (list_ascii_of_string "FILTER") l then rx_filter_tail (skipn 6 l) else None) with
  | Some w => Some w
  | None => if is_prefix (list_ascii_of_string "Filter") l then rx_filter_tail (skipn 6 l) else None
  end.

(** [(?:^|[_\-])] then the keyword, at the head of [l]; [at_start] when
    [^] holds there. *)
Definition rx_filter_at (at_start : bool) (l : list ascii) : option (list ascii) :=
  match (if at_start then rx_filter_kw l else None) with
  | Some w => Some w
  | None => match l with
            | c :: r => if is_us_dash c then rx_filter_kw r else None
            | [] => None
            end
  end.

(** [s.match(/(?:^|[_\-])(?:FILTER|Filter)[_\-]?([A-Za-z0-9]+)/)]: the group
    of the leftmost match. *)
Fixpoint rx_filter_search (at_start : bool) (l : list ascii) : option (list ascii) :=
  match rx_filter_at at_start l with
  | Some w => Some w
  | None => match l with
            | [] => None
            | _ :: r => rx_filter_search false r
            end
  end.

(** The loop over [files] of [guessFilterFrom]; [toUpperCase()] on ASCII
    text is [py_upper]. *)
Fixpoint filter_from_files (files : list string) : option string :=
  match files with
  | [] => None
  | f :: fs =>
      match rx_filter_search true (list_ascii_of_string (baseName f)) with
      | Some w => Some (py_upper (string_of_list_ascii w))
      | None => filter_from_files fs
      end
  end.

(** The last element of [dir.replace(/\\/g,"/").split("/")]: [acc] is the
    text after the last separator seen so far. *)
Fixpoint after_last_sep (l acc : list ascii) : list ascii :=
  match l with
  | [] => acc
  | c :: r => after_last_sep r (if is_sep c then r else acc)
  end.

(** [/^\d{4}-\d{2}-\d{2}$/.test(s)]. *)
Definition is_ymd (l : list ascii) : bool :=
  match l with
  | [y1; y2; y3; y4; s1; m1; m2; s2; d1; d2] =>
      forallb is_digit [y1; y2; y3; y4; m1; m2; d1; d2]
      && Ascii.eqb s1 "-"%char && Ascii.eqb s2 "-"%char
  | _ => false
  end.

(** [guessFilterFrom(files, dir)]. *)
Definition guessFilterFrom (files : list string) (dir : string) : string :=
  match filter_from_files files with
  | Some f => f
  | None =>
      let last := after_last_sep (list_ascii_of_string dir) (list_ascii_of_string dir) in
      match last with
      | [] => "UNKNOWN"%string
      | _ => if is_ymd last then "UNKNOWN"%string else py_upper (string_of_list_ascii last)
      end
  end.

(** [\w]. *)
Definition is_word (c : ascii) : bool := is_alnum c || Ascii.eqb c "_"%char.

(** [\b(20\d{2}-\d{2}-\d{2})\b] at the head of [l]; [prev] is the
    character before it, if any. *)
Definition rx_date_at (prev : option ascii) (l : list ascii) : option (list ascii) :=
  let w := firstn 10 l in
  let before := match prev with Some c => negb (is_word c) | None => true end in
  let after := match skipn 10 l with c :: _ => negb (is_word c) | [] => true end in
  if before && is_prefix (list_ascii_of_string "20") w && is_ymd w && after then Some w else None.

(** [s.match(/\b(20\d{2}-\d{2}-\d{2})\b/)]: the group of the leftmost match. *)
Fixpoint rx_date_search (prev : option ascii) (l : list ascii) : option (list ascii) :=
  match rx_date_at prev l with
  | Some w => Some w
  | None => match l with
            | [] => None
            | c :: r => rx_date_search (Some c) r
            end
  end.

Fixpoint date_from_files (files : list string) : option string :=
  match files with
  | [] => None
  | f :: fs =>
      match rx_date_search None (list_ascii_of_string f) with
      | Some w => Some (string_of_list_ascii w)
      | None => date_from_files fs
      end
  end.

(** [guessDateFromPath(dir, files)]. *)
Definition guessDateFromPath (dir : string) (files : list string) : string :=
  match rx_date_search None (list_ascii_of_string dir) with
  | Some w => string_of_list_ascii w
  | None => match date_from_files files with
            | Some d => d
            | None => "UNKNOWNDATE"%string
            end
  end.

(** [masterName] in [run()]. *)
Definition masterName (dateStr filt : string) (exp : Q) : string :=
  ("MasterFlat_" ++ dateStr ++ "_" ++ filt ++ "_" ++ kexp_string (kexp exp) ++ "s.xisf")%string.

(** [masterOut] in [run()] for a group of exposure [exp] whose calibrated
    flats are [calFiles]. *)
Definition masterOut (outBase dir : string) (calFiles : list string) (exp : Q) : string :=
  joinPath outBase
    (masterName (guessDateFromPath dir calFiles) (guessFilterFrom calFiles dir) exp).

(** A character that is neither a path separator nor a newline. *)
Definition name_char (c : ascii) : bool := negb (is_sep c) && negb (Ascii.eqb c "010"%char).

(** [_classify_dark_type(name)]; [None] is the empty string. *)
Definition classify_dark_type (name : string) : option darkType :=
  let u := list_ascii_of_string (py_upper name) in
  if substring_of (list_ascii_of_string "MASTERDARKFLAT") u then Some MASTERDARKFLAT
  else if substring_of (list_ascii_of_string "MASTERDARK") u then Some MASTERDARK
  else if substring_of (list_ascii_of_string "DARKFLAT") u then Some DARKFLAT
  else if substring_of (list_ascii_of_string "DARK") u then Some DARK
  else None.

Definition darkType_str (t : darkType) : string :=
  match t with
  | MASTERDARKFLAT => "MASTERDARKFLAT"
  | MASTERDARK => "MASTERDARK"
  | DARKFLAT => "DARKFLAT"
  | DARK => "DARK"
  end.

(** The catalog loop of [scan_darks] over the candidate files [cand];
    [meta_of p] is [meta_map[p]]. *)
Definition dark_catalog (meta_of : string -> pyMeta) (cand : list string) : list darkEntry :=
  flat_map (fun p =>
              match classify_dark_type (basename p) with
              | None => []
              | Some typ =>
                  let mm := meta_of p in
                  match m_exposure mm with
                  | None => []
                  | Some ex => [mkDark p typ ex (m_binning mm) (m_gain mm) (m_offset mm) (m_temp mm)]
                  end
              end) cand.

(** [f"{d['exposure']:.3f}s"]: formatting with [.3f] rounds as [round(x, 3)]. *)
Definition dark_key (d : darkEntry) : string := (bucket_key (d_exposure d) ++ "s")%string.

(** [by_type[typ].setdefault(k, []).append(d)]. *)
Fixpoint add_dark (k : string) (d : darkEntry) (l : list (string * list darkEntry))
    : list (string * list darkEntry) :=
  match l with
  | [] => [(k, [d])]
  | (k', ds) :: r => if String.eqb k k' then (k', ds ++ [d]) :: r else (k', ds) :: add_dark k d r
  end.

(** [by_type[typ]] after the loop over the catalog. *)
Definition by_type (catalog : list darkEntry) (typ : darkType) : list (string * list darkEntry) :=
  fold_left (fun acc d => if darkType_eqb (d_type d) typ then add_dark (dark_key d) d acc else acc)
    catalog [].

(** [float(x[:-1])]. *)
Definition key_float (k : string) : Q :=
  float_or0 (string_of_list_ascii (removelast (list_ascii_of_string k))).

(** [sorted(by_type[typ].keys(), key=lambda x: float(x[:-1]))] (stable). *)
Fixpoint insert_dark_key (k : string) (l : list string) : list string :=
  match l with
  | [] => [k]
  | y :: r => if Qltb (key_float k) (key_float y) then k :: l else y :: insert_dark_key k r
  end.

Definition sort_dark_keys (l : list string) : list string :=
  fold_left (fun acc x => insert_dark_key x acc) l [].

(** [sorted(ds, key=lambda dd: dd["path"].lower())] (stable). *)
Fixpoint insert_by_lower (d : darkEntry) (l : list darkEntry) : list darkEntry :=
  match l with
  | [] => [d]
  | y :: r => match String.compare (py_lower (d_path d)) (py_lower (d_path y)) with
              | Lt => d :: l
              | _ => y :: insert_by_lower d r
              end
  end.

Definition sort_by_lower (l : list darkEntry) : list darkEntry :=
  fold_left (fun acc x => insert_by_lower x acc) l [].

(** [Qt.CheckState]. *)
Inductive checkState := Unchecked | PartiallyChecked | Checked.

Definition checkState_eqb (a b : checkState) : bool :=
  match a, b with
  | Unchecked, Unchecked | PartiallyChecked, PartiallyChecked | Checked, Checked => true
  | _, _ => false
  end.

Local Set Warnings "-register-all".

(** A [QStandardItem]: text, [isCheckable()], [checkState()], children. *)
Inductive stdItem := mkItem (text : string) (checkable : bool) (state : checkState) (children : list stdItem).

Definition it_text (it : stdItem) : string := let '(mkItem t _ _ _) := it in t.

Definition it_checkable (it : stdItem) : bool := let '(mkItem _ c _ _) := it in c.

Definition it_state (it : stdItem) : checkState := let '(mkItem _ _ s _) := it in s.

Definition it_children (it : stdItem) : list stdItem := let '(mkItem _ _ _ chs) := it in chs.

(** [item.setCheckState(st)]. *)
Definition set_state (it : stdItem) (st : checkState) : stdItem :=
  let '(mkItem t c _ chs) := it in mkItem t c st chs.

(** The counting loop of [_update_parent_tristate]: (total, checked, partial). *)
Fixpoint tally (chs : list stdItem) : nat * nat * bool :=
  match chs with
  | [] => (0%nat, 0%nat, false)
  | ch :: r =>
      let '(total, checked, partial) := tally r in
      if it_checkable ch then
        (S total,
         (if checkState_eqb (it_state ch) Checked then S checked else checked),
         partial || checkState_eqb (it_state ch) PartiallyChecked)
      else (total, checked, partial)
  end.

(** The state [_update_parent_tristate] gives a parent with children [chs]. *)
Definition parent_state (chs : list stdItem) : checkState :=
  let '(total, checked, partial) := tally chs in
  if partial || ((0 <? checked)%nat && (checked <? total)%nat) then PartiallyChecked
  else if (checked =? total)%nat && (0 <? total)%nat then Checked
  else Unchecked.

(** [Qt.Checked if state == Qt.PartiallyChecked else state]. *)
Definition eff_state (st : checkState) : checkState :=
  match st with PartiallyChecked => Checked | s => s end.

(** [_set_children_check(item, state)]: a call leaves the state of its own
    item alone, so setting a child's state before or after the recursive
    call on it gives the same item. *)
Fixpoint set_children_check (it : stdItem) (st : checkState) : stdItem :=
  match it with
  | mkItem t c s chs =>
      mkItem t c s
        (map (fun ch => let ch' := set_children_check ch (eff_state st) in
                        if it_checkable ch then set_state ch' (eff_state st) else ch') chs)
  end.

Definition dark_root_text : string := "Dark Inventory (explicit roots only)".

Definition dark_types : list darkType := [MASTERDARKFLAT; MASTERDARK; DARKFLAT; DARK].

(** The item of type [typ] built by [scan_darks]. *)
Definition type_item (catalog : list darkEntry) (typ : darkType) : stdItem :=
  let bt := by_type catalog typ in
  mkItem (darkType_str typ) true Checked
    (map (fun k => mkItem k true Checked
                     (map (fun d => mkItem (d_path d) true Checked []) (sort_by_lower (assoc_get [] k bt))))
         (sort_dark_keys (map fst bt))).

(** [scan_darks()]: [dark_roots] are the listed roots, [cand] the files
    [_iter_candidate_files] yields for them, [meta_of] the metadata map.
    The result is [self.dark_catalog] and the root item of [modelDarks];
    the root is not checkable and [_update_parent_tristate] on each type
    item sets its state from the type items. *)
Definition scan_darks (dark_roots cand : list string) (meta_of : string -> pyMeta)
    : list darkEntry * stdItem :=
  match dark_roots with
  | [] => ([], mkItem dark_root_text false Unchecked [])
  | _ :: _ =>
      let catalog := dark_catalog meta_of cand in
      let types := map (type_item catalog) dark_types in
      (catalog, mkItem dark_root_text false (parent_state types) types)
  end.

(** The paths [_gather_allowed_darks] collects in [allowed]. *)
Definition allowed_paths (root : stdItem) : list string :=
  flat_map (fun typItem =>
    flat_map (fun expItem =>
      flat_map (fun fItem =>
                  if it_checkable fItem && checkState_eqb (it_state fItem) Checked
                  then [it_text fItem] else [])
        (it_children expItem))
      (it_children typItem))
    (it_children root).

(** [_gather_allowed_darks()]: [model] is [modelDarks.item(0,0)] ([None]
    before the first scan), [catalog] is [self.dark_catalog]. *)
Definition gather_allowed_darks (model : option stdItem) (catalog : list darkEntry) : list darkEntry :=
  match model with
  | None => []
  | Some root =>
      let allowed := allowed_paths root in
      filter (fun d => existsb (String.eqb (d_path d)) allowed) catalog
  end.

(** [_set_all_darks(checked)] on the root item. *)
Definition set_all_darks (checked : bool) (model : option stdItem) : option stdItem :=
  match model with
  | None => None
  | Some (mkItem t c s chs) =>
      let st := if checked then Checked else Unchecked in
      let chs' := map (fun typItem =>
                         if it_checkable typItem then set_children_check (set_state typItem st) st
                         else typItem) chs in
      Some (mkItem t c (match chs' with [] => s | _ => parent_state chs' end) chs')
  end.

(** The tree with its check states dropped. *)
Fixpoint erase (it : stdItem) : stdItem :=
  match it with
  | mkItem t c _ chs => mkItem t c Unchecked (map erase chs)
  end.

(** The (type, key, path) texts of the file items of a dark tree. *)
Definition tree_triples (root : stdItem) : list (string * string * string) :=
  flat_map (fun typItem =>
    flat_map (fun expItem =>
      map (fun fItem => (it_text typItem, it_text expItem, it_text fItem)) (it_children expItem))
      (it_children typItem))
    (it_children root).

Definition by_type_step (typ : darkType) (acc : list (string * list darkEntry)) (d : darkEntry) :=
  if darkType_eqb (d_type d) typ then add_dark (dark_key d) d acc else acc.

(** Every file item of the tree is checkable and checked. *)
Definition files_checked (root : stdItem) : Prop :=
  forall ty e f, In ty (it_children root) -> In e (it_children ty) -> In f (it_children e) ->
  it_checkable f = true /\ it_state f = Checked.

(** A dark library: a master dark, a dark flat, a raw dark and a light
    frame; the light is not a dark and the raw dark has no exposure. *)
Definition ex_dark_roots : list string := ["D:\darks"]%string.

Definition ex_dark_cand : list string :=
  ["D:\darks\MasterDark_60s.xisf"; "D:\darks\DarkFlat_1.5s.xisf";
   "D:\darks\dark_raw_001.fits"; "D:\darks\Light_001.fits"]%string.

Definition ex_dark_meta (p : string) : pyMeta :=
  if String.eqb p "D:\darks\MasterDark_60s.xisf"%string then mkMeta (Some 60) (Some "1x1"%string) (Some 100) None (Some (-10))
  else if String.eqb p "D:\darks\DarkFlat_1.5s.xisf"%string then mkMeta (Some (3#2)) None None None None
  else if String.eqb p "D:\darks\Light_001.fits"%string then mkMeta (Some 120) None None None None
  else mkMeta None None None None None.

(** [sorted(..., key=lambda dd: dd["path"].lower())] puts [a] no later than [b]. *)
Definition lower_le (a b : string) : Prop := String.compare (py_lower a) (py_lower b) <> Gt.

(** The dark tree of the library with every item below the root unticked. *)
Definition ex_dark_unticked : stdItem :=
  set_children_check (snd (scan_darks ex_dark_roots ex_dark_cand ex_dark_meta)) Unchecked.

(* ================================================================== *)
(** * Properties *)

(* ------------------------------------------------------------------ *)
(** ** Flat rejection policy ([integrateToMaster], forDark = false) *)

(** C1 (counterexample): with six flats and the rejection configuration the
    run passes ([CFG.rejection] = 5.0/5.0), the winsorized sigma bounds in
    effect are 5.0/5.0, not 4.0/3.0. *)
Lemma C1_counterexample :
  match integrateToMaster_config six_flats false (Some CFG_rejection) with
  | inr ii => II.rej ii = Some II.Rej_Winsor /\
              II.sigmaLow ii = Some 5.0 /\ II.sigmaHigh ii = Some 5.0 /\
              II.sigmaLow ii <> Some 4.0
  | inl _ => False
  end.
Proof. vm_compute. repeat split; discriminate. Qed.

(** C1 (amended): a flat integration of n >= 3 frames runs with
    multiplicative normalization and flux-equalizing rejection
    normalization; n < 6: percentile clip 0.20/0.10; 6 <= n <= 15:
    winsorized sigma clip, cutoff 5.0, both tails, with sigmaLow/sigmaHigh
    taken from the [rej] configuration when it holds numbers and 4.0/3.0
    otherwise; n > 15: linear-fit clip 5.0/4.0, both tails. *)
Theorem C1_flat_rejection_policy (paths : list string) (rej : option rejCfg)
    (Hn : (3 <= List.length paths)%nat) :
  exists ii,
    integrateToMaster_config paths false rej = inr ii /\
    II.norm ii = Some II.Norm_Mult /\
    II.rejNormalization ii = Some II.RejNorm_Eq /\
    ((List.length paths < 6)%nat ->
       II.rej ii = Some II.Rej_PC /\
       II.pcClipLow ii = Some 0.20 /\ II.pcClipHigh ii = Some 0.10) /\
    ((6 <= List.length paths <= 15)%nat ->
       II.rej ii = Some II.Rej_Winsor /\
       II.sigmaLow ii = Some (numOr 4.0 (rejLow rej)) /\
       II.sigmaHigh ii = Some (numOr 3.0 (rejHigh rej)) /\
       II.winsorizationCutoff ii = Some 5.0 /\
       II.clipLow ii = Some true /\ II.clipHigh ii = Some true) /\
    ((15 < List.length paths)%nat ->
       II.rej ii = Some II.Rej_LinFit /\
       II.linearFitLow ii = Some 5.0 /\ II.linearFitHigh ii = Some 4.0 /\
       II.clipLow ii = Some true /\ II.clipHigh ii = Some true).
Proof.
  unfold integrateToMaster_config.
  destruct (Nat.eqb_spec (List.length paths) 0) as [H0|_]; [lia|].
  destruct (Nat.ltb_spec (List.length paths) 3) as [H3|_]; [lia|].
  destruct (Nat.ltb_spec (List.length paths) 6) as [H6|H6];
  [|destruct (Nat.leb_spec (List.length paths) 15) as [H15|H15]];
  eexists; split; try reflexivity; cbn.
  - repeat split; lia.
  - destruct rej as [[[lo|] [hi|]]|]; cbn;
      repeat split; intros; try lia; reflexivity.
  - repeat split; lia.
Qed.

Lemma C1_flat_rejection_policy_witness :
  (3 <= List.length six_flats)%nat /\
  exists ii,
    integrateToMaster_config six_flats false (Some CFG_rejection) = inr ii /\
    II.norm ii = Some II.Norm_Mult /\
    II.rejNormalization ii = Some II.RejNorm_Eq /\
    ((List.length six_flats < 6)%nat ->
       II.rej ii = Some II.Rej_PC /\
       II.pcClipLow ii = Some 0.20 /\ II.pcClipHigh ii = Some 0.10) /\
    ((6 <= List.length six_flats <= 15)%nat ->
       II.rej ii = Some II.Rej_Winsor /\
       II.sigmaLow ii = Some (numOr 4.0 (rejLow (Some CFG_rejection))) /\
       II.sigmaHigh ii = Some (numOr 3.0 (rejHigh (Some CFG_rejection))) /\
       II.winsorizationCutoff ii = Some 5.0 /\
       II.clipLow ii = Some true /\ II.clipHigh ii = Some true) /\
    ((15 < List.length six_flats)%nat ->
       II.rej ii = Some II.Rej_LinFit /\
       II.linearFitLow ii = Some 5.0 /\ II.linearFitHigh ii = Some 4.0 /\
       II.clipLow ii = Some true /\ II.clipHigh ii = Some true).
Proof.
  split; [cbn; lia|].
  apply (C1_flat_rejection_policy six_flats (Some CFG_rejection)).
  cbn; lia.
Defined.

(* ------------------------------------------------------------------ *)
(** ** Dark selection: tier order ([pickDarkFor]) *)

Lemma best_step_fst (w : want) (m : matchPolicy) (P : darkEntry -> Prop) :
  forall l acc, P (fst acc) -> (forall c, In c l -> P c) ->
  P (fst (fold_left (best_step w m) l acc)).
Proof.
  induction l as [|c l IH]; intros acc Hacc Hl; cbn; [exact Hacc|].
  apply IH; [|intros; apply Hl; right; assumption].
  unfold best_step. destruct (Qltb (snd acc) (metaScore c w m)); cbn;
    [apply Hl; left; reflexivity | exact Hacc].
Qed.

Lemma pick_best_in (w : want) (m : matchPolicy) (l : list darkEntry) r :
  pick_best w m l = Some r -> In r l.
Proof.
  destruct l as [|c0 l]; [discriminate|].
  unfold pick_best; intros H; injection H as <-.
  apply (best_step_fst w m (fun c => In c (c0 :: l)) (c0 :: l) (c0, -1)).
  - left; reflexivity.
  - intros c Hc; exact Hc.
Qed.

Lemma pick_best_nonempty (w : want) (m : matchPolicy) (l : list darkEntry) :
  l <> [] -> exists r, pick_best w m l = Some r.
Proof. destruct l; cbn; [congruence|eauto]. Qed.

Lemma pick_best_empty (w : want) (m : matchPolicy) : pick_best w m [] = None.
Proof. reflexivity. Qed.

(** C2: the tiers are tried in the order master dark-flat, dark-flat stack,
    master dark, dark stack, nearest exposure; the first non-empty one
    decides. With a master dark-flat at the target's rounded exposure the
    selection is one of those masters, not flagged for optimization, and no
    integration runs (the state, hence the list of built masters, is
    unchanged), whatever dark-flat frames exist at that exposure. *)
Theorem C2_tier_priority (executeGlobal : II.t -> bool) (allowNearest : bool)
    (exp : Q) (w : want) (cacheDir : string) (cats : list darkEntry)
    (rej : option rejCfg) (m : matchPolicy) (s : pjsrState) :
  let k := kexp exp in
  let run := pickDarkFor executeGlobal allowNearest exp w cacheDir cats rej m in
  (groupAt cats MASTERDARKFLAT k <> [] ->
     exists sel, run s = (inr (Some sel), s) /\
       sel_optimize sel = false /\ sel_kind sel = MasterDarkFlat_exact /\
       In (sel_path sel) (paths_of (groupAt cats MASTERDARKFLAT k))) /\
  (groupAt cats MASTERDARKFLAT k = [] -> groupAt cats DARKFLAT k <> [] ->
     run s = (integrateToMaster executeGlobal (paths_of (groupAt cats DARKFLAT k))
                (MDF_synth_path cacheDir k) true rej ;;;
              pj_ret (Some (mkSel (MDF_synth_path cacheDir k) false
                                  MasterDarkFlat_built))) s) /\
  (groupAt cats MASTERDARKFLAT k = [] -> groupAt cats DARKFLAT k = [] ->
   groupAt cats MASTERDARK k <> [] ->
     exists sel, run s = (inr (Some sel), s) /\
       sel_optimize sel = false /\ sel_kind sel = MasterDark_exact /\
       In (sel_path sel) (paths_of (groupAt cats MASTERDARK k))) /\
  (groupAt cats MASTERDARKFLAT k = [] -> groupAt cats DARKFLAT k = [] ->
   groupAt cats MASTERDARK k = [] -> groupAt cats DARK k <> [] ->
     run s = (integrateToMaster executeGlobal (paths_of (groupAt cats DARK k))
                (MD_synth_path cacheDir k) true rej ;;;
              pj_ret (Some (mkSel (MD_synth_path cacheDir k) false
                                  MasterDark_built))) s) /\
  (groupAt cats MASTERDARKFLAT k = [] -> groupAt cats DARKFLAT k = [] ->
   groupAt cats MASTERDARK k = [] -> groupAt cats DARK k = [] ->
     forall r s', run s = (inr (Some r), s') ->
       allowNearest = true /\ sel_kind r = MasterDark_nearest_optimize).
Proof.
  cbv zeta. unfold pickDarkFor.
  set (k := kexp exp).
  refine (conj _ (conj _ (conj _ (conj _ _)))).
  - intros Hne. destruct (pick_best_nonempty w m _ Hne) as [r Hr].
    rewrite Hr. eexists; repeat split.
    cbn; apply in_map, (pick_best_in w m _ _ Hr).
  - intros H1 H2. rewrite H1, pick_best_empty.
    destruct (groupAt cats DARKFLAT k); [congruence|reflexivity].
  - intros H1 H2 Hne. rewrite H1, pick_best_empty, H2.
    destruct (pick_best_nonempty w m _ Hne) as [r Hr].
    rewrite Hr. eexists; repeat split.
    cbn; apply in_map, (pick_best_in w m _ _ Hr).
  - intros H1 H2 H3 H4. rewrite H1, pick_best_empty, H2, H3, pick_best_empty.
    destruct (groupAt cats DARK k); [congruence|reflexivity].
  - intros H1 H2 H3 H4 r s'.
    rewrite H1, pick_best_empty, H2, H3, pick_best_empty, H4.
    destruct allowNearest; [|cbn; intros Heq; discriminate Heq].
    unfold pj_bind.
    destruct (synth_D_loop _ _ _ _ _ _) as [[e|l] s1];
      [intros Heq; discriminate Heq|].
    destruct (sort_by_dist _ _ _); cbn; [intros Heq; discriminate Heq|].
    intros Heq; injection Heq as <- _; split; reflexivity.
Qed.

Lemma C2_tier_priority_witness :
  groupAt cats_30 MASTERDARKFLAT (kexp 30) <> [] /\
  exists sel,
    pickDarkFor (fun _ => true) true 30 no_want "flats/_DarkMasters" cats_30
      (Some CFG_rejection) CFG_match (mkPS [] []) = (inr (Some sel), mkPS [] []) /\
    sel_optimize sel = false /\ sel_kind sel = MasterDarkFlat_exact /\
    In (sel_path sel) (paths_of (groupAt cats_30 MASTERDARKFLAT (kexp 30))).
Proof.
  split; [vm_compute; discriminate|].
  apply (proj1 (C2_tier_priority (fun _ => true) true 30 no_want
                  "flats/_DarkMasters" cats_30 (Some CFG_rejection) CFG_match
                  (mkPS [] []))).
  vm_compute; discriminate.
Defined.

(* ------------------------------------------------------------------ *)
(** ** Similarity score and best-candidate choice *)

Ltac destruct_conds :=
  repeat match goal with
  | |- context [match ?x with Some _ => _ | None => _ end] => destruct x
  | |- context [if ?b then _ else _] => destruct b
  end.

Lemma metaScore_eq_score_spec (c : darkEntry) (w : want) (m : matchPolicy) :
  metaScore c w m == score_spec c w m.
Proof.
  destruct m as [eb pg pt mx].
  unfold metaScore, score_spec, bin_bonus, gain_bonus, offset_bonus, temp_bonus,
    truthy_str.
  cbn [enforceBinning preferSameGainOffset preferClosestTemp maxTempDeltaC].
  destruct (d_binning c) as [a|], (w_binning w) as [b|]; cbv beta iota;
    [destruct (String.eqb_spec a b) as [<-|Hab]|..];
    destruct eb, pg, pt; try destruct (String.eqb a "");
    try destruct (String.eqb b ""); cbn [andb negb];
    destruct_conds; ring.
Qed.

Lemma Qltb_true a b : Qltb a b = true -> a < b.
Proof.
  unfold Qltb; intros H. apply negb_true_iff in H.
  apply Qnot_le_lt. intros Hle. apply Qle_bool_iff in Hle. congruence.
Qed.

Lemma Qltb_false a b : Qltb a b = false -> b <= a.
Proof.
  unfold Qltb; intros H. apply negb_false_iff in H. apply Qle_bool_iff, H.
Qed.

Lemma metaScore_lower (c : darkEntry) (w : want) (m : matchPolicy) :
  temp_window_le m 12.5 -> -1 <= metaScore c w m.
Proof.
  intros Hm. rewrite metaScore_eq_score_spec. unfold score_spec.
  assert (0 <= bin_bonus c w m).
  { unfold bin_bonus; destruct_conds; lra. }
  assert (0 <= gain_bonus c w m).
  { unfold gain_bonus; destruct_conds; lra. }
  assert (0 <= offset_bonus c w m).
  { unfold offset_bonus; destruct_conds; lra. }
  assert (-1 <= temp_bonus c w m).
  { unfold temp_bonus, temp_window_le in *.
    destruct (d_temp c), (w_temp w), (maxTempDeltaC m) as [mx|]; try lra.
    destruct (preferClosestTemp m && Qle_bool (Qabs (q - q0)) mx) eqn:E; [|lra].
    apply andb_true_iff in E as [_ E]. apply Qle_bool_iff in E. lra. }
  lra.
Qed.

Section BestFold.
Variables (w : want) (m : matchPolicy) (c0 : darkEntry).

Definition best_inv (p : list darkEntry) (acc : darkEntry * Q) : Prop :=
  (forall c, In c p -> metaScore c w m <= snd acc) /\
  ((snd acc == -1 /\ fst acc = c0) \/
   (snd acc == metaScore (fst acc) w m /\
    exists l1 l2, p = l1 ++ fst acc :: l2 /\
      forall c, In c l1 -> metaScore c w m < snd acc)).

Lemma best_inv_step p acc c :
  best_inv p acc -> best_inv (p ++ [c]) (best_step w m acc c).
Proof.
  destruct acc as [b bs]; unfold best_inv, best_step; cbn.
  intros [Hle Hcase].
  destruct (Qltb bs (metaScore c w m)) eqn:E; cbn.
  - apply Qltb_true in E. split.
    + intros c' Hc'. apply in_app_or in Hc' as [Hc'|[<-|[]]]; [|lra].
      specialize (Hle c' Hc'). lra.
    + right. split; [reflexivity|]. exists p, []. split; [reflexivity|].
      intros c' Hc'. specialize (Hle c' Hc'). lra.
  - apply Qltb_false in E. split.
    + intros c' Hc'. apply in_app_or in Hc' as [Hc'|[<-|[]]]; [|exact E].
      exact (Hle c' Hc').
    + destruct Hcase as [H1|[H1 [l1 [l2 [-> H2]]]]]; [left; exact H1|].
      right. split; [exact H1|]. exists l1, (l2 ++ [c]).
      split; [rewrite <- app_assoc; reflexivity | exact H2].
Qed.

Lemma best_inv_fold : forall r p acc,
  best_inv p acc -> best_inv (p ++ r) (fold_left (best_step w m) r acc).
Proof.
  induction r as [|c r IH]; intros p acc H; cbn.
  - rewrite app_nil_r; exact H.
  - replace (p ++ c :: r) with ((p ++ [c]) ++ r)
      by (rewrite <- app_assoc; reflexivity).
    apply IH, best_inv_step, H.
Qed.

End BestFold.

Lemma pick_best_first_best (w : want) (m : matchPolicy) (l : list darkEntry) :
  temp_window_le m 12.5 -> l <> [] ->
  exists r, pick_best w m l = Some r /\ In r l /\ first_best w m r l.
Proof.
  intros Hm Hne. destruct l as [|c0 rest]; [congruence|].
  unfold pick_best.
  assert (Hinv : best_inv w m c0 (c0 :: rest)
                   (fold_left (best_step w m) (c0 :: rest) (c0, -1))).
  { apply (best_inv_fold w m c0 (c0 :: rest) [] (c0, -1)).
    split; [intros _ []|left; split; reflexivity]. }
  destruct (fold_left (best_step w m) (c0 :: rest) (c0, -1)) as [r bs].
  unfold best_inv in Hinv; cbn [fst snd] in Hinv |- *.
  destruct Hinv as [Hle [[Hbs ->]|[Hbs [l1 [l2 [Hl Hlt]]]]]].
  - exists c0. split; [reflexivity|]. split; [left; reflexivity|]. split.
    + intros c Hc. specialize (Hle c Hc).
      pose proof (metaScore_lower c0 w m Hm). lra.
    + exists [], rest. split; [reflexivity|]. intros _ [].
  - exists r. split; [reflexivity|]. rewrite Hl. split.
    + apply in_or_app; right; left; reflexivity.
    + split.
      * intros c Hc. rewrite <- Hl in Hc. specialize (Hle c Hc). lra.
      * exists l1, l2. split; [reflexivity|].
        intros c Hc. specialize (Hlt c Hc). lra.
Qed.

(** C3 (counterexample): (1) a dark and a wanted profile whose binnings are
    both the empty string (present, equal) get no binning bonus: the JS
    guard [want.binning && c.binning] treats [""] as unknown; (2) with a
    20-degree window, two candidates 15 and 14 degrees off score -1.5 and
    -1.3, and the loop, which starts from [bestS = -1], keeps the first
    although the second scores higher. *)
Lemma C3_counterexample :
  (metaScore md_bin_empty want_bin_empty CFG_match == 0 /\
   ~ metaScore md_bin_empty want_bin_empty CFG_match == 3) /\
  (pick_best want_t0 wide_match [md_t15; md_t14] = Some md_t15 /\
   metaScore md_t15 want_t0 wide_match < metaScore md_t14 want_t0 wide_match).
Proof.
  split; split.
  - vm_compute; reflexivity.
  - vm_compute; discriminate.
  - vm_compute; reflexivity.
  - vm_compute; reflexivity.
Qed.

(** C3 (amended): the score is the sum of the four bonuses of
    [score_spec] (binning counts when both are present, non-empty and
    equal); when the temperature window is at most 12.5 degrees (the run
    uses 5.0), the master dark-flat tier and the master dark tier select
    the first candidate, in catalog order, among those of highest score. *)
Theorem C3_score_and_choice :
  (forall c w m, metaScore c w m == score_spec c w m) /\
  (forall w m l, temp_window_le m 12.5 -> l <> [] ->
     exists r, pick_best w m l = Some r /\ In r l /\ first_best w m r l) /\
  (forall executeGlobal allowNearest exp w cacheDir cats rej m s r,
     pick_best w m (groupAt cats MASTERDARKFLAT (kexp exp)) = Some r ->
     pickDarkFor executeGlobal allowNearest exp w cacheDir cats rej m s =
       (inr (Some (mkSel (d_path r) false MasterDarkFlat_exact)), s)) /\
  (forall executeGlobal allowNearest exp w cacheDir cats rej m s r,
     groupAt cats MASTERDARKFLAT (kexp exp) = [] ->
     groupAt cats DARKFLAT (kexp exp) = [] ->
     pick_best w m (groupAt cats MASTERDARK (kexp exp)) = Some r ->
     pickDarkFor executeGlobal allowNearest exp w cacheDir cats rej m s =
       (inr (Some (mkSel (d_path r) false MasterDark_exact)), s)).
Proof.
  refine (conj metaScore_eq_score_spec (conj pick_best_first_best (conj _ _))).
  - intros eg an exp w cacheDir cats rej m s r H.
    unfold pickDarkFor. rewrite H. reflexivity.
  - intros eg an exp w cacheDir cats rej m s r H1 H2 H3.
    unfold pickDarkFor. rewrite H1, pick_best_empty, H2, H3. reflexivity.
Qed.

Lemma C3_score_and_choice_witness :
  temp_window_le CFG_match 12.5 /\ [md_t15; md_t14] <> [] /\
  exists r, pick_best want_t0 CFG_match [md_t15; md_t14] = Some r /\
    In r [md_t15; md_t14] /\ first_best want_t0 CFG_match r [md_t15; md_t14].
Proof.
  split; [vm_compute; discriminate|]. split; [discriminate|].
  apply (proj1 (proj2 C3_score_and_choice) want_t0 CFG_match [md_t15; md_t14]).
  - vm_compute; discriminate.
  - discriminate.
Defined.

(* ------------------------------------------------------------------ *)
(** ** Nearest-exposure tier *)

Lemma darkType_eqb_refl t : darkType_eqb t t = true.
Proof. destruct t; reflexivity. Qed.

Lemma synth_D_loop_result eg cacheDir cats rej : forall ks s l s',
  synth_D_loop eg cacheDir cats rej ks s = (inr l, s') ->
  l = map (fun kk => (MD_synth_path cacheDir kk, key_value kk)) ks.
Proof.
  induction ks as [|kk ks IH]; intros s l s' H; cbn in H.
  - injection H as <- _; reflexivity.
  - unfold pj_bind, file_exists in H.
    destruct (existsb _ _); cbn in H.
    + destruct (synth_D_loop eg cacheDir cats rej ks s) as [[e|l1] s1] eqn:E;
        [discriminate|].
      injection H as <- _. cbn. f_equal. exact (IH _ _ _ E).
    + destruct (integrateToMaster eg _ _ _ _ s) as [[e|[]] s0];
        [discriminate|].
      destruct (synth_D_loop eg cacheDir cats rej ks s0) as [[e|l1] s1] eqn:E;
        [discriminate|].
      injection H as <- _. cbn. f_equal. exact (IH _ _ _ E).
Qed.

Lemma insert_by_in e x : forall l z, In z (insert_by e x l) <-> z = x \/ In z l.
Proof.
  induction l as [|y l IH]; intros z; cbn [insert_by In].
  - firstorder congruence.
  - destruct (Qltb (dist e x) (dist e y)); cbn [In]; [firstorder congruence|].
    rewrite IH. firstorder congruence.
Qed.

Definition head_min (e : Q) (l : list (string * Q)) : Prop :=
  match l with
  | [] => True
  | h :: _ => forall y, In y l -> dist e h <= dist e y
  end.

Lemma insert_by_head_min e x : forall l, head_min e l -> head_min e (insert_by e x l).
Proof.
  intros [|h r] Hh; cbn [insert_by head_min].
  - intros y [<-|[]]; apply Qle_refl.
  - destruct (Qltb (dist e x) (dist e h)) eqn:E; cbn [head_min In].
    + apply Qltb_true in E.
      intros y [<-|[<-|Hy]]; [apply Qle_refl|apply Qlt_le_weak, E|].
      pose proof (Hh y (or_intror Hy)). apply Qlt_le_weak. exact (Qlt_le_trans _ _ _ E H).
    + apply Qltb_false in E.
      intros y [<-|Hy]; [apply Qle_refl|].
      apply insert_by_in in Hy as [->|Hy]; [exact E|].
      exact (Hh y (or_intror Hy)).
Qed.

Lemma sort_by_dist_in e : forall l acc z,
  In z (sort_by_dist e l acc) <-> In z l \/ In z acc.
Proof.
  induction l as [|x l IH]; intros acc z; cbn [sort_by_dist In]; [tauto|].
  rewrite IH, insert_by_in.
  split; [intros [H|[->|H]]; [left; right|left; left|right]
         |intros [[->|H]|H]; [right; left|left|right; right]]; auto.
Qed.

Lemma sort_by_dist_head_min e : forall l acc,
  head_min e acc -> head_min e (sort_by_dist e l acc).
Proof.
  induction l as [|x l IH]; intros acc H; cbn [sort_by_dist]; [exact H|].
  apply IH, insert_by_head_min, H.
Qed.

Lemma sort_by_dist_first e l x rest :
  sort_by_dist e l [] = x :: rest ->
  In x l /\ forall y, In y l -> dist e x <= dist e y.
Proof.
  intros H.
  assert (Hm := sort_by_dist_head_min e l [] I). rewrite H in Hm.
  split.
  - assert (Hx : In x (sort_by_dist e l [])) by (rewrite H; left; reflexivity).
    apply sort_by_dist_in in Hx as [Hx|[]]; exact Hx.
  - intros y Hy. apply Hm. rewrite <- H. apply sort_by_dist_in. left; exact Hy.
Qed.

Lemma insertZ_in x : forall l z, In z (insertZ x l) <-> z = x \/ In z l.
Proof.
  induction l as [|y l IH]; intros z; cbn [insertZ In].
  - firstorder congruence.
  - destruct (x <=? y)%Z; cbn [In]; [firstorder congruence|].
    rewrite IH. firstorder congruence.
Qed.

Lemma sortZ_in : forall l z, In z (sortZ l) <-> In z l.
Proof.
  induction l as [|x l IH]; intros z; cbn [sortZ fold_right In]; [tauto|].
  unfold sortZ in IH. rewrite insertZ_in, IH. firstorder congruence.
Qed.

Lemma js_key_order_in l z : In z (js_key_order l) <-> In z l.
Proof.
  unfold js_key_order. rewrite in_app_iff, sortZ_in, !filter_In.
  destruct (is_index_key z); cbn; tauto.
Qed.

Lemma keys_insertion_acc cats ty : forall acc k,
  In k acc -> In k (keys_insertion cats ty acc).
Proof.
  induction cats as [|c r IH]; intros acc k H; cbn [keys_insertion]; [exact H|].
  destruct (_ && _); apply IH; [apply in_or_app; left|]; exact H.
Qed.

Lemma keys_insertion_complete cats ty : forall acc c,
  In c cats -> d_type c = ty -> In (kexp (d_exposure c)) (keys_insertion cats ty acc).
Proof.
  induction cats as [|c' r IH]; intros acc c Hc Hty; [destruct Hc|].
  destruct Hc as [->|Hc]; cbn [keys_insertion].
  - rewrite Hty, darkType_eqb_refl, andb_true_l.
    destruct (existsb (Z.eqb (kexp (d_exposure c))) acc) eqn:E; cbn [negb].
    + apply keys_insertion_acc. apply existsb_exists in E as [k [Hk Hq]].
      apply Z.eqb_eq in Hq. rewrite Hq. exact Hk.
    + apply keys_insertion_acc, in_or_app; right; left; reflexivity.
  - destruct (_ && _); apply IH; assumption.
Qed.

Lemma groupKeys_complete cats c :
  In c cats -> In (kexp (d_exposure c)) (groupKeys cats (d_type c)).
Proof.
  intros Hc. unfold groupKeys. apply js_key_order_in.
  apply keys_insertion_complete; auto.
Qed.

Lemma groupAt_complete cats c :
  In c cats -> In c (groupAt cats (d_type c) (kexp (d_exposure c))).
Proof.
  intros Hc. unfold groupAt. apply filter_In. split; [exact Hc|].
  rewrite darkType_eqb_refl, Z.eqb_refl. reflexivity.
Qed.

Lemma nearest_candidates_MD cacheDir cats c :
  In c cats -> d_type c = MASTERDARK ->
  In (d_path c, d_exposure c) (nearest_candidates cacheDir cats).
Proof.
  intros Hc Hty. unfold nearest_candidates. apply in_or_app; left.
  apply in_flat_map. exists (kexp (d_exposure c)). split.
  - rewrite <- Hty. apply groupKeys_complete, Hc.
  - apply (in_map (fun c => (d_path c, d_exposure c))).
    rewrite <- Hty. apply groupAt_complete, Hc.
Qed.

Lemma nearest_candidates_D cacheDir cats c :
  In c cats -> d_type c = DARK ->
  In (MD_synth_path cacheDir (kexp (d_exposure c)), key_value (kexp (d_exposure c)))
     (nearest_candidates cacheDir cats).
Proof.
  intros Hc Hty. unfold nearest_candidates. apply in_or_app; right.
  apply (in_map (fun kk => (MD_synth_path cacheDir kk, key_value kk))).
  rewrite <- Hty. apply groupKeys_complete, Hc.
Qed.

(** C4: a selection is flagged for optimization exactly when it comes from
    the nearest-exposure tier; that tier is reached only with the fallback
    enabled and no dark of any kind at the target's exposure key, and it
    selects a candidate (a master dark of the catalog, or the master
    synthesized for a dark-stack key at that key's exposure) at least as
    close to the target as every other; every master dark and every
    dark-stack key is a candidate. With master darks at 60 s and 300 s only
    and a 120 s target, the 60 s master is selected and flagged. *)
Theorem C4_nearest_fallback :
  (forall executeGlobal allowNearest exp w cacheDir cats rej m s sel s',
     pickDarkFor executeGlobal allowNearest exp w cacheDir cats rej m s =
       (inr (Some sel), s') ->
     (sel_optimize sel = true <-> sel_kind sel = MasterDark_nearest_optimize) /\
     (sel_kind sel = MasterDark_nearest_optimize ->
        allowNearest = true /\
        groupAt cats MASTERDARKFLAT (kexp exp) = [] /\
        groupAt cats DARKFLAT (kexp exp) = [] /\
        groupAt cats MASTERDARK (kexp exp) = [] /\
        groupAt cats DARK (kexp exp) = [] /\
        exists x, In x (nearest_candidates cacheDir cats) /\ sel_path sel = fst x /\
          forall y, In y (nearest_candidates cacheDir cats) -> dist exp x <= dist exp y)) /\
  (forall cacheDir cats c, In c cats -> d_type c = MASTERDARK ->
     In (d_path c, d_exposure c) (nearest_candidates cacheDir cats)) /\
  (forall cacheDir cats c, In c cats -> d_type c = DARK ->
     In (MD_synth_path cacheDir (kexp (d_exposure c)), key_value (kexp (d_exposure c)))
        (nearest_candidates cacheDir cats)) /\
  (forall executeGlobal w cacheDir rej m s,
     pickDarkFor executeGlobal true 120 w cacheDir cats_60_300 rej m s =
       (inr (Some (mkSel (d_path md_60) true MasterDark_nearest_optimize)), s)).
Proof.
  refine (conj _ (conj nearest_candidates_MD (conj nearest_candidates_D _))).
  2:{ intros eg w cacheDir rej m s. vm_compute. reflexivity. }
  intros eg an exp w cacheDir cats rej m s sel s' H.
  unfold pickDarkFor in H.
  destruct (pick_best w m (groupAt cats MASTERDARKFLAT (kexp exp))) eqn:E1.
  { injection H as <- _. cbn. split; [split; discriminate|discriminate]. }
  assert (HMDF : groupAt cats MASTERDARKFLAT (kexp exp) = []).
  { destruct (groupAt cats MASTERDARKFLAT (kexp exp)); [reflexivity|discriminate]. }
  destruct (groupAt cats DARKFLAT (kexp exp)) eqn:E2.
  2:{ unfold pj_bind in H.
      destruct (integrateToMaster _ _ _ _ _ _) as [[e|[]] s1]; [discriminate|].
      injection H as <- _. cbn. split; [split; discriminate|discriminate]. }
  destruct (pick_best w m (groupAt cats MASTERDARK (kexp exp))) eqn:E3.
  { injection H as <- _. cbn. split; [split; discriminate|discriminate]. }
  assert (HMD : groupAt cats MASTERDARK (kexp exp) = []).
  { destruct (groupAt cats MASTERDARK (kexp exp)); [reflexivity|discriminate]. }
  destruct (groupAt cats DARK (kexp exp)) eqn:E4.
  2:{ unfold pj_bind in H.
      destruct (integrateToMaster _ _ _ _ _ _) as [[e|[]] s1]; [discriminate|].
      injection H as <- _. cbn. split; [split; discriminate|discriminate]. }
  destruct an; [|discriminate].
  unfold pj_bind in H.
  destruct (synth_D_loop eg cacheDir cats rej (groupKeys cats DARK) s)
    as [[e|l] s1] eqn:ES; [discriminate|].
  apply synth_D_loop_result in ES. subst l.
  destruct (sort_by_dist exp _ []) as [|x rest] eqn:Esort; [discriminate|].
  injection H as <- _. cbn [sel_optimize sel_kind sel_path].
  split; [split; reflexivity|]. intros _.
  repeat split; try assumption.
  apply sort_by_dist_first in Esort as [Hin Hmin].
  exists x. repeat split; assumption.
Qed.

Lemma C4_nearest_fallback_witness :
  exists sel s',
    pickDarkFor (fun _ => true) true 120 no_want "flats/_DarkMasters" cats_60_300
      (Some CFG_rejection) CFG_match (mkPS [] []) = (inr (Some sel), s') /\
    sel_path sel = d_path md_60 /\
    (sel_optimize sel = true <-> sel_kind sel = MasterDark_nearest_optimize) /\
    (sel_kind sel = MasterDark_nearest_optimize ->
       exists x, In x (nearest_candidates "flats/_DarkMasters"%string cats_60_300) /\
         sel_path sel = fst x /\
         forall y, In y (nearest_candidates "flats/_DarkMasters"%string cats_60_300) ->
           dist 120 x <= dist 120 y).
Proof.
  pose proof (proj2 (proj2 (proj2 C4_nearest_fallback)) (fun _ => true) no_want
                "flats/_DarkMasters"%string (Some CFG_rejection) CFG_match (mkPS [] [])) as Hex.
  eexists; eexists; split; [exact Hex|]. split; [reflexivity|].
  destruct (proj1 C4_nearest_fallback _ _ _ _ _ _ _ _ _ _ _ Hex) as [Hiff Hnear].
  split; [exact Hiff|].
  intros Hk. destruct (Hnear Hk) as [_ [_ [_ [_ [_ Hx]]]]]. exact Hx.
Defined.

Lemma bin_add_keys (k p : string) (B : list (string * list string)) (x : string) :
  In x (map fst (bin_add k p B)) <-> x = k \/ In x (map fst B).
Proof.
  induction B as [|[k' ps] r IH]; cbn [bin_add map fst In].
  - intuition congruence.
  - destruct (String.eqb_spec k k') as [->|Hne]; cbn [map fst In].
    + intuition congruence.
    + rewrite IH. intuition congruence.
Qed.

Lemma bin_add_in (k p : string) (B : list (string * list string)) (k1 : string) (ps : list string) :
  NoDup (map fst B) -> In (k1, ps) (bin_add k p B) ->
  (k1 = k /\ ((ps = [p] /\ ~ In k (map fst B)) \/ exists old, In (k, old) B /\ ps = old ++ [p]))
  \/ (k1 <> k /\ In (k1, ps) B).
Proof.
  induction B as [|[k' ps'] r IH]; cbn [bin_add In map fst]; intros Hnd.
  - intros [H|[]]. inversion H; subst. left. split; [reflexivity|left; split; [reflexivity|intros []]].
  - inversion Hnd as [|x l Hni Hnd' E]; subst.
    destruct (String.eqb_spec k k') as [->|Hne]; cbn [In].
    + intros [H|H].
      * inversion H; subst. left. split; [reflexivity|]. right. exists ps'. split; [left; reflexivity|reflexivity].
      * right. split; [|right; exact H].
        intros ->. apply Hni. apply in_map_iff. exists (k', ps). split; [reflexivity|exact H].
    + intros [H|H].
      * inversion H; subst. right. split; [intros E; apply Hne; symmetry; exact E|left; reflexivity].
      * destruct (IH Hnd' H) as [[E [[E2 Hn]|[old [Hold E2]]]]|[Hne2 H2]].
        -- left. split; [exact E|left; split; [exact E2|]]. intros [E3|E3]; [congruence|contradiction].
        -- left. split; [exact E|]. right. exists old. split; [right; exact Hold|exact E2].
        -- right. split; [exact Hne2|right; exact H2].
Qed.

Lemma filter_bins_idem (B : list (string * list string)) :
  filter_bins (filter_bins B) = filter_bins B.
Proof.
  unfold filter_bins. induction B as [|kp r IH]; cbn [filter].
  - reflexivity.
  - destruct (3 <=? List.length (snd kp))%nat eqn:E; cbn [filter].
    + rewrite E, IH. reflexivity.
    + exact IH.
Qed.

Lemma bin_add_new (k p : string) (A : list (string * list string)) :
  ~ In k (map fst A) -> bin_add k p A = A ++ [(k, [p])].
Proof.
  induction A as [|[k' ps'] r IH]; cbn [bin_add map fst In app]; intros Hni.
  - reflexivity.
  - destruct (String.eqb_spec k k') as [->|Hne].
    + exfalso. apply Hni. left. reflexivity.
    + rewrite IH; [reflexivity|]. intros H. apply Hni. right. exact H.
Qed.

Lemma bin_add_last (k p : string) (A : list (string * list string)) (acc : list string) :
  ~ In k (map fst A) -> bin_add k p (A ++ [(k, acc)]) = A ++ [(k, acc ++ [p])].
Proof.
  induction A as [|[k' ps'] r IH]; cbn [bin_add map fst In app]; intros Hni.
  - rewrite String.eqb_refl. reflexivity.
  - destruct (String.eqb_spec k k') as [->|Hne].
    + exfalso. apply Hni. left. reflexivity.
    + rewrite IH; [reflexivity|]. intros H. apply Hni. right. exact H.
Qed.

Section BinsInv.

Variable meta_of : string -> pyMeta.

(** Well-formed buckets: distinct keys, non-empty file lists, every file
    of a bucket has that bucket's key. *)
Definition bins_ok (B : list (string * list string)) : Prop :=
  NoDup (map fst B) /\
  forall k ps, In (k, ps) B -> ps <> [] /\ forall p, In p ps -> file_key meta_of p = Some k.

Lemma bin_add_ok (B : list (string * list string)) (p k : string) :
  bins_ok B -> file_key meta_of p = Some k -> bins_ok (bin_add k p B).
Proof.
  intros [Hnd Hall] Hk. split.
  - clear Hall. induction B as [|[k' ps'] r IH]; cbn [bin_add map fst].
    + constructor; [intros []|constructor].
    + cbn [map fst] in Hnd. inversion Hnd as [|x l Hni Hnd' E]; subst.
      destruct (String.eqb_spec k k') as [->|Hne]; cbn [map fst].
      * constructor; assumption.
      * constructor; [|exact (IH Hnd')].
        rewrite bin_add_keys. intros [E|E]; [congruence|contradiction].
  - intros k1 ps Hin. destruct (bin_add_in k p B k1 ps Hnd Hin) as [[-> [[-> _]|[old [Hold ->]]]]|[_ H]].
    + split; [discriminate|]. intros q [<-|[]]. exact Hk.
    + destruct (Hall k old Hold) as [Hne Hks]. split.
      * destruct old; [contradiction|discriminate].
      * intros q Hq. apply in_app_or in Hq. destruct Hq as [Hq|[<-|[]]]; [exact (Hks q Hq)|exact Hk].
    + exact (Hall k1 ps H).
Qed.

Lemma make_bins_ok (files : list string) : bins_ok (make_bins meta_of files).
Proof.
  unfold make_bins.
  assert (H0 : bins_ok []) by (split; [constructor|intros k ps []]).
  revert H0. generalize (@nil (string * list string)) as B.
  induction files as [|p r IH]; intros B HB; cbn [fold_left].
  - exact HB.
  - apply IH. unfold bin_step. destruct (file_key meta_of p) as [k|] eqn:Hk.
    + exact (bin_add_ok B p k HB Hk).
    + exact HB.
Qed.

Lemma filter_bins_ok (B : list (string * list string)) : bins_ok B -> bins_ok (filter_bins B).
Proof.
  intros [Hnd Hall]. unfold filter_bins. split.
  - induction B as [|[k ps] r IH]; cbn [filter map fst].
    + constructor.
    + cbn [map fst] in Hnd. inversion Hnd as [|x l Hni Hnd' E]; subst.
      assert (IH' := IH Hnd' (fun k1 ps1 H => Hall k1 ps1 (or_intror H))).
      cbn [snd]. destruct (3 <=? List.length ps)%nat; cbn [map fst]; [|exact IH'].
      constructor; [|exact IH'].
      intros Hin. apply Hni. apply in_map_iff in Hin. destruct Hin as [[k2 ps2] [E Hin]].
      apply filter_In in Hin. apply in_map_iff. exists (k2, ps2). split; [exact E|apply Hin].
  - intros k ps Hin. apply filter_In in Hin. exact (Hall k ps (proj1 Hin)).
Qed.

Lemma fold_bucket (k : string) (ps : list string) (A : list (string * list string)) (acc : list string) :
  (forall p, In p ps -> file_key meta_of p = Some k) -> ~ In k (map fst A) ->
  fold_left (bin_step meta_of) ps (A ++ [(k, acc)]) = A ++ [(k, acc ++ ps)].
Proof.
  revert acc. induction ps as [|p r IH]; intros acc Hks Hni; cbn [fold_left].
  - rewrite app_nil_r. reflexivity.
  - unfold bin_step at 2. rewrite (Hks p (or_introl eq_refl)), bin_add_last by exact Hni.
    rewrite IH; [|intros q Hq; exact (Hks q (or_intror Hq))|exact Hni].
    rewrite <- app_assoc. reflexivity.
Qed.

Lemma make_bins_rebuild (G : list (string * list string)) :
  bins_ok G -> make_bins meta_of (List.concat (map snd G)) = G.
Proof.
  induction G as [|[k ps] G IH] using rev_ind; intros [Hnd Hall].
  - reflexivity.
  - rewrite map_app, List.concat_app. cbn [map snd List.concat]. rewrite app_nil_r.
    unfold make_bins. rewrite fold_left_app. fold (make_bins meta_of (List.concat (map snd G))).
    rewrite map_app in Hnd. cbn [map fst] in Hnd.
    assert (Hni : ~ In k (map fst G)).
    { intros H. apply (NoDup_remove_2 (map fst G) [] k Hnd). rewrite app_nil_r. exact H. }
    rewrite IH.
    2:{ split; [exact (NoDup_app_remove_r _ _ Hnd)|].
        intros k1 ps1 H. apply Hall. apply in_or_app. left. exact H. }
    assert (Hin : In (k, ps) (G ++ [(k, ps)])) by (apply in_or_app; right; left; reflexivity).
    destruct (Hall k ps Hin) as [Hne Hks].
    destruct ps as [|p r]; [contradiction|].
    cbn [fold_left]. unfold bin_step at 2. rewrite (Hks p (or_introl eq_refl)), bin_add_new by exact Hni.
    rewrite fold_bucket; [reflexivity| |exact Hni].
    intros q Hq. exact (Hks q (or_intror Hq)).
Qed.

End BinsInv.

(** C9: grouping is idempotent: regrouping the concatenated files of the
    surviving buckets yields the same buckets, same keys, same order. *)
Theorem C9_grouping_idempotent (meta_of : string -> pyMeta) (files : list string) :
  group_files meta_of (List.concat (map snd (group_files meta_of files))) = group_files meta_of files.
Proof.
  unfold group_files at 1.
  rewrite make_bins_rebuild.
  - unfold group_files. apply filter_bins_idem.
  - apply filter_bins_ok, make_bins_ok.
Qed.
Section Buckets.

Variable meta_of : string -> pyMeta.

Lemma bucket_snoc (l : list string) (p k : string) :
  bucket meta_of (l ++ [p]) k =
  bucket meta_of l k ++ (match file_key meta_of p with
                         | Some k' => if String.eqb k k' then [p] else []
                         | None => []
                         end).
Proof.
  unfold bucket. rewrite filter_app. cbn [filter].
  destruct (file_key meta_of p) as [k'|]; [destruct (String.eqb k k')|]; reflexivity.
Qed.

Lemma make_bins_bucket (files : list string) :
  (forall k ps, In (k, ps) (make_bins meta_of files) -> ps = bucket meta_of files k) /\
  (forall k, bucket meta_of files k <> [] -> In k (map fst (make_bins meta_of files))).
Proof.
  induction files as [|p l IH] using rev_ind.
  - split; [intros k ps []|intros k H; exfalso; apply H; reflexivity].
  - destruct IH as [IH1 IH2].
    assert (Hnd : NoDup (map fst (make_bins meta_of l))) by apply (make_bins_ok meta_of l).
    unfold make_bins. rewrite fold_left_app. fold (make_bins meta_of l). cbn [fold_left].
    unfold bin_step. split.
    + intros k1 ps Hin. rewrite bucket_snoc.
      destruct (file_key meta_of p) as [k0|] eqn:Hk.
      * destruct (bin_add_in k0 p _ k1 ps Hnd Hin) as [[-> [[-> Hn]|[old [Hold ->]]]]|[Hne H]].
        -- rewrite String.eqb_refl.
           assert (Hb : bucket meta_of l k0 = []).
           { destruct (bucket meta_of l k0) eqn:E; [reflexivity|].
             exfalso. apply Hn, IH2. rewrite E. discriminate. }
           rewrite Hb. reflexivity.
        -- rewrite String.eqb_refl, (IH1 k0 old Hold). reflexivity.
        -- destruct (String.eqb_spec k1 k0) as [E|_]; [contradiction|].
           rewrite app_nil_r. exact (IH1 k1 ps H).
      * rewrite app_nil_r. exact (IH1 k1 ps Hin).
    + intros k Hne. rewrite bucket_snoc in Hne.
      destruct (file_key meta_of p) as [k0|] eqn:Hk.
      * rewrite bin_add_keys.
        destruct (String.eqb_spec k k0) as [->|Hne2]; [left; reflexivity|].
        right. apply IH2. cbv iota in Hne. rewrite app_nil_r in Hne. exact Hne.
      * rewrite app_nil_r in Hne. apply IH2. exact Hne.
Qed.

Lemma group_files_bucket (files : list string) :
  (forall k ps, In (k, ps) (group_files meta_of files) ->
                ps = bucket meta_of files k /\ (3 <= List.length ps)%nat) /\
  (forall k, (3 <= List.length (bucket meta_of files k))%nat ->
             In (k, bucket meta_of files k) (group_files meta_of files)).
Proof.
  destruct (make_bins_bucket files) as [H1 H2]. unfold group_files, filter_bins. split.
  - intros k ps Hin. apply filter_In in Hin. destruct Hin as [Hin Hlen].
    split; [exact (H1 k ps Hin)|]. apply Nat.leb_le. exact Hlen.
  - intros k Hlen.
    assert (Hk : In k (map fst (make_bins meta_of files))).
    { apply H2. intros E. rewrite E in Hlen. cbn in Hlen. lia. }
    apply in_map_iff in Hk. destruct Hk as [[k' ps] [E Hin]]. cbn [fst] in E. subst k'.
    rewrite <- (H1 k ps Hin). apply filter_In. split; [exact Hin|].
    cbn [snd]. apply Nat.leb_le. rewrite (H1 k ps Hin). exact Hlen.
Qed.

End Buckets.

Lemma insert_key_in (k x : string) (l : list string) :
  In x (insert_key k l) <-> x = k \/ In x l.
Proof.
  induction l as [|y r IH]; cbn [insert_key In].
  - intuition congruence.
  - destruct (Qltb (float_or0 k) (float_or0 y)); cbn [In].
    + intuition congruence.
    + rewrite IH. intuition congruence.
Qed.

Lemma sort_keys_in (l : list string) (x : string) : In x (sort_keys l) <-> In x l.
Proof.
  unfold sort_keys.
  assert (G : forall acc, In x (fold_left (fun acc x => insert_key x acc) l acc) <-> In x l \/ In x acc).
  { induction l as [|y r IH]; intros acc; cbn [fold_left In].
    - tauto.
    - rewrite IH, insert_key_in. intuition congruence. }
  rewrite G. cbn [In]. tauto.
Qed.

Lemma sort_keys_nonempty (l : list string) : l <> [] -> sort_keys l <> [].
Proof.
  destruct l as [|x r]; [intros H; contradiction H; reflexivity|intros _ E].
  assert (Hin : In x (sort_keys (x :: r))) by (apply sort_keys_in; left; reflexivity).
  rewrite E in Hin. exact Hin.
Qed.

Lemma assoc_get_in {A} (d : A) (k : string) (l : list (string * A)) :
  In k (map fst l) -> In (k, assoc_get d k l) l.
Proof.
  induction l as [|[k' v] r IH]; cbn [map fst In assoc_get].
  - intros [].
  - destruct (String.eqb_spec k k') as [->|Hne]; intros H.
    + left. reflexivity.
    + right. apply IH. destruct H as [E|H]; [congruence|exact H].
Qed.

Lemma scan_dir_some (meta_of : string -> pyMeta) (r : string) (ff : list string) j n :
  scan_dir meta_of r ff = Some (j, n) ->
  j_dirPath j = r /\ j_groups j <> [] /\
  (forall g, In g (j_groups j) -> (3 <= List.length (g_files g))%nat /\
                                  exists k, g_files g = bucket meta_of ff k) /\
  (forall k, (3 <= List.length (bucket meta_of ff k))%nat ->
             exists g, In g (j_groups j) /\ g_files g = bucket meta_of ff k) /\
  (forall gn, In gn (dn_groups n) -> (3 <= List.length (gn_children gn))%nat).
Proof.
  destruct (group_files_bucket meta_of ff) as [G1 G2].
  unfold group_files in G1, G2.
  unfold scan_dir. destruct (filter_bins (make_bins meta_of ff)) as [|kp rest] eqn:Hbf; [discriminate|].
  intros H. injection H as <- <-.
  assert (Hget : forall k, In k (sort_keys (map fst (kp :: rest))) ->
            assoc_get [] k (kp :: rest) = bucket meta_of ff k /\
            (3 <= List.length (assoc_get [] k (kp :: rest)))%nat).
  { intros k Hk. rewrite sort_keys_in in Hk. apply (assoc_get_in []) in Hk. exact (G1 _ _ Hk). }
  refine (conj eq_refl (conj _ (conj _ (conj _ _)))).
  - intros E. apply map_eq_nil in E. revert E. apply sort_keys_nonempty. intros E; discriminate E.
  - intros g Hg. apply in_map_iff in Hg. destruct Hg as [k [<- Hk]]. cbn [g_files].
    destruct (Hget k Hk) as [E L]. split; [exact L|exists k; exact E].
  - intros k Hlen. specialize (G2 k Hlen).
    exists (mkPyGroup (float_or0 k) (assoc_get [] k (kp :: rest))
                      (WantOf (assoc_get no_want k
                        (map (fun kp0 => (fst kp0, want_of_meta (meta_of (hd ""%string (snd kp0)))))
                             (make_bins meta_of ff))))).
    assert (Hk : In k (sort_keys (map fst (kp :: rest)))).
    { apply sort_keys_in. apply in_map_iff. exists (k, bucket meta_of ff k). split; [reflexivity|exact G2]. }
    split.
    + apply in_map_iff. exists k. split; [reflexivity|exact Hk].
    + cbn [g_files]. exact (proj1 (Hget k Hk)).
  - intros gn Hgn. apply in_map_iff in Hgn. destruct Hgn as [k [<- Hk]]. cbn [gn_children].
    rewrite length_map. exact (proj2 (Hget k Hk)).
Qed.

Lemma scan_dir_none (meta_of : string -> pyMeta) (r : string) (ff : list string) :
  (forall k, (List.length (bucket meta_of ff k) < 3)%nat) -> scan_dir meta_of r ff = None.
Proof.
  intros Hlt. destruct (group_files_bucket meta_of ff) as [G1 _].
  unfold group_files in G1. unfold scan_dir.
  destruct (filter_bins (make_bins meta_of ff)) as [|[k ps] rest] eqn:Hbf; [reflexivity|].
  exfalso. destruct (G1 k ps (or_introl eq_refl)) as [-> L]. specialize (Hlt k). lia.
Qed.

Lemma existsb_eqb_in (r : string) (l : list string) :
  existsb (String.eqb r) l = true <-> In r l.
Proof.
  induction l as [|x t IH]; cbn [existsb In].
  - split; [discriminate|intros []].
  - rewrite Bool.orb_true_iff, IH. destruct (String.eqb_spec r x) as [->|Hne].
    + intuition congruence.
    + split; [intros [H|H]; [discriminate|right; exact H]|intros [H|H]; [congruence|right; exact H]].
Qed.

Lemma scan_dir_nil (meta_of : string -> pyMeta) (r : string) : scan_dir meta_of r [] = None.
Proof. reflexivity. Qed.

Lemma scan_loop_sound (listdir : string -> pyExc + list (string * bool)) (meta_of : string -> pyMeta)
    (walk seen : list string) (js : list pyJob) (ns : list dirNode) :
  scan_loop listdir meta_of walk seen = inr (js, ns) ->
  (forall j, In j js -> exists r ff n, In r walk /\ dir_image_files r (listdir r) = inr ff /\
                                       scan_dir meta_of r ff = Some (j, n)) /\
  (forall n, In n ns -> exists r ff j, In r walk /\ dir_image_files r (listdir r) = inr ff /\
                                       scan_dir meta_of r ff = Some (j, n)).
Proof.
  revert seen js ns. induction walk as [|r rest IH]; intros seen js ns; cbn [scan_loop].
  - intros H. injection H as <- <-. split; intros x [].
  - destruct (dir_image_files r (listdir r)) as [e|ff] eqn:Hd; [discriminate|].
    assert (Lift : forall js ns, scan_loop listdir meta_of rest (r :: seen) = inr (js, ns) \/
                                 scan_loop listdir meta_of rest seen = inr (js, ns) ->
        (forall j, In j js -> exists r0 ff0 n, In r0 (r :: rest) /\ dir_image_files r0 (listdir r0) = inr ff0 /\
                                       scan_dir meta_of r0 ff0 = Some (j, n)) /\
        (forall n, In n ns -> exists r0 ff0 j, In r0 (r :: rest) /\ dir_image_files r0 (listdir r0) = inr ff0 /\
                                       scan_dir meta_of r0 ff0 = Some (j, n))).
    { intros js0 ns0 Hl.
      assert (IH' : (forall j, In j js0 -> exists r0 ff0 n, In r0 rest /\ dir_image_files r0 (listdir r0) = inr ff0 /\
                                       scan_dir meta_of r0 ff0 = Some (j, n)) /\
        (forall n, In n ns0 -> exists r0 ff0 j, In r0 rest /\ dir_image_files r0 (listdir r0) = inr ff0 /\
                                       scan_dir meta_of r0 ff0 = Some (j, n))).
      { destruct Hl as [Hl|Hl]; exact (IH _ _ _ Hl). }
      destruct IH' as [A B]. split.
      - intros j Hj. destruct (A j Hj) as [r0 [ff0 [n [H1 H2]]]]. exists r0, ff0, n. split; [right; exact H1|exact H2].
      - intros n Hn. destruct (B n Hn) as [r0 [ff0 [j [H1 H2]]]]. exists r0, ff0, j. split; [right; exact H1|exact H2]. }
    destruct ff as [|f0 fr].
    + intros Hl. exact (Lift js ns (or_intror Hl)).
    + destruct (existsb (String.eqb r) seen).
      * intros Hl. exact (Lift js ns (or_intror Hl)).
      * destruct (scan_dir meta_of r (f0 :: fr)) as [[j n]|] eqn:Hs.
        -- destruct (scan_loop listdir meta_of rest (r :: seen)) as [e|[js' ns']] eqn:Hl; [discriminate|].
           intros H. injection H as <- <-.
           destruct (Lift js' ns' (or_introl eq_refl)) as [A B]. split.
           ++ intros j0 [<-|Hj]; [|exact (A j0 Hj)].
              exists r, (f0 :: fr), n. split; [left; reflexivity|split; [exact Hd|exact Hs]].
           ++ intros n0 [<-|Hn]; [|exact (B n0 Hn)].
              exists r, (f0 :: fr), j. split; [left; reflexivity|split; [exact Hd|exact Hs]].
        -- intros Hl. exact (Lift js ns (or_introl Hl)).
Qed.

Lemma scan_loop_complete (listdir : string -> pyExc + list (string * bool)) (meta_of : string -> pyMeta)
    (walk seen : list string) (js : list pyJob) (ns : list dirNode) :
  scan_loop listdir meta_of walk seen = inr (js, ns) ->
  forall r ff j n, In r walk -> ~ In r seen -> dir_image_files r (listdir r) = inr ff ->
                   scan_dir meta_of r ff = Some (j, n) -> In j js.
Proof.
  revert seen js ns. induction walk as [|r0 rest IH]; intros seen js ns Hl r ff j n Hr Hns Hd Hs.
  - destruct Hr.
  - cbn [scan_loop] in Hl.
    destruct (String.eqb_spec r r0) as [<-|Hne].
    + rewrite Hd in Hl. destruct ff as [|f0 fr]; [rewrite scan_dir_nil in Hs; discriminate|].
      destruct (existsb (String.eqb r) seen) eqn:He.
      { exfalso. apply Hns. apply existsb_eqb_in. exact He. }
      rewrite Hs in Hl.
      destruct (scan_loop listdir meta_of rest (r :: seen)) as [e|[js' ns']]; [discriminate|].
      injection Hl as <- <-. left. reflexivity.
    + destruct Hr as [E|Hr]; [congruence|].
      assert (Hns' : ~ In r (r0 :: seen)) by (intros [E|E]; [congruence|contradiction]).
      destruct (dir_image_files r0 (listdir r0)) as [e|ff0]; [discriminate|].
      destruct ff0 as [|f0 fr].
      * exact (IH _ _ _ Hl r ff j n Hr Hns Hd Hs).
      * destruct (existsb (String.eqb r0) seen).
        -- exact (IH _ _ _ Hl r ff j n Hr Hns Hd Hs).
        -- destruct (scan_dir meta_of r0 (f0 :: fr)) as [[j0 n0]|].
           ++ destruct (scan_loop listdir meta_of rest (r0 :: seen)) as [e|[js' ns']] eqn:Hl'; [discriminate|].
              injection Hl as <- <-. right. exact (IH _ _ _ Hl' r ff j n Hr Hns' Hd Hs).
           ++ exact (IH _ _ _ Hl r ff j n Hr Hns' Hd Hs).
Qed.

Lemma gather_lengths (checked : string -> bool) (tree : list dirNode) :
  (forall n gn, In n tree -> In gn (dn_groups n) -> (3 <= List.length (gn_children gn))%nat) ->
  forall j g, In j (gather_selected_plan checked tree) -> In g (j_groups j) ->
              (3 <= List.length (g_files g))%nat.
Proof.
  intros Htree j g Hj Hg. unfold gather_selected_plan in Hj.
  apply in_map_iff in Hj. destruct Hj as [dn [<- Hdn]]. apply filter_In in Hdn. destruct Hdn as [Hdn _].
  cbn [j_groups] in Hg. apply in_flat_map in Hg. destruct Hg as [gn [Hgn Hg]].
  destruct (py_float (label_prefix (gn_text gn))) as [ex|]; [|destruct Hg].
  destruct Hg as [<-|[]]. cbn [g_files]. rewrite length_map. exact (Htree dn gn Hdn Hgn).
Qed.

(** C6: every group of the plan [scan_flats] builds is a complete
    exposure bucket of its directory with at least 3 files, and every
    directory in the plan has a group; every bucket of at least 3 files
    (exactly 3 included) is a group of its directory's plan entry; a
    directory whose buckets all have fewer than 3 files has no plan
    entry; and the plan gathered from the tree for a run has only groups
    of at least 3 files. *)
Theorem C6_min_group_size (listdir : string -> pyExc + list (string * bool))
    (meta_of : string -> pyMeta) (walk : list string) (jobs : list pyJob) (tree : list dirNode) :
  scan_flats listdir meta_of walk = inr (jobs, tree) ->
  (forall j, In j jobs ->
     exists ff, In (j_dirPath j) walk /\ dir_image_files (j_dirPath j) (listdir (j_dirPath j)) = inr ff /\
       j_groups j <> [] /\
       forall g, In g (j_groups j) ->
         (3 <= List.length (g_files g))%nat /\ exists k, g_files g = bucket meta_of ff k) /\
  (forall r ff k, In r walk -> dir_image_files r (listdir r) = inr ff ->
     (3 <= List.length (bucket meta_of ff k))%nat ->
     exists j g, In j jobs /\ j_dirPath j = r /\ In g (j_groups j) /\ g_files g = bucket meta_of ff k) /\
  (forall r ff, dir_image_files r (listdir r) = inr ff ->
     (forall k, (List.length (bucket meta_of ff k) < 3)%nat) ->
     forall j, In j jobs -> j_dirPath j <> r) /\
  (forall checked j g, In j (runSelected_plan checked tree) -> In g (j_groups j) ->
     (3 <= List.length (g_files g))%nat).
Proof.
  unfold scan_flats. intros Hl.
  destruct (scan_loop_sound listdir meta_of walk [] jobs tree Hl) as [SJ SN].
  refine (conj _ (conj _ (conj _ _))).
  - intros j Hj. destruct (SJ j Hj) as [r [ff [n [Hr [Hd Hs]]]]].
    destruct (scan_dir_some meta_of r ff j n Hs) as [Ep [Hne [Hg _]]].
    exists ff. rewrite Ep. refine (conj Hr (conj Hd (conj Hne _))). exact Hg.
  - intros r ff k Hr Hd Hlen.
    destruct (scan_dir meta_of r ff) as [[j n]|] eqn:Hs.
    + destruct (scan_dir_some meta_of r ff j n Hs) as [Ep [_ [_ [Hk _]]]].
      destruct (Hk k Hlen) as [g [Hg Ef]].
      exists j, g. refine (conj _ (conj Ep (conj Hg Ef))).
      exact (scan_loop_complete listdir meta_of walk [] jobs tree Hl r ff j n Hr (fun H => H) Hd Hs).
    + exfalso. destruct (group_files_bucket meta_of ff) as [_ G2].
      specialize (G2 k Hlen). unfold scan_dir in Hs. unfold group_files in G2.
      destruct (filter_bins (make_bins meta_of ff)); [destruct G2|discriminate].
  - intros r ff Hd Hlt j Hj Ep. destruct (SJ j Hj) as [r0 [ff0 [n [Hr0 [Hd0 Hs0]]]]].
    destruct (scan_dir_some meta_of r0 ff0 j n Hs0) as [Ep0 _].
    rewrite Ep0 in Ep. subst r0. rewrite Hd in Hd0. injection Hd0 as <-.
    rewrite (scan_dir_none meta_of r ff Hlt) in Hs0. discriminate.
  - intros checked. apply gather_lengths.
    intros n gn Hn Hgn. destruct (SN n Hn) as [r [ff [j [_ [_ Hs]]]]].
    destruct (scan_dir_some meta_of r ff j n Hs) as [_ [_ [_ [_ Hc]]]]. exact (Hc gn Hgn).
Qed.

(** C6 witness: on the example tree, the 30 s bucket of [night1] (exactly 3
    files) is a group of the plan, and [night2] (two 10 s flats) is not in it. *)
Lemma C6_min_group_size_witness :
  scan_flats ex_listdir ex_meta ex_walk = inr (fst ex_scan, snd ex_scan) /\
  (exists j g, In j (fst ex_scan) /\ j_dirPath j = "D:\flats\night1"%string /\ In g (j_groups j) /\
               g_files g = bucket ex_meta (ex_files "D:\flats\night1") "30.000") /\
  (forall j, In j (fst ex_scan) -> j_dirPath j <> "D:\flats\night2"%string).
Proof.
  assert (H : scan_flats ex_listdir ex_meta ex_walk = inr (fst ex_scan, snd ex_scan))
    by (vm_compute; reflexivity).
  destruct (C6_min_group_size ex_listdir ex_meta ex_walk (fst ex_scan) (snd ex_scan) H)
    as [_ [A [B _]]].
  refine (conj H (conj _ _)).
  - apply A.
    + right. left. reflexivity.
    + vm_compute. reflexivity.
    + apply Nat.leb_le. vm_compute. reflexivity.
  - apply (B "D:\flats\night2"%string (ex_files "D:\flats\night2")).
    + vm_compute. reflexivity.
    + intros k. unfold bucket. eapply Nat.le_lt_trans; [apply filter_length_le|].
      vm_compute. lia.
Defined.

(** C5: every group of the plan a run receives (the one rebuilt from the
    flats tree by [_gather_selected_plan]) reaches [pickDarkFor] with a
    want whose binning, gain, offset and temperature are all null,
    whatever the metadata of the group's files. *)
Theorem C5_run_want_all_null (checked : string -> bool) (tree : list dirNode) (j : pyJob) (g : pyGroup) :
  In j (runSelected_plan checked tree) -> In g (j_groups j) -> want_in_run (g_want g) = no_want.
Proof.
  unfold runSelected_plan, gather_selected_plan. intros Hj Hg.
  apply in_map_iff in Hj. destruct Hj as [dn [<- _]].
  cbn [j_groups] in Hg. apply in_flat_map in Hg. destruct Hg as [gn [_ Hg]].
  destruct (py_float (label_prefix (gn_text gn))) as [ex|]; [|destruct Hg].
  destruct Hg as [<-|[]]. reflexivity.
Qed.

(** C5 witness: the example's 30 s group, whose first file has binning
    2x2, gain 100, offset 10 and -10 C, is stored in [self.plan] with that
    want, but the run gets the all-null want, and the choice among two
    master darks at 30 s changes from the -10 C one to the 20 C one. *)
Lemma C5_run_want_all_null_witness :
  g_want ex_scan_group = WantOf (mkWant (Some "2x2"%string) (Some 100) (Some 10) (Some (-10))) /\
  want_in_run (g_want ex_run_group) = no_want /\
  option_map d_path (pick_best (want_in_run (g_want ex_scan_group)) CFG_match ex_darks)
    = Some "lib/MasterDark_30s_cold.xisf"%string /\
  option_map d_path (pick_best (want_in_run (g_want ex_run_group)) CFG_match ex_darks)
    = Some "lib/MasterDark_30s_warm.xisf"%string.
Proof.
  refine (conj _ (conj _ (conj _ _))).
  - vm_compute. reflexivity.
  - apply (C5_run_want_all_null (fun _ => true) (snd ex_scan) ex_run_job ex_run_group).
    + vm_compute. left. reflexivity.
    + vm_compute. left. reflexivity.
  - vm_compute. reflexivity.
  - vm_compute. reflexivity.
Defined.

Lemma string_app_inj (a b c : string) : (a ++ b)%string = (a ++ c)%string -> b = c.
Proof.
  induction a as [|ch a IH]; cbn [String.append].
  - exact (fun H => H).
  - intros H. injection H as H. exact (IH H).
Qed.

Lemma path_join_inj (a b c : string) : path_join a b = path_join a c -> b = c.
Proof.
  unfold path_join. destruct (rev (list_ascii_of_string a)) as [|ch t].
  - exact (fun H => H).
  - destruct (is_sep ch); [apply string_app_inj|].
    destruct (Nat.eqb (String.length a) 2 && Ascii.eqb ch ":"%char); [apply string_app_inj|].
    intros H. apply string_app_inj in H. cbn [String.append] in H. injection H as H. exact H.
Qed.

Lemma insert_str_in (x y : string) (l : list string) : In y (insert_str x l) <-> y = x \/ In y l.
Proof.
  induction l as [|z r IH]; cbn [insert_str In].
  - intuition congruence.
  - destruct (String.compare x z); cbn [In]; [rewrite IH|intuition congruence|rewrite IH];
      intuition congruence.
Qed.

Lemma sort_str_in (l : list string) (y : string) : In y (sort_str l) <-> In y l.
Proof.
  unfold sort_str.
  assert (G : forall acc, In y (fold_left (fun acc x => insert_str x acc) l acc) <-> In y l \/ In y acc).
  { induction l as [|x r IH]; intros acc; cbn [fold_left In].
    - tauto.
    - rewrite IH, insert_str_in. intuition congruence. }
  rewrite G. cbn [In]. tauto.
Qed.

(** C10 (counterexample): a master flat saved as FITS matches the
    [MasterFlat_*] naming pattern but is listed as a flat candidate. *)
Lemma C10_counterexample :
  master_name_spec "MasterFlat_30s.fits" = true /\
  dir_image_files "D:\flats" ex_fits_master_listing
    = inr ["D:\flats\MasterFlat_30s.fits"; "D:\flats\flat_001.fits"]%string.
Proof. split; vm_compute; reflexivity. Qed.

(** C10 (amended): whatever [os.listdir] gives, a name that [MASTER_RE]
    matches ([MasterFlat_], characters other than a newline, [.xisf],
    case-insensitive) is never in the list [_dir_image_files] returns. *)
Theorem C10_master_never_listed (dir : string) (listing : pyExc + list (string * bool))
    (files : list string) (fn : string) :
  dir_image_files dir listing = inr files -> MASTER_RE_match fn = true ->
  ~ In (path_join dir fn) files.
Proof.
  unfold dir_image_files. intros Hd Hm Hin.
  destruct listing as [e|names].
  - destruct e; [injection Hd as <-; exact Hin|discriminate ..].
  - injection Hd as <-. apply sort_str_in, in_map_iff in Hin.
    destruct Hin as [[n b] [E Hf]]. cbn [fst] in E. apply path_join_inj in E. subst n.
    apply filter_In in Hf. destruct Hf as [_ Hf]. cbn [fst snd] in Hf.
    rewrite Hm in Hf. rewrite Bool.andb_false_r in Hf. discriminate.
Qed.

(** C10 witness: a lower-case XISF master is left out of the listing. *)
Lemma C10_master_never_listed_witness :
  MASTER_RE_match "masterflat_30S.XISF" = true /\
  ~ In (path_join "D:\flats" "masterflat_30S.XISF")
       (match dir_image_files "D:\flats" ex_xisf_master_listing with inr f => f | inl _ => [] end).
Proof.
  split; [vm_compute; reflexivity|].
  apply (C10_master_never_listed "D:\flats" ex_xisf_master_listing).
  - vm_compute. reflexivity.
  - vm_compute. reflexivity.
Defined.

Lemma py_try_inr {A} (m : pyExc + A) (h : pyExc -> pyExc + A) :
  (forall e, exists v, h e = inr v) -> exists v, py_try m h = inr v.
Proof.
  intros Hh. destruct m as [e|v]; cbn [py_try]; [exact (Hh e)|exists v; reflexivity].
Qed.

Lemma fits_meta_inr (env : metaEnv) (path : string) : exists m, fits_meta env path = inr m.
Proof.
  unfold fits_meta. destruct (has_astropy env); cbn [negb].
  - apply py_try_inr. intros _. eexists; reflexivity.
  - eexists; reflexivity.
Qed.

Lemma xisf_meta_inr (env : metaEnv) (path : string) : exists m, xisf_meta env path = inr m.
Proof.
  unfold xisf_meta. destruct (xisf_header_xml env path) as [xml|]; [|eexists; reflexivity].
  destruct (String.eqb xml ""); [eexists; reflexivity|].
  apply py_try_inr. intros _. eexists; reflexivity.
Qed.

(** C8: [read_meta] never raises, whatever the file system, astropy or the
    XML parser do; when the header cannot be read (or the extension is not
    supported) it returns the exposure inferred from the file name (or null)
    with binning, gain, offset and temperature null; and [_coerce_float],
    which every numeric field goes through, turns a card value [float()]
    raises on into null. *)
Theorem C8_read_meta_total (env : metaEnv) (path : string) :
  (exists m, read_meta env path = inr m) /\
  (parse_failure env path -> read_meta env path = inr (degraded_meta path)) /\
  (forall v, float_raises env v -> coerce_float env (Some v) = None).
Proof.
  refine (conj _ (conj _ _)).
  - unfold read_meta.
    destruct (String.eqb (py_lower (path_suffix path)) ".fits" || String.eqb (py_lower (path_suffix path)) ".fit").
    + apply fits_meta_inr.
    + destruct (String.eqb (py_lower (path_suffix path)) ".xisf").
      * apply xisf_meta_inr.
      * eexists; reflexivity.
  - unfold parse_failure, read_meta. generalize (py_lower (path_suffix path)) as ext. intros ext H.
    destruct H as [[Hext Hf]|[[-> Hx]|[N1 [N2 N3]]]].
    + assert (E : (String.eqb ext ".fits" || String.eqb ext ".fit")%bool = true)
        by (destruct Hext as [->| ->]; reflexivity).
      rewrite E. unfold fits_meta. destruct Hf as [-> | [e He]]; [reflexivity|].
      destruct (has_astropy env); [|reflexivity].
      cbn [negb]. unfold py_try, fits_body. rewrite He. reflexivity.
    + cbn. unfold xisf_meta. destruct Hx as [-> | [-> | [xml [e [Hx He]]]]]; [reflexivity|reflexivity|].
      rewrite Hx. destruct (String.eqb xml ""); [reflexivity|].
      unfold py_try, xisf_body. rewrite He. reflexivity.
    + apply String.eqb_neq in N1, N2, N3. rewrite N1, N2, N3. reflexivity.
  - intros v Hv. destruct v as [s|q|b|]; cbn [float_raises] in Hv; [|contradiction|contradiction|reflexivity].
    destruct Hv as [e He]. cbn [coerce_float]. rewrite He. reflexivity.
Qed.

(** C7 (counterexample): a FITS file without exposure card named
    [flat_EXPOSURE=30_45s.fits] gets 45 (the trailing [45s] pattern comes
    first in the source), where the spec's order gives 30. *)
Lemma C7_counterexample :
  header_exposure ex_env "D:\flats\flat_EXPOSURE=30_45s.fits" = None /\
  m_exposure (meta_or_degraded "D:\flats\flat_EXPOSURE=30_45s.fits"
                (read_meta ex_env "D:\flats\flat_EXPOSURE=30_45s.fits")) = Some 45 /\
  infer_loop EXPOSURE_NAME_RES_spec_order (list_ascii_of_string "flat_EXPOSURE=30_45s.fits") = Some 30.
Proof. refine (conj _ (conj _ _)); vm_compute; reflexivity. Qed.

(** C7 (amended): whenever [read_meta] returns a record, its exposure is
    the header's exposure when the first exposure alias present holds a
    number; otherwise the first of the file-name patterns, in the order
    trailing [<number>s], then [EXPOSURE] token, then [S<number>s], that
    matches the base name; otherwise null. *)
Theorem C7_exposure_priority (env : metaEnv) (path : string) (m : pyMeta) :
  read_meta env path = inr m ->
  m_exposure m = match header_exposure env path with
                 | Some e => Some e
                 | None => infer_loop [rx_trailing_s; rx_exposure_token; rx_s_number_s]
                                      (list_ascii_of_string (basename path))
                 end.
Proof.
  unfold read_meta, header_exposure.
  destruct (String.eqb (py_lower (path_suffix path)) ".fits" || String.eqb (py_lower (path_suffix path)) ".fit").
  - unfold fits_meta. destruct (has_astropy env); cbn [negb].
    + unfold py_try, fits_body. destruct (fits_header env path) as [e|hdr];
        [intros H; injection H as <-; reflexivity|].
      destruct (coerce_float env (fits_get FITS_KEYS_EXPTIME hdr)); intros H; injection H as <-; reflexivity.
    + intros H. injection H as <-. reflexivity.
  - destruct (String.eqb (py_lower (path_suffix path)) ".xisf").
    + unfold xisf_meta. destruct (xisf_header_xml env path) as [xml|];
        [|intros H; injection H as <-; reflexivity].
      destruct (String.eqb xml ""); [intros H; injection H as <-; reflexivity|].
      unfold py_try, xisf_body. destruct (et_fromstring env xml) as [e|elems];
        [intros H; injection H as <-; reflexivity|].
      destruct (coerce_float env (option_map HStr (xisf_pick (xisf_vals elems) (xisf_props elems)
                  FITS_KEYS_EXPTIME ["EXPOSURE"; "EXPTIME"]%string)));
        intros H; injection H as <-; reflexivity.
    + intros H. injection H as <-. reflexivity.
Qed.

(** C7 witness: the spec's example, a FITS file with [EXPTIME = 30] named
    [flat_45s.fits], reports 30. *)
Lemma C7_exposure_priority_witness :
  m_exposure (meta_or_degraded "D:\flats\flat_45s.fits" (read_meta ex_env "D:\flats\flat_45s.fits")) = Some 30.
Proof.
  rewrite (C7_exposure_priority ex_env "D:\flats\flat_45s.fits"
             (meta_or_degraded "D:\flats\flat_45s.fits" (read_meta ex_env "D:\flats\flat_45s.fits"))).
  - vm_compute. reflexivity.
  - vm_compute. reflexivity.
Defined.

Lemma py_float_unfold s : py_float s = py_float_body s.
Proof. reflexivity. Qed.

Lemma digit_char_val (d : Z) : (0 <= d < 10)%Z -> digit_val (digit_char d) = Some d /\ is_digit (digit_char d) = true.
Proof.
  intros H. assert (E : d = 0%Z \/ d = 1%Z \/ d = 2%Z \/ d = 3%Z \/ d = 4%Z \/ d = 5%Z \/ d = 6%Z \/ d = 7%Z \/ d = 8%Z \/ d = 9%Z) by lia.
  repeat (destruct E as [-> | E]; [split; reflexivity|]). subst. split; reflexivity.
Qed.

Lemma digits_val_app (A B : list ascii) : forall a c,
  digits_val (A ++ B) a c = match digits_val A a c with Some (a', c') => digits_val B a' c' | None => None end.
Proof.
  induction A as [|x r IH]; intros a c; cbn [app digits_val].
  - reflexivity.
  - destruct (digit_val x); [apply IH|reflexivity].
Qed.

Lemma digits_aux_spec (f : nat) : forall n acc, (0 <= n < 10 ^ Z.of_nat (S f))%Z ->
  exists D, list_ascii_of_string (digits_of_nat_aux (S f) n acc) = D ++ list_ascii_of_string acc /\
    D <> [] /\ Forall (fun c => is_digit c = true) D /\
    (n < 10 ^ Z.of_nat (List.length D) /\ 10 ^ Z.of_nat (List.length D) <= 10 * Z.max n 1)%Z /\
    forall a c, digits_val D a c = Some ((a * 10 ^ Z.of_nat (List.length D) + n)%Z, (c + List.length D)%nat).
Proof.
  induction f as [|f IH]; intros n acc Hn.
  - cbn [digits_of_nat_aux]. assert (Hlt : (n <? 10)%Z = true) by (apply Z.ltb_lt; cbn in Hn; lia).
    rewrite Hlt. destruct (digit_char_val n) as [V D]; [cbn in Hn; lia|].
    exists [digit_char n]. split; [reflexivity|]. split; [discriminate|]. split; [constructor; [exact D|constructor]|].
    split; [change (Z.of_nat (List.length [digit_char n])) with 1%Z; rewrite Z.pow_1_r; cbn in Hn; pose proof (Z.le_max_r n 1); lia|].
    intros a c. cbn [digits_val]. rewrite V. cbn [List.length]. cbn [Z.of_nat Z.pow Z.pow_pos Pos.iter]. f_equal; f_equal; lia.
  - change (digits_of_nat_aux (S (S f)) n acc) with
      (if (n <? 10)%Z then String (digit_char n) acc
       else digits_of_nat_aux (S f) (n / 10)%Z (String (digit_char (n mod 10)%Z) acc)).
    destruct (Z.ltb_spec n 10) as [Hlt|Hge].
    + destruct (digit_char_val n) as [V D]; [lia|].
      exists [digit_char n]. split; [reflexivity|]. split; [discriminate|]. split; [constructor; [exact D|constructor]|].
      split; [change (Z.of_nat (List.length [digit_char n])) with 1%Z; rewrite Z.pow_1_r; pose proof (Z.le_max_r n 1); lia|].
      intros a c. cbn [digits_val]. rewrite V. cbn [List.length]. cbn [Z.of_nat Z.pow Z.pow_pos Pos.iter]. f_equal; f_equal; lia.
    + destruct (IH (n / 10)%Z (String (digit_char (n mod 10)%Z) acc)) as [D [E [Hne [Hd [[Hb1 Hb2] Hv]]]]].
      { split; [apply Z.div_pos; lia|]. apply Z.div_lt_upper_bound; [lia|].
        rewrite Nat2Z.inj_succ, Z.pow_succ_r in Hn by lia. lia. }
      destruct (digit_char_val (n mod 10)%Z) as [V Dg]; [apply Z.mod_pos_bound; lia|].
      exists (D ++ [digit_char (n mod 10)%Z]). split.
      * rewrite E. cbn [list_ascii_of_string]. rewrite <- app_assoc. reflexivity.
      * split; [destruct D; [contradiction|discriminate]|]. split; [|split].
        -- apply Forall_app. split; [exact Hd|constructor; [exact Dg|constructor]].
        -- rewrite length_app. cbn [List.length]. rewrite Nat2Z.inj_add, Z.pow_add_r by lia.
           cbn [Z.of_nat Pos.of_succ_nat]. rewrite Z.pow_1_r.
           pose proof (Z.div_mod n 10). pose proof (Z.mod_pos_bound n 10).
           assert (1 <= n / 10)%Z by (apply Z.div_le_lower_bound; lia).
           pose proof (Z.max_spec n 1). pose proof (Z.max_spec (n / 10) 1). split; nia.
        -- intros a c. rewrite digits_val_app, Hv. cbn [digits_val]. rewrite V.
           rewrite length_app. cbn [List.length]. f_equal. f_equal; [|lia].
           rewrite Nat2Z.inj_add, Z.pow_add_r by lia. cbn [Z.of_nat Pos.of_succ_nat].
           pose proof (Z.div_mod n 10). lia.
Qed.

Lemma digits_of_Z_spec (n : Z) : (0 <= n)%Z ->
  exists D, list_ascii_of_string (digits_of_Z n) = D /\
    D <> [] /\ Forall (fun c => is_digit c = true) D /\
    (n < 10 ^ Z.of_nat (List.length D) /\ 10 ^ Z.of_nat (List.length D) <= 10 * Z.max n 1)%Z /\
    forall a c, digits_val D a c = Some ((a * 10 ^ Z.of_nat (List.length D) + n)%Z, (c + List.length D)%nat).
Proof.
  intros Hn. unfold digits_of_Z.
  destruct (digits_aux_spec (Z.to_nat (Z.log2 (Z.max n 1))) n "") as [D [E H]].
  - split; [exact Hn|].
    pose proof (Z.log2_spec (Z.max n 1)) as [_ Hs]; [lia|].
    pose proof (Z.log2_nonneg (Z.max n 1)).
    rewrite Nat2Z.inj_succ, Z2Nat.id by lia.
    eapply Z.lt_le_trans; [|apply (Z.pow_le_mono_l 2 10); lia].
    unfold Z.succ in Hs. lia.
  - exists D. rewrite E, app_nil_r. split; [reflexivity|exact H].
Qed.

Lemma pow10_lt (L k : nat) : (10 ^ Z.of_nat L < 10 ^ Z.of_nat k)%Z -> (L < k)%nat.
Proof. intros H. apply Z.pow_lt_mono_r_iff in H; lia. Qed.

Lemma list_ascii_app (a b : string) :
  list_ascii_of_string (a ++ b) = list_ascii_of_string a ++ list_ascii_of_string b.
Proof. induction a as [|c a IH]; cbn; [reflexivity|rewrite IH; reflexivity]. Qed.

Lemma pad3_spec (n : Z) : (0 <= n < 1000)%Z ->
  exists D, list_ascii_of_string (pad3 n) = D /\ List.length D = 3%nat /\
    Forall (fun c => is_digit c = true) D /\
    forall a c, digits_val D a c = Some ((a * 1000 + n)%Z, (c + 3)%nat).
Proof.
  intros Hn. destruct (digits_of_Z_spec n (proj1 Hn)) as [D [E [Hne [Hd [[Hb1 Hb2] Hv]]]]].
  unfold pad3. destruct (Z.ltb_spec n 10) as [H10|H10]; [|destruct (Z.ltb_spec n 100) as [H100|H100]].
  - assert (L : List.length D = 1%nat).
    { assert (List.length D < 2)%nat by (apply pow10_lt; cbn; lia). destruct D; [contradiction|cbn in *; lia]. }
    exists ("0"%char :: "0"%char :: D). rewrite list_ascii_app, E. split; [reflexivity|].
    split; [cbn; lia|]. split; [repeat constructor; exact Hd|].
    intros a c. change (digits_val ("0"%char :: "0"%char :: D) a c) with (digits_val D ((a * 10 + 0) * 10 + 0)%Z (S (S c))).
    rewrite Hv, L. cbn. f_equal. f_equal; lia.
  - assert (L : List.length D = 2%nat).
    { assert (List.length D < 3)%nat by (apply pow10_lt; cbn; lia).
      assert (1 < List.length D)%nat by (apply pow10_lt; cbn; lia). lia. }
    exists ("0"%char :: D). rewrite list_ascii_app, E. split; [reflexivity|].
    split; [cbn; lia|]. split; [repeat constructor; exact Hd|].
    intros a c. change (digits_val ("0"%char :: D) a c) with (digits_val D (a * 10 + 0)%Z (S c)).
    rewrite Hv, L. cbn. f_equal. f_equal; lia.
  - assert (L : List.length D = 3%nat).
    { assert (List.length D < 4)%nat by (apply pow10_lt; cbn; lia).
      assert (2 < List.length D)%nat by (apply pow10_lt; cbn; lia). lia. }
    exists D. rewrite E. split; [reflexivity|]. split; [exact L|]. split; [exact Hd|].
    intros a c. rewrite Hv, L. reflexivity.
Qed.

Lemma digit_not (d c : ascii) : is_digit d = true -> is_digit c = false -> Ascii.eqb d c = false.
Proof. intros H1 H2. destruct (Ascii.eqb_spec d c) as [->|]; [congruence|reflexivity]. Qed.

Lemma split_dot_digits (D E pre : list ascii) : Forall (fun c => is_digit c = true) D ->
  split_dot (D ++ "."%char :: E) pre = (rev pre ++ D, Some E).
Proof.
  revert pre. induction D as [|d D IH]; intros pre Hd; cbn [app split_dot].
  - rewrite app_nil_r. reflexivity.
  - inversion Hd as [|x l Hx Hl]; subst.
    rewrite (digit_not d "." Hx eq_refl). rewrite IH by exact Hl. cbn [rev]. rewrite <- app_assoc. reflexivity.
Qed.

Lemma py_round3_sign (x : Q) :
  (Qltb x 0 = true -> (py_round3 x <= 0)%Z) /\ (Qltb x 0 = false -> (0 <= py_round3 x)%Z).
Proof.
  unfold py_round3.
  assert (Hfl := Qfloor_le (x * 1000)).
  split; intros H.
  - apply Qltb_true in H.
    assert (Hf : (Qfloor (x * 1000) < 0)%Z).
    { assert (inject_Z (Qfloor (x * 1000)) < 0) as L by (eapply Qle_lt_trans; [exact Hfl|]; lra).
      change 0 with (inject_Z 0) in L. rewrite <- Zlt_Qlt in L. exact L. }
    destruct (Qltb _ (1#2)); [lia|]. destruct (Qltb (1#2) _); [lia|]. destruct (Z.even _); lia.
  - apply Qltb_false in H.
    assert (Hf : (0 <= Qfloor (x * 1000))%Z).
    { change 0%Z with (Qfloor 0). apply Qfloor_resp_le. lra. }
    destruct (Qltb _ (1#2)); [lia|]. destruct (Qltb (1#2) _); [lia|]. destruct (Z.even _); lia.
Qed.

Lemma bucket_key_chars (x : Q) : exists D1 P,
  list_ascii_of_string (bucket_key x) = (if Qltb x 0 then ["-"%char] else []) ++ D1 ++ "."%char :: P /\
  D1 <> [] /\ Forall (fun c => is_digit c = true) D1 /\ Forall (fun c => is_digit c = true) P /\
  List.length P = 3%nat /\
  digits_val D1 0 0 = Some ((Z.abs (py_round3 x) / 1000)%Z, List.length D1) /\
  digits_val P 0 0 = Some ((Z.abs (py_round3 x) mod 1000)%Z, 3%nat).
Proof.
  set (r := Z.abs (py_round3 x)).
  destruct (digits_of_Z_spec (r / 1000)%Z) as [D1 [E1 [Hne [Hd1 [_ Hv1]]]]].
  { apply Z.div_pos; lia. }
  destruct (pad3_spec (r mod 1000)%Z) as [P [E2 [L2 [Hd2 Hv2]]]].
  { apply Z.mod_pos_bound. lia. }
  exists D1, P. unfold bucket_key. fold r.
  rewrite !list_ascii_app, E1, E2. split.
  - destruct (Qltb x 0); reflexivity.
  - refine (conj Hne (conj Hd1 (conj Hd2 (conj L2 (conj _ _))))).
    + rewrite Hv1. reflexivity.
    + rewrite Hv2. reflexivity.
Qed.

Lemma bucket_key_float_eq (x : Q) :
  exists q, py_float (bucket_key x) = Some q /\ q == Qmake (py_round3 x) 1000.
Proof.
  destruct (bucket_key_chars x) as [D1 [P [E [Hne [Hd1 [Hd2 [L2 [V1 V2]]]]]]]].
  destruct (py_round3_sign x) as [Sn Sp].
  pose proof (Z.div_mod (Z.abs (py_round3 x)) 1000).
  rewrite py_float_unfold. unfold py_float_body. rewrite E.
  destruct (Qltb x 0) eqn:Hs.
  - cbn [app]. change (Ascii.eqb "-" "-") with true. cbv beta iota zeta.
    rewrite split_dot_digits by exact Hd1. cbn [rev app]. rewrite V1, V2.
    destruct (Nat.eqb_spec (List.length D1 + 3) 0) as [|_]; [lia|].
    eexists. split; [reflexivity|].
    specialize (Sn eq_refl). rewrite Z.abs_neq in * by lia.
    unfold Qeq, Qplus, Qopp; cbn. lia.
  - destruct D1 as [|d D1']; [contradiction|].
    inversion Hd1 as [|y l Hy Hl]; subst.
    cbn [app]. rewrite (digit_not d "-" Hy eq_refl). cbv beta iota zeta.
    rewrite app_comm_cons, split_dot_digits by exact Hd1. cbn [rev app]. rewrite V1, V2.
    destruct (Nat.eqb_spec (List.length (d :: D1') + 3) 0) as [|_]; [lia|].
    eexists. split; [reflexivity|].
    specialize (Sp eq_refl). rewrite Z.abs_eq in * by lia.
    unfold Qeq, Qplus; cbn. lia.
Qed.

Lemma insert_key_sorted (k : string) (l : list string) :
  Sorted (fun a b => float_or0 a <= float_or0 b) l ->
  Sorted (fun a b => float_or0 a <= float_or0 b) (insert_key k l).
Proof.
  induction l as [|y r IH]; intros Hs; cbn [insert_key].
  - repeat constructor.
  - destruct (Qltb (float_or0 k) (float_or0 y)) eqn:E.
    + apply Qltb_true in E. constructor; [exact Hs|constructor; lra].
    + apply Qltb_false in E. inversion Hs as [|y' r' Hr Hhd]; subst.
      constructor; [exact (IH Hr)|].
      destruct r as [|z r]; cbn [insert_key].
      * constructor. exact E.
      * destruct (Qltb (float_or0 k) (float_or0 z)); constructor; [exact E|].
        inversion Hhd; assumption.
Qed.

Lemma sort_keys_sorted (l : list string) :
  Sorted (fun a b => float_or0 a <= float_or0 b) (sort_keys l).
Proof.
  unfold sort_keys.
  assert (G : forall acc, Sorted (fun a b => float_or0 a <= float_or0 b) acc ->
     Sorted (fun a b => float_or0 a <= float_or0 b) (fold_left (fun acc x => insert_key x acc) l acc)).
  { induction l as [|y r IH]; intros acc H; cbn [fold_left]; [exact H|].
    apply IH, insert_key_sorted, H. }
  apply G. constructor.
Qed.

Lemma sorted_map_float (l : list string) :
  Sorted (fun a b => float_or0 a <= float_or0 b) l -> Sorted Qle (map float_or0 l).
Proof.
  induction 1 as [|a l Hs IH Hhd]; cbn [map]; constructor; [exact IH|].
  destruct Hhd; cbn [map]; constructor; assumption.
Qed.

Lemma scan_dir_shape (meta_of : string -> pyMeta) (r : string) (ff : list string) j n :
  scan_dir meta_of r ff = Some (j, n) ->
  filter_bins (make_bins meta_of ff) <> [] /\
  j = mkPyJob r (map (fun k => mkPyGroup (float_or0 k) (assoc_get [] k (filter_bins (make_bins meta_of ff)))
            (WantOf (assoc_get no_want k (map (fun kp => (fst kp, want_of_meta (meta_of (hd ""%string (snd kp)))))
                                           (make_bins meta_of ff))))) (sort_keys (map fst (filter_bins (make_bins meta_of ff))))) /\
  n = mkDirNode r (map (fun k => mkGroupNode (group_label k (List.length (assoc_get [] k (filter_bins (make_bins meta_of ff)))))
                                              (map basename (assoc_get [] k (filter_bins (make_bins meta_of ff)))))
                       (sort_keys (map fst (filter_bins (make_bins meta_of ff))))).
Proof.
  unfold scan_dir. intros H.
  destruct (filter_bins (make_bins meta_of ff)) as [|kp rest] eqn:Hbf; [discriminate|].
  injection H as <- <-. split; [discriminate|split; reflexivity].
Qed.

Lemma scan_key_bucket (meta_of : string -> pyMeta) (ff : list string) (k : string) :
  In k (map fst (filter_bins (make_bins meta_of ff))) ->
  forall p, In p (assoc_get [] k (filter_bins (make_bins meta_of ff))) ->
  exists ex, m_exposure (meta_of p) = Some ex /\ k = bucket_key ex.
Proof.
  intros Hk p Hp.
  destruct (filter_bins_ok meta_of _ (make_bins_ok meta_of ff)) as [_ Hall].
  destruct (Hall k _ (assoc_get_in [] k _ Hk)) as [_ Hks].
  specialize (Hks p Hp). unfold file_key in Hks.
  destruct (m_exposure (meta_of p)) as [ex|]; [|discriminate].
  injection Hks as <-. exists ex. split; reflexivity.
Qed.

Lemma float_or0_bucket_key (ex : Q) : float_or0 (bucket_key ex) == Qmake (py_round3 ex) 1000.
Proof.
  destruct (bucket_key_float_eq ex) as [q [E Hq]]. unfold float_or0. rewrite E. exact Hq.
Qed.

(** X2: after a successful [scan_flats], every file of every exposure group
    has an exposure in its [read_meta] record (from the header, or inferred
    from the file name when the header has none), and the group's exposure
    is that exposure rounded to three decimals ([round(ex, 3)]). *)
Theorem scan_group_exposure (listdir : string -> pyExc + list (string * bool))
    (meta_of : string -> pyMeta) (walk : list string) (jobs : list pyJob) (tree : list dirNode) :
  scan_flats listdir meta_of walk = inr (jobs, tree) ->
  forall j g f, In j jobs -> In g (j_groups j) -> In f (g_files g) ->
  exists ex, m_exposure (meta_of f) = Some ex /\ g_exposure g == Qmake (py_round3 ex) 1000.
Proof.
  intros Hs j g f Hj Hg Hf.
  destruct (scan_loop_sound listdir meta_of walk [] jobs tree Hs) as [SJ _].
  destruct (SJ j Hj) as [r [ff [n [_ [_ Hd]]]]].
  destruct (scan_dir_shape meta_of r ff j n Hd) as [_ [-> _]].
  cbn [j_groups] in Hg. apply in_map_iff in Hg. destruct Hg as [k [<- Hk]].
  cbn [g_files g_exposure] in *. rewrite sort_keys_in in Hk.
  destruct (scan_key_bucket meta_of ff k Hk f Hf) as [ex [Hex ->]].
  exists ex. split; [exact Hex|]. apply float_or0_bucket_key.
Qed.

(** X3: after a successful [scan_flats], the exposure groups of every job
    are listed in ascending order of exposure. *)
Theorem scan_groups_ascending (listdir : string -> pyExc + list (string * bool))
    (meta_of : string -> pyMeta) (walk : list string) (jobs : list pyJob) (tree : list dirNode) :
  scan_flats listdir meta_of walk = inr (jobs, tree) ->
  forall j, In j jobs -> Sorted Qle (map g_exposure (j_groups j)).
Proof.
  intros Hs j Hj.
  destruct (scan_loop_sound listdir meta_of walk [] jobs tree Hs) as [SJ _].
  destruct (SJ j Hj) as [r [ff [n [_ [_ Hd]]]]].
  destruct (scan_dir_shape meta_of r ff j n Hd) as [_ [-> _]].
  cbn [j_groups]. rewrite map_map. cbn [g_exposure].
  apply sorted_map_float, sort_keys_sorted.
Qed.

Lemma basename_unfold (p : string) : basename p = string_of_list_ascii (basename_go (list_ascii_of_string p) []).
Proof. reflexivity. Qed.

Lemma label_prefix_unfold (s : string) : label_prefix s = string_of_list_ascii (label_go (list_ascii_of_string s) []).
Proof. reflexivity. Qed.

Lemma basename_go_nosep (name cur : list ascii) :
  forallb (fun c => negb (is_sep c)) name = true -> basename_go name cur = rev cur ++ name.
Proof.
  revert cur. induction name as [|c r IH]; intros cur H; cbn [basename_go].
  - rewrite app_nil_r. reflexivity.
  - cbn [forallb] in H. apply andb_true_iff in H. destruct H as [Hc Hr].
    apply negb_true_iff in Hc. rewrite Hc, IH by exact Hr. cbn [rev]. rewrite <- app_assoc. reflexivity.
Qed.

Lemma basename_go_after_sep (pre name : list ascii) (s : ascii) : forall cur,
  is_sep s = true -> forallb (fun c => negb (is_sep c)) name = true ->
  basename_go (pre ++ s :: name) cur = name.
Proof.
  induction pre as [|c r IH]; intros cur Hs Hn; cbn [app basename_go].
  - rewrite Hs, basename_go_nosep by exact Hn. reflexivity.
  - destruct (is_sep c); apply IH; assumption.
Qed.

Lemma path_join_basename (r name : string) :
  (forall c, r <> String c (String ":" EmptyString)) -> no_sep name = true ->
  basename (path_join r name) = name.
Proof.
  intros Hdr Hn. unfold no_sep in Hn. unfold path_join.
  destruct (rev (list_ascii_of_string r)) as [|c rest] eqn:Er.
  - rewrite basename_unfold, basename_go_nosep by exact Hn. apply string_of_list_ascii_of_string.
  - assert (Hr : list_ascii_of_string r = rev rest ++ [c]).
    { rewrite <- (rev_involutive (list_ascii_of_string r)), Er. reflexivity. }
    destruct (is_sep c) eqn:Hc.
    + rewrite basename_unfold, list_ascii_app, Hr, <- app_assoc. cbn [app].
      rewrite basename_go_after_sep by assumption. apply string_of_list_ascii_of_string.
    + destruct (Nat.eqb (String.length r) 2 && Ascii.eqb c ":"%char) eqn:Hd.
      * exfalso. apply andb_true_iff in Hd. destruct Hd as [Hl Hc2].
        apply Nat.eqb_eq in Hl. apply Ascii.eqb_eq in Hc2. subst c.
        destruct r as [|a [|b [|x t]]]; cbn in Hl; try discriminate.
        cbn in Er. injection Er as Eb _. subst b. exact (Hdr a eq_refl).
      * rewrite basename_unfold, !list_ascii_app. cbn [list_ascii_of_string app].
        rewrite basename_go_after_sep by (try reflexivity; exact Hn). apply string_of_list_ascii_of_string.
Qed.

Lemma label_go_app (l rest acc : list ascii) :
  Forall (fun c => Ascii.eqb c "s"%char = false) l -> label_go (l ++ "s"%char :: rest) acc = rev acc ++ l.
Proof.
  revert acc. induction l as [|c r IH]; intros acc H; cbn [app label_go].
  - rewrite app_nil_r. reflexivity.
  - inversion H as [|x y Hc Hr]; subst. rewrite Hc, IH by exact Hr. cbn [rev]. rewrite <- app_assoc. reflexivity.
Qed.

Lemma digit_not_s (c : ascii) : is_digit c = true -> Ascii.eqb c "s"%char = false.
Proof. intros H. apply digit_not; [exact H|reflexivity]. Qed.

Lemma bucket_key_no_s (x : Q) : Forall (fun c => Ascii.eqb c "s"%char = false) (list_ascii_of_string (bucket_key x)).
Proof.
  destruct (bucket_key_chars x) as [D1 [P [E [_ [Hd1 [Hd2 _]]]]]]. rewrite E.
  assert (Hs : forall D, Forall (fun c => is_digit c = true) D -> Forall (fun c => Ascii.eqb c "s"%char = false) D).
  { intros D HD. eapply Forall_impl; [|exact HD]. exact digit_not_s. }
  apply Forall_app. split; [destruct (Qltb x 0); repeat constructor|].
  apply Forall_app. split; [exact (Hs D1 Hd1)|]. constructor; [reflexivity|exact (Hs P Hd2)].
Qed.

Lemma label_prefix_group_label (x : Q) (n : nat) : label_prefix (group_label (bucket_key x) n) = bucket_key x.
Proof.
  rewrite label_prefix_unfold. unfold group_label. rewrite !list_ascii_app. cbn [list_ascii_of_string app].
  rewrite label_go_app by apply bucket_key_no_s. cbn [rev app]. apply string_of_list_ascii_of_string.
Qed.

Lemma dir_files_shape (r : string) (listing : pyExc + list (string * bool)) (ff : list string) :
  dir_image_files r listing = inr ff ->
  (forall names fb, listing = inr names -> In fb names -> no_sep (fst fb) = true) ->
  forall f, In f ff -> exists name, f = path_join r name /\ no_sep name = true.
Proof.
  intros Hd Hn f Hf. destruct listing as [e|names].
  - destruct e; cbn in Hd; try discriminate. injection Hd as <-. destruct Hf.
  - cbn in Hd. injection Hd as <-. rewrite sort_str_in in Hf.
    apply in_map_iff in Hf. destruct Hf as [fb [<- Hfb]]. apply filter_In in Hfb.
    exists (fst fb). split; [reflexivity|exact (Hn names fb eq_refl (proj1 Hfb))].
Qed.

Lemma key_is_bucket (meta_of : string -> pyMeta) (ff : list string) (k : string) :
  In k (map fst (filter_bins (make_bins meta_of ff))) -> exists ex, k = bucket_key ex.
Proof.
  intros Hk. destruct (filter_bins_ok meta_of _ (make_bins_ok meta_of ff)) as [_ Hall].
  destruct (Hall k _ (assoc_get_in [] k _ Hk)) as [Hne Hks].
  destruct (assoc_get [] k (filter_bins (make_bins meta_of ff))) as [|p ps]; [contradiction|].
  specialize (Hks p (or_introl eq_refl)). unfold file_key in Hks.
  destruct (m_exposure (meta_of p)) as [ex|]; [|discriminate].
  injection Hks as <-. exists ex. reflexivity.
Qed.

Lemma bucket_files_in (meta_of : string -> pyMeta) (ff : list string) (k p : string) :
  In k (map fst (filter_bins (make_bins meta_of ff))) ->
  In p (assoc_get [] k (filter_bins (make_bins meta_of ff))) -> In p ff.
Proof.
  intros Hk Hp. destruct (group_files_bucket meta_of ff) as [G1 _].
  destruct (G1 k _ (assoc_get_in [] k _ Hk)) as [E _].
  rewrite E in Hp. unfold bucket in Hp. apply filter_In in Hp. exact (proj1 Hp).
Qed.

Lemma gather_scan_dir (meta_of : string -> pyMeta) (r : string) (ff : list string) j n :
  scan_dir meta_of r ff = Some (j, n) ->
  (forall f, In f ff -> path_join r (basename f) = f) ->
  gather_selected_plan (fun _ => true) [n] = [without_wants j].
Proof.
  intros Hs Hf. destruct (scan_dir_shape meta_of r ff j n Hs) as [_ [-> ->]].
  unfold gather_selected_plan, without_wants. cbn [filter map dn_text dn_groups j_dirPath j_groups].
  do 3 f_equal. rewrite map_map. cbn [g_exposure g_files].
  assert (G : forall ks, (forall k, In k ks -> In k (map fst (filter_bins (make_bins meta_of ff)))) ->
    flat_map (fun gn => match py_float (label_prefix (gn_text gn)) with
                        | Some ex => [mkPyGroup ex (map (path_join r) (gn_children gn)) WantEmpty]
                        | None => []
                        end)
      (map (fun k => mkGroupNode (group_label k (List.length (assoc_get [] k (filter_bins (make_bins meta_of ff)))))
                                 (map basename (assoc_get [] k (filter_bins (make_bins meta_of ff))))) ks) =
    map (fun k => mkPyGroup (float_or0 k) (assoc_get [] k (filter_bins (make_bins meta_of ff))) WantEmpty) ks).
  { induction ks as [|k ks IH]; intros Hks; [reflexivity|].
    cbn [map flat_map gn_text gn_children].
    rewrite IH by (intros k' Hk'; exact (Hks k' (or_intror Hk'))).
    assert (Hk := Hks k (or_introl eq_refl)).
    assert (Hfiles : map (path_join r) (map basename (assoc_get [] k (filter_bins (make_bins meta_of ff))))
                     = assoc_get [] k (filter_bins (make_bins meta_of ff))).
    { rewrite map_map, <- map_id. apply map_ext_in. intros p Hp. apply Hf. exact (bucket_files_in meta_of ff k p Hk Hp). }
    rewrite Hfiles.
    destruct (key_is_bucket meta_of ff k Hk) as [ex E]. rewrite E at 1 3. rewrite label_prefix_group_label.
    destruct (bucket_key_float_eq ex) as [q [Eq _]]. unfold float_or0. rewrite Eq. reflexivity. }
  apply G. intros k Hk. apply sort_keys_in. exact Hk.
Qed.

Lemma gather_cons (n : dirNode) (ns : list dirNode) :
  gather_selected_plan (fun _ => true) (n :: ns) =
  gather_selected_plan (fun _ => true) [n] ++ gather_selected_plan (fun _ => true) ns.
Proof. reflexivity. Qed.

(** X4: when no walked directory is a bare drive ("X:") and directory
    entries carry no separator, gathering the flats tree built by a
    successful [scan_flats] with every directory checked gives back the
    scanned jobs, each group with an empty [want]. *)
Theorem scan_then_gather (listdir : string -> pyExc + list (string * bool))
    (meta_of : string -> pyMeta) (walk : list string) (jobs : list pyJob) (tree : list dirNode) :
  (forall r, In r walk -> forall c, r <> String c (String ":" EmptyString)) ->
  (forall r names fb, In r walk -> listdir r = inr names -> In fb names -> no_sep (fst fb) = true) ->
  scan_flats listdir meta_of walk = inr (jobs, tree) ->
  gather_selected_plan (fun _ => true) tree = map without_wants jobs.
Proof.
  unfold scan_flats. generalize (@nil string) as seen.
  revert jobs tree. induction walk as [|r rest IH]; intros jobs tree seen Hdr Hls Hl; cbn [scan_loop] in Hl.
  - injection Hl as <- <-. reflexivity.
  - assert (Hdr' : forall r0, In r0 rest -> forall c, r0 <> String c (String ":" EmptyString))
      by (intros r0 H; exact (Hdr r0 (or_intror H))).
    assert (Hls' : forall r0 names fb, In r0 rest -> listdir r0 = inr names -> In fb names -> no_sep (fst fb) = true)
      by (intros r0 names fb H; exact (Hls r0 names fb (or_intror H))).
    destruct (dir_image_files r (listdir r)) as [e|ff] eqn:Hd; [discriminate|].
    destruct ff as [|f0 fr]; [exact (IH _ _ _ Hdr' Hls' Hl)|].
    destruct (existsb (String.eqb r) seen); [exact (IH _ _ _ Hdr' Hls' Hl)|].
    destruct (scan_dir meta_of r (f0 :: fr)) as [[j n]|] eqn:Hs; [|exact (IH _ _ _ Hdr' Hls' Hl)].
    destruct (scan_loop listdir meta_of rest (r :: seen)) as [e|[js ns]] eqn:Hl'; [discriminate|].
    injection Hl as <- <-. rewrite gather_cons, (IH _ _ _ Hdr' Hls' Hl').
    rewrite (gather_scan_dir meta_of r (f0 :: fr) j n Hs); [reflexivity|].
    intros f Hf.
    destruct (dir_files_shape r (listdir r) (f0 :: fr) Hd
                (fun names fb E Hfb => Hls r names fb (or_introl eq_refl) E Hfb) f Hf) as [name [-> Hn]].
    rewrite path_join_basename; [reflexivity| |exact Hn].
    exact (Hdr r (or_introl eq_refl)).
Qed.

Lemma scan_then_gather_witness :
  scan_flats ex_listdir ex_meta ex_walk = inr (fst ex_scan, snd ex_scan) /\
  gather_selected_plan (fun _ => true) (snd ex_scan) = map without_wants (fst ex_scan).
Proof.
  assert (H : scan_flats ex_listdir ex_meta ex_walk = inr (fst ex_scan, snd ex_scan))
    by (vm_compute; reflexivity).
  split; [exact H|].
  apply (scan_then_gather ex_listdir ex_meta ex_walk (fst ex_scan) (snd ex_scan)); [| |exact H].
  - intros r Hr c. repeat destruct Hr as [<-|Hr]; try destruct Hr; discriminate.
  - intros r names fb Hr E Hfb. repeat destruct Hr as [<-|Hr]; try destruct Hr;
      vm_compute in E; injection E as <-; repeat destruct Hfb as [<-|Hfb]; try destruct Hfb; reflexivity.
Defined.

Lemma split_dot_nodot (D pre : list ascii) : Forall (fun c => is_digit c = true) D ->
  split_dot D pre = (rev pre ++ D, None).
Proof.
  revert pre. induction D as [|d D IH]; intros pre Hd; cbn [split_dot].
  - rewrite app_nil_r. reflexivity.
  - inversion Hd as [|x l Hx Hl]; subst.
    rewrite (digit_not d "." Hx eq_refl), IH by exact Hl. cbn [rev]. rewrite <- app_assoc. reflexivity.
Qed.

Lemma py_float_shape (s : string) (neg : bool) (D1 : list ascii) (F : option (list ascii)) (v1 vp : Z) (np : nat) :
  list_ascii_of_string s = (if neg then ["-"%char] else []) ++ D1 ++
                           match F with None => [] | Some P => "."%char :: P end ->
  D1 <> [] -> Forall (fun c => is_digit c = true) D1 -> digits_val D1 0 0 = Some (v1, List.length D1) ->
  match F with None => vp = 0%Z /\ np = 0%nat | Some P => digits_val P 0 0 = Some (vp, np) end ->
  py_float s = Some (if neg then - (inject_Z v1 + Qmake vp (Z.to_pos (10 ^ Z.of_nat np)))
                     else inject_Z v1 + Qmake vp (Z.to_pos (10 ^ Z.of_nat np))).
Proof.
  intros E Hne Hd V1 VF. rewrite py_float_unfold. unfold py_float_body. rewrite E.
  assert (Hsplit : split_dot (D1 ++ match F with None => [] | Some P => "."%char :: P end) [] = (D1, F)).
  { destruct F as [P|]; [apply split_dot_digits; exact Hd|rewrite app_nil_r; apply split_dot_nodot; exact Hd]. }
  assert (Hlen : (List.length D1 + np =? 0)%nat = false) by (destruct D1; [contradiction|reflexivity]).
  destruct neg.
  - cbn [app]. change (Ascii.eqb "-" "-") with true. cbv beta iota zeta.
    rewrite Hsplit, V1. destruct F as [P|]; [rewrite VF, Hlen; reflexivity|].
    destruct VF as [-> ->]. rewrite Hlen. reflexivity.
  - destruct D1 as [|d D1']; [contradiction|].
    inversion Hd as [|y l Hy Hl]; subst.
    cbn [app]. rewrite (digit_not d "-" Hy eq_refl). cbv beta iota zeta.
    rewrite app_comm_cons, Hsplit, V1. destruct F as [P|]; [rewrite VF, Hlen; reflexivity|].
    destruct VF as [-> ->]. rewrite Hlen. reflexivity.
Qed.

Lemma digits_val_two (d1 d2 : Z) : (0 <= d1 < 10)%Z -> (0 <= d2 < 10)%Z ->
  digits_val [digit_char d1; digit_char d2] 0 0 = Some ((d1 * 10 + d2)%Z, 2%nat).
Proof.
  intros H1 H2. cbn [digits_val]. rewrite (proj1 (digit_char_val d1 H1)), (proj1 (digit_char_val d2 H2)).
  f_equal; f_equal; lia.
Qed.

Lemma digits_val_three (d1 d2 d3 : Z) : (0 <= d1 < 10)%Z -> (0 <= d2 < 10)%Z -> (0 <= d3 < 10)%Z ->
  digits_val [digit_char d1; digit_char d2; digit_char d3] 0 0 = Some (((d1 * 10 + d2) * 10 + d3)%Z, 3%nat).
Proof.
  intros H1 H2 H3. cbn [digits_val].
  rewrite (proj1 (digit_char_val d1 H1)), (proj1 (digit_char_val d2 H2)), (proj1 (digit_char_val d3 H3)).
  f_equal; f_equal; lia.
Qed.

Lemma kexp_string_float (k : Z) : exists q, py_float (kexp_string k) = Some q /\ q == Qmake k 1000.
Proof.
  pose proof (Z.div_mod (Z.abs k) 1000 ltac:(lia)) as Hdm.
  pose proof (Z.mod_pos_bound (Z.abs k) 1000 ltac:(lia)) as Hfr.
  destruct (digits_of_Z_spec (Z.abs k / 1000) ltac:(apply Z.div_pos; lia)) as [D1 [E1 [Hne [Hd1 [_ V1]]]]].
  specialize (V1 0%Z 0%nat). rewrite Z.mul_0_l, Z.add_0_l, Nat.add_0_l in V1.
  assert (Hsign : list_ascii_of_string (if (k <? 0)%Z then "-"%string else ""%string)
                  = if (k <? 0)%Z then ["-"%char] else []) by (destruct (k <? 0)%Z; reflexivity).
  assert (Hsg : (k <? 0)%Z = true -> Z.abs k = (- k)%Z) by (intros H; apply Z.ltb_lt in H; lia).
  assert (Hsg' : (k <? 0)%Z = false -> Z.abs k = k) by (intros H; apply Z.ltb_ge in H; lia).
  set (fr := (Z.abs k mod 1000)%Z) in *. set (ip := (Z.abs k / 1000)%Z) in *.
  pose proof (Z.div_mod fr 100 ltac:(lia)). pose proof (Z.mod_pos_bound fr 100 ltac:(lia)).
  pose proof (Z.div_mod fr 10 ltac:(lia)). pose proof (Z.mod_pos_bound fr 10 ltac:(lia)).
  pose proof (Z.div_mod (fr / 10) 10 ltac:(lia)). pose proof (Z.mod_pos_bound (fr / 10) 10 ltac:(lia)).
  assert (Hdd : (fr / 10 / 10 = fr / 100)%Z) by (rewrite Z.div_div by lia; reflexivity).
  assert (Hb100 : (0 <= fr / 100 < 10)%Z) by (split; [apply Z.div_pos; lia|apply Z.div_lt_upper_bound; lia]).
  destruct (Z.eqb_spec fr 0) as [Z0|Z0]; [|destruct (Z.eqb_spec (fr mod 100) 0) as [Z1|Z1];
    [|destruct (Z.eqb_spec (fr mod 10) 0) as [Z2|Z2]]].
  - assert (Hl : list_ascii_of_string (kexp_string k) = (if (k <? 0)%Z then ["-"%char] else []) ++ D1 ++ []).
    { unfold kexp_string. cbv zeta. fold fr ip. rewrite (proj2 (Z.eqb_eq fr 0) Z0).
      rewrite !list_ascii_app, Hsign, E1. reflexivity. }
    eexists. split; [apply (py_float_shape _ (k <? 0)%Z D1 None ip 0 0 Hl Hne Hd1 V1); split; reflexivity|].
    destruct (k <? 0)%Z eqn:Hk; [specialize (Hsg eq_refl)|specialize (Hsg' eq_refl)];
      unfold Qeq, Qplus, Qopp; cbn; lia.
  - assert (Hl : list_ascii_of_string (kexp_string k) = (if (k <? 0)%Z then ["-"%char] else []) ++ D1 ++
                   "."%char :: [digit_char (fr / 100)]).
    { unfold kexp_string. cbv zeta. fold fr ip.
      rewrite (proj2 (Z.eqb_neq fr 0) Z0), (proj2 (Z.eqb_eq (fr mod 100) 0) Z1).
      rewrite !list_ascii_app, Hsign, E1. reflexivity. }
    eexists. split; [apply (py_float_shape _ (k <? 0)%Z D1 (Some [digit_char (fr / 100)]) ip (fr / 100) 1 Hl Hne Hd1 V1)|].
    + cbn [digits_val]. rewrite (proj1 (digit_char_val _ Hb100)). reflexivity.
    + destruct (k <? 0)%Z eqn:Hk; [specialize (Hsg eq_refl)|specialize (Hsg' eq_refl)];
        unfold Qeq, Qplus, Qopp; cbn; lia.
  - assert (Hl : list_ascii_of_string (kexp_string k) = (if (k <? 0)%Z then ["-"%char] else []) ++ D1 ++
                   "."%char :: [digit_char (fr / 100); digit_char ((fr / 10) mod 10)]).
    { unfold kexp_string. cbv zeta. fold fr ip.
      rewrite (proj2 (Z.eqb_neq fr 0) Z0), (proj2 (Z.eqb_neq (fr mod 100) 0) Z1), (proj2 (Z.eqb_eq (fr mod 10) 0) Z2).
      rewrite !list_ascii_app, Hsign, E1. reflexivity. }
    eexists. split; [apply (py_float_shape _ (k <? 0)%Z D1 (Some [digit_char (fr / 100); digit_char ((fr / 10) mod 10)])
                              ip (fr / 100 * 10 + (fr / 10) mod 10) 2 Hl Hne Hd1 V1)|].
    + apply digits_val_two; [exact Hb100|lia].
    + destruct (k <? 0)%Z eqn:Hk; [specialize (Hsg eq_refl)|specialize (Hsg' eq_refl)];
        unfold Qeq, Qplus, Qopp; cbn; lia.
  - assert (Hl : list_ascii_of_string (kexp_string k) = (if (k <? 0)%Z then ["-"%char] else []) ++ D1 ++
                   "."%char :: [digit_char (fr / 100); digit_char ((fr / 10) mod 10); digit_char (fr mod 10)]).
    { unfold kexp_string. cbv zeta. fold fr ip.
      rewrite (proj2 (Z.eqb_neq fr 0) Z0), (proj2 (Z.eqb_neq (fr mod 100) 0) Z1), (proj2 (Z.eqb_neq (fr mod 10) 0) Z2).
      rewrite !list_ascii_app, Hsign, E1. reflexivity. }
    eexists. split; [apply (py_float_shape _ (k <? 0)%Z D1
                              (Some [digit_char (fr / 100); digit_char ((fr / 10) mod 10); digit_char (fr mod 10)])
                              ip ((fr / 100 * 10 + (fr / 10) mod 10) * 10 + fr mod 10) 3 Hl Hne Hd1 V1)|].
    + apply digits_val_three; [exact Hb100|lia|lia].
    + destruct (k <? 0)%Z eqn:Hk; [specialize (Hsg eq_refl)|specialize (Hsg' eq_refl)];
        unfold Qeq, Qplus, Qopp; cbn; lia.
Qed.

(** X5: two exposures get the same [kexp] key string exactly when they round
    to the same millisecond key: [groupByExp] never merges distinct keys. *)
Theorem kexp_keys_distinct (x y : Q) :
  kexp_string (kexp x) = kexp_string (kexp y) <-> kexp x = kexp y.
Proof.
  split; [|intros ->; reflexivity].
  intros E.
  destruct (kexp_string_float (kexp x)) as [qx [Ex Hx]].
  destruct (kexp_string_float (kexp y)) as [qy [Ey Hy]].
  rewrite E, Ey in Ex. injection Ex as <-.
  assert (H : Qmake (kexp x) 1000 == Qmake (kexp y) 1000) by exact (Qeq_trans _ _ _ (Qeq_sym _ _ Hx) Hy).
  revert H. generalize (kexp x) (kexp y). intros a b H. unfold Qeq in H. cbn in H. lia.
Qed.

Lemma last_sep_from_nosep (l : list ascii) : forall i acc,
  forallb (fun c => negb (is_sep c)) l = true -> last_sep_from l i acc = acc.
Proof.
  induction l as [|c r IH]; intros i acc H; cbn [last_sep_from]; [reflexivity|].
  cbn [forallb] in H. apply andb_true_iff in H. destruct H as [Hc Hr].
  apply negb_true_iff in Hc. rewrite Hc. apply IH, Hr.
Qed.

Lemma last_sep_from_app (a b : list ascii) : forall i acc,
  last_sep_from (a ++ b) i acc = last_sep_from b (i + List.length a) (last_sep_from a i acc).
Proof.
  induction a as [|c r IH]; intros i acc; cbn [app last_sep_from List.length].
  - rewrite Nat.add_0_r. reflexivity.
  - rewrite IH. f_equal. lia.
Qed.

Lemma substring_app_len (a b : string) : substring 0 (String.length a) (a ++ b) = a.
Proof.
  induction a as [|c a IH]; cbn.
  - destruct b; reflexivity.
  - f_equal. exact IH.
Qed.

Lemma list_ascii_length (s : string) : List.length (list_ascii_of_string s) = String.length s.
Proof. induction s as [|c s IH]; cbn; [reflexivity|rewrite IH; reflexivity]. Qed.

Lemma joinPath_sep (a b : string) : a <> ""%string -> ends_with_sep a = false ->
  exists s, is_sep s = true /\ joinPath a b = (a ++ String s b)%string.
Proof.
  intros Hne He. unfold joinPath, ends_with_sep, last_char in *.
  destruct (String.eqb_spec a "") as [E|_]; [contradiction|].
  assert (Hl : last (list_ascii_of_string a) " "%char = match rev (list_ascii_of_string a) with c :: _ => c | [] => " "%char end).
  { destruct (list_ascii_of_string a) as [|x l] using rev_ind; [reflexivity|].
    rewrite rev_app_distr, last_last. reflexivity. }
  rewrite Hl.
  destruct (rev (list_ascii_of_string a)) as [|c r] eqn:Er.
  - exfalso. destruct a as [|c a']; [apply Hne; reflexivity|]. cbn in Er.
    apply app_eq_nil in Er. destruct Er as [_ E]. discriminate E.
  - assert (Hc : (Ascii.eqb c "/"%char || Ascii.eqb c "\"%char) = false)
      by (unfold is_sep in He; rewrite orb_comm; exact He). rewrite Hc.
    destruct (existsb (Ascii.eqb "\"%char) (list_ascii_of_string a)).
    + exists "\"%char. split; reflexivity.
    + exists "/"%char. split; reflexivity.
Qed.

Lemma parentDir_joinPath (a b : string) :
  ends_with_sep a = false -> no_sep b = true -> parentDir (joinPath a b) = a.
Proof.
  intros He Hb. unfold no_sep in Hb.
  destruct (String.eqb_spec a "") as [->|Hne].
  - unfold joinPath. cbn [String.eqb]. unfold parentDir.
    destruct (String.eqb_spec b "") as [->|_]; [reflexivity|].
    rewrite last_sep_from_nosep by exact Hb. reflexivity.
  - destruct (joinPath_sep a b Hne He) as [s [Hs ->]].
    unfold parentDir.
    destruct (String.eqb_spec (a ++ String s b) "") as [E|_]; [destruct a; [contradiction|discriminate]|].
    rewrite list_ascii_app, last_sep_from_app. cbn [list_ascii_of_string last_sep_from]. rewrite Hs.
    rewrite last_sep_from_nosep by exact Hb. rewrite Nat.add_0_l, list_ascii_length.
    destruct (Nat.ltb_spec 0 (String.length a)) as [_|Hl].
    + apply substring_app_len.
    + destruct a; [contradiction|cbn in Hl; lia].
Qed.

Lemma base_after_nosep (l : list ascii) : forall acc,
  forallb (fun c => negb (is_sep c)) l = true -> exists acc', base_after l acc = acc' /\ (acc = None -> acc' = None) /\
     (forall r, acc = Some r -> acc' = Some r).
Proof.
  induction l as [|c r IH]; intros acc H; cbn [base_after].
  - exists acc. split; [reflexivity|split; intros; assumption].
  - cbn [forallb] in H. apply andb_true_iff in H. destruct H as [Hc Hr]. apply negb_true_iff in Hc. rewrite Hc.
    destruct (is_line_term c).
    + exists acc. split; [reflexivity|split; intros; assumption].
    + exact (IH acc Hr).
Qed.

Lemma base_after_nosep_eq (l : list ascii) (acc : option (list ascii)) :
  forallb (fun c => negb (is_sep c)) l = true -> base_after l acc = acc.
Proof.
  intros H. destruct (base_after_nosep l acc H) as [acc' [E [H1 H2]]]. rewrite E.
  destruct acc as [r|]; [exact (H2 r eq_refl)|exact (H1 eq_refl)].
Qed.

Lemma base_after_app (a b : list ascii) (acc : option (list ascii)) :
  forallb (fun c => negb (is_line_term c)) a = true ->
  exists acc', base_after (a ++ b) acc = base_after b acc'.
Proof.
  revert acc. induction a as [|c r IH]; intros acc H; cbn [app base_after]; [exists acc; reflexivity|].
  cbn [forallb] in H. apply andb_true_iff in H. destruct H as [Hc Hr]. apply negb_true_iff in Hc. rewrite Hc.
  destruct (is_sep c); apply IH, Hr.
Qed.

Lemma sep_not_line (c : ascii) : is_sep c = true -> is_line_term c = false.
Proof.
  unfold is_sep, is_line_term. intros H.
  apply orb_true_iff in H. destruct H as [H|H]; apply Ascii.eqb_eq in H; subst; reflexivity.
Qed.

Lemma baseName_joinPath (a b : string) :
  forallb (fun c => negb (is_line_term c)) (list_ascii_of_string a) = true ->
  no_sep b = true -> baseName (joinPath a b) = b.
Proof.
  intros Ha Hb. unfold no_sep in Hb. unfold baseName.
  destruct (String.eqb_spec a "") as [->|Hne].
  - unfold joinPath. cbn [String.eqb]. rewrite base_after_nosep_eq by exact Hb. reflexivity.
  - assert (J : exists s, is_sep s = true /\ (joinPath a b = (a ++ String s b)%string \/ ends_with_sep a = true /\ joinPath a b = (a ++ b)%string)).
    { destruct (ends_with_sep a) eqn:He.
      - exists "/"%char. split; [reflexivity|right; split; [reflexivity|]].
        unfold joinPath, ends_with_sep, last_char in *.
        destruct (String.eqb_spec a "") as [E|_]; [contradiction|].
        assert (Hl : last (list_ascii_of_string a) " "%char = match rev (list_ascii_of_string a) with c :: _ => c | [] => " "%char end).
        { destruct (list_ascii_of_string a) as [|x l] using rev_ind; [reflexivity|].
          rewrite rev_app_distr, last_last. reflexivity. }
        rewrite Hl. destruct (rev (list_ascii_of_string a)) as [|c r]; [discriminate|].
        assert (Hc : (Ascii.eqb c "/"%char || Ascii.eqb c "\"%char) = true)
          by (unfold is_sep in He; rewrite orb_comm; exact He). rewrite Hc. reflexivity.
      - destruct (joinPath_sep a b Hne He) as [s [Hs E]]. exists s. split; [exact Hs|left; exact E]. }
    destruct J as [s [Hs [E|[He E]]]]; rewrite E.
    + rewrite list_ascii_app. destruct (base_after_app _ (list_ascii_of_string (String s b)) None Ha) as [acc' ->].
      cbn [list_ascii_of_string base_after]. rewrite (sep_not_line _ Hs), Hs.
      rewrite base_after_nosep_eq by exact Hb. apply string_of_list_ascii_of_string.
    + unfold ends_with_sep, last_char in He.
      destruct (rev (list_ascii_of_string a)) as [|c r] eqn:Er; [discriminate|].
      assert (Hr : list_ascii_of_string a = rev r ++ [c]) by (rewrite <- (rev_involutive (list_ascii_of_string a)), Er; reflexivity).
      rewrite list_ascii_app, Hr, <- app_assoc. rewrite Hr in Ha. rewrite forallb_app in Ha.
      apply andb_true_iff in Ha. destruct Ha as [Ha1 Ha2].
      destruct (base_after_app _ ([c] ++ list_ascii_of_string b) None Ha1) as [acc' ->]. cbn [app base_after].
      cbn [forallb] in Ha2. rewrite andb_true_r in Ha2. apply negb_true_iff in Ha2. rewrite Ha2, He.
      rewrite base_after_nosep_eq by exact Hb. apply string_of_list_ascii_of_string.
Qed.

Lemma upper_ascii_sep (c : ascii) : is_sep (upper_ascii c) = is_sep c.
Proof. destruct c as [[] [] [] [] [] [] [] []]; reflexivity. Qed.

Lemma upper_ascii_name_char (c : ascii) : name_char (upper_ascii c) = name_char c.
Proof. destruct c as [[] [] [] [] [] [] [] []]; reflexivity. Qed.

Lemma upper_ascii_idem (c : ascii) : Ascii.eqb (upper_ascii (upper_ascii c)) (upper_ascii c) = true.
Proof. destruct c as [[] [] [] [] [] [] [] []]; reflexivity. Qed.

Lemma alnum_name_char_b (c : ascii) : implb (is_alnum c) (name_char c) = true.
Proof. destruct c as [[] [] [] [] [] [] [] []]; reflexivity. Qed.

Lemma alnum_name_char (c : ascii) : is_alnum c = true -> name_char c = true.
Proof. intros H. pose proof (alnum_name_char_b c) as E. rewrite H in E. exact E. Qed.

Lemma digit_name_char_b (c : ascii) : implb (is_digit c) (name_char c) = true.
Proof. destruct c as [[] [] [] [] [] [] [] []]; reflexivity. Qed.

Lemma digit_name_char (c : ascii) : is_digit c = true -> name_char c = true.
Proof. intros H. pose proof (digit_name_char_b c) as E. rewrite H in E. exact E. Qed.

Lemma name_char_nosep (c : ascii) : name_char c = true -> negb (is_sep c) = true.
Proof. unfold name_char. intros H. apply andb_true_iff in H. apply H. Qed.

Lemma forallb_name_no_sep (l : list ascii) :
  forallb name_char l = true -> forallb (fun c => negb (is_sep c)) l = true.
Proof.
  induction l as [|c r IH]; cbn [forallb]; [reflexivity|].
  intros H. apply andb_true_iff in H. destruct H as [H1 H2].
  rewrite (name_char_nosep _ H1), (IH H2). reflexivity.
Qed.

Lemma forallb_name_no_newline (l : list ascii) :
  forallb name_char l = true -> no_newline l = true.
Proof.
  unfold no_newline. induction l as [|c r IH]; cbn [forallb existsb]; [reflexivity|].
  intros H. apply andb_true_iff in H. destruct H as [H1 H2].
  unfold name_char in H1. apply andb_true_iff in H1. destruct H1 as [_ H1].
  rewrite Ascii.eqb_sym. apply negb_true_iff in H1. rewrite H1. cbn [orb]. exact (IH H2).
Qed.

Lemma span_fst_all (p : ascii -> bool) (l : list ascii) : forallb p (fst (span p l)) = true.
Proof.
  induction l as [|c r IH]; cbn [span]; [reflexivity|].
  destruct (p c) eqn:Hc; [|reflexivity].
  destruct (span p r) as [a b]. cbn [fst forallb] in *. rewrite Hc, IH. reflexivity.
Qed.

Lemma rx_filter_tail_word (l w : list ascii) :
  rx_filter_tail l = Some w -> w <> [] /\ forallb is_alnum w = true.
Proof.
  unfold rx_filter_tail.
  assert (G : forall m, match fst (span is_alnum m) with [] => None | w => Some w end = Some w ->
                        w <> [] /\ forallb is_alnum w = true).
  { intros m. pose proof (span_fst_all is_alnum m) as A.
    destruct (fst (span is_alnum m)) as [|x y]; [discriminate|].
    intros E. injection E as <-. split; [discriminate|exact A]. }
  destruct l as [|c r].
  - apply G.
  - destruct (is_us_dash c).
    + destruct (fst (span is_alnum r)) as [|x y] eqn:E.
      * apply G.
      * intros F. injection F as <-. pose proof (span_fst_all is_alnum r) as A. rewrite E in A.
        split; [discriminate|exact A].
    + apply G.
Qed.

Lemma rx_filter_kw_word (l w : list ascii) :
  rx_filter_kw l = Some w -> w <> [] /\ forallb is_alnum w = true.
Proof.
  unfold rx_filter_kw.
  destruct (is_prefix (list_ascii_of_string "FILTER") l).
  - destruct (rx_filter_tail (skipn 6 l)) eqn:E.
    + intros F. injection F as <-. exact (rx_filter_tail_word _ _ E).
    + destruct (is_prefix (list_ascii_of_string "Filter") l); discriminate.
  - destruct (is_prefix (list_ascii_of_string "Filter") l); [apply rx_filter_tail_word|discriminate].
Qed.

Lemma rx_filter_search_word (l : list ascii) : forall b w,
  rx_filter_search b l = Some w -> w <> [] /\ forallb is_alnum w = true.
Proof.
  induction l as [|c r IH]; intros b w; cbn [rx_filter_search]; unfold rx_filter_at.
  - destruct b; [|discriminate].
    destruct (rx_filter_kw []) eqn:E; [|discriminate].
    intros F. injection F as <-. exact (rx_filter_kw_word _ _ E).
  - destruct (if b then rx_filter_kw (c :: r) else None) eqn:E.
    + intros F. injection F as <-. destruct b; [exact (rx_filter_kw_word _ _ E)|discriminate].
    + destruct (is_us_dash c).
      * destruct (rx_filter_kw r) eqn:E2.
        -- intros F. injection F as <-. exact (rx_filter_kw_word _ _ E2).
        -- apply IH.
      * apply IH.
Qed.

Lemma filter_from_files_word (files : list string) (s : string) :
  filter_from_files files = Some s ->
  exists w, w <> [] /\ forallb is_alnum w = true /\ s = py_upper (string_of_list_ascii w).
Proof.
  induction files as [|f fs IH]; cbn [filter_from_files]; [discriminate|].
  destruct (rx_filter_search true (list_ascii_of_string (baseName f))) as [w|] eqn:E; [|exact IH].
  intros F. injection F as <-. exists w. destruct (rx_filter_search_word _ _ _ E) as [H1 H2].
  split; [exact H1|split; [exact H2|reflexivity]].
Qed.

Lemma py_upper_list (s : string) :
  list_ascii_of_string (py_upper s) = map upper_ascii (list_ascii_of_string s).
Proof. unfold py_upper. apply list_ascii_of_string_of_list_ascii. Qed.

Lemma upper_all (l : list ascii) :
  forallb (fun c => Ascii.eqb (upper_ascii c) c) (map upper_ascii l) = true.
Proof.
  induction l as [|c r IH]; cbn [map forallb]; [reflexivity|]. rewrite upper_ascii_idem, IH. reflexivity.
Qed.

Lemma upper_name_chars (l : list ascii) :
  forallb name_char (map upper_ascii l) = forallb name_char l.
Proof.
  induction l as [|c r IH]; cbn [map forallb]; [reflexivity|]. rewrite upper_ascii_name_char, IH. reflexivity.
Qed.

Lemma alnum_name_chars (l : list ascii) : forallb is_alnum l = true -> forallb name_char l = true.
Proof.
  induction l as [|c r IH]; cbn [forallb]; [reflexivity|].
  intros H. apply andb_true_iff in H. destruct H as [H1 H2]. rewrite (alnum_name_char _ H1), (IH H2). reflexivity.
Qed.

Lemma after_last_sep_forall (P : ascii -> bool) (l : list ascii) : forall acc,
  forallb P l = true -> forallb P acc = true -> forallb P (after_last_sep l acc) = true.
Proof.
  induction l as [|c r IH]; intros acc Hl Ha; cbn [after_last_sep]; [exact Ha|].
  cbn [forallb] in Hl. apply andb_true_iff in Hl. destruct Hl as [_ Hr].
  apply IH; [exact Hr|]. destruct (is_sep c); assumption.
Qed.

Lemma after_last_sep_nosep (l : list ascii) : forall acc,
  (forallb (fun c => negb (is_sep c)) l = true /\ after_last_sep l acc = acc) \/
  forallb (fun c => negb (is_sep c)) (after_last_sep l acc) = true.
Proof.
  induction l as [|c r IH]; intros acc; cbn [after_last_sep forallb]; [left; split; reflexivity|].
  destruct (is_sep c) eqn:Hc.
  - right. destruct (IH r) as [[H1 ->]|H]; assumption.
  - destruct (IH acc) as [[H1 H2]|H]; [left; split; [rewrite H1; reflexivity|exact H2]|right; exact H].
Qed.

Lemma last_part_nosep (l : list ascii) :
  forallb (fun c => negb (is_sep c)) (after_last_sep l l) = true.
Proof. destruct (after_last_sep_nosep l l) as [[H1 ->]|H]; assumption. Qed.

Lemma nosep_upper (l : list ascii) :
  forallb (fun c => negb (is_sep c)) (map upper_ascii l) = forallb (fun c => negb (is_sep c)) l.
Proof.
  induction l as [|c r IH]; cbn [map forallb]; [reflexivity|]. rewrite upper_ascii_sep, IH. reflexivity.
Qed.

Lemma guessFilterFrom_cases (files : list string) (dir : string) :
  (exists w, w <> [] /\ forallb is_alnum w = true /\ guessFilterFrom files dir = py_upper (string_of_list_ascii w)) \/
  guessFilterFrom files dir = "UNKNOWN"%string \/
  (let last := after_last_sep (list_ascii_of_string dir) (list_ascii_of_string dir) in
   last <> [] /\ guessFilterFrom files dir = py_upper (string_of_list_ascii last)).
Proof.
  unfold guessFilterFrom. destruct (filter_from_files files) as [s|] eqn:E.
  - left. exact (filter_from_files_word _ _ E).
  - destruct (after_last_sep (list_ascii_of_string dir) (list_ascii_of_string dir)) as [|c r] eqn:L.
    + right; left; reflexivity.
    + destruct (is_ymd (c :: r)); [right; left; reflexivity|].
      right; right. cbv zeta. split; [discriminate|reflexivity].
Qed.

Lemma no_newline_forall (l : list ascii) :
  no_newline l = forallb (fun c => negb (Ascii.eqb c "010"%char)) l.
Proof.
  unfold no_newline. induction l as [|c r IH]; cbn [existsb forallb]; [reflexivity|].
  rewrite negb_orb, IH, Ascii.eqb_sym. reflexivity.
Qed.

Lemma name_chars_split (l : list ascii) :
  forallb name_char l = forallb (fun c => negb (is_sep c)) l && no_newline l.
Proof.
  rewrite no_newline_forall. induction l as [|c r IH]; cbn [forallb]; [reflexivity|].
  rewrite IH. unfold name_char.
  destruct (is_sep c), (Ascii.eqb c "010"%char), (forallb (fun c0 => negb (is_sep c0)) r),
    (forallb (fun c0 => negb (Ascii.eqb c0 "010"%char)) r); reflexivity.
Qed.

Lemma guessFilterFrom_name_chars (files : list string) (dir : string) :
  no_newline (list_ascii_of_string dir) = true ->
  forallb name_char (list_ascii_of_string (guessFilterFrom files dir)) = true.
Proof.
  intros Hd. destruct (guessFilterFrom_cases files dir) as [[w [_ [Hw ->]]]|[->|[_ ->]]].
  - rewrite py_upper_list, list_ascii_of_string_of_list_ascii, upper_name_chars. apply alnum_name_chars, Hw.
  - reflexivity.
  - rewrite py_upper_list, list_ascii_of_string_of_list_ascii, upper_name_chars.
    rewrite name_chars_split, last_part_nosep. cbn [andb].
    rewrite no_newline_forall in *. apply after_last_sep_forall; exact Hd.
Qed.

(** X7: [guessFilterFrom] always returns a non-empty upper-case name with no
    path separator. *)
Theorem guessFilterFrom_token (files : list string) (dir : string) :
  guessFilterFrom files dir <> ""%string /\
  no_sep (guessFilterFrom files dir) = true /\
  forallb (fun c => Ascii.eqb (upper_ascii c) c) (list_ascii_of_string (guessFilterFrom files dir)) = true.
Proof.
  unfold no_sep. destruct (guessFilterFrom_cases files dir) as [[w [Hne [Hw ->]]]|[->|[Hne ->]]].
  - rewrite py_upper_list, list_ascii_of_string_of_list_ascii. split; [|split].
    + destruct w; [contradiction|discriminate].
    + rewrite nosep_upper. apply forallb_name_no_sep, alnum_name_chars, Hw.
    + apply upper_all.
  - split; [discriminate|split; reflexivity].
  - rewrite py_upper_list, list_ascii_of_string_of_list_ascii. split; [|split].
    + destruct (after_last_sep _ _); [contradiction|discriminate].
    + rewrite nosep_upper. apply last_part_nosep.
    + apply upper_all.
Qed.

Lemma is_prefix_firstn (n : nat) : forall l : list ascii, is_prefix (firstn n l) l = true.
Proof.
  induction n as [|n IH]; intros [|c r]; cbn [firstn is_prefix]; try reflexivity.
  rewrite Ascii.eqb_refl, IH. reflexivity.
Qed.

Lemma substring_of_prefix (k l : list ascii) : is_prefix k l = true -> substring_of k l = true.
Proof. destruct l; cbn [substring_of]; intros ->; reflexivity. Qed.

Lemma substring_of_cons (k l : list ascii) (c : ascii) : substring_of k l = true -> substring_of k (c :: l) = true.
Proof. intros H. cbn [substring_of]. rewrite H. apply orb_true_r. Qed.

Lemma rx_date_at_spec (prev : option ascii) (l w : list ascii) :
  rx_date_at prev l = Some w ->
  is_ymd w = true /\ is_prefix (list_ascii_of_string "20") w = true /\ is_prefix w l = true.
Proof.
  unfold rx_date_at.
  destruct (_ && is_prefix _ _ && is_ymd _ && _) eqn:E; [|discriminate].
  intros F. injection F as <-. repeat rewrite andb_true_iff in E.
  destruct E as [[[_ H1] H2] _]. split; [exact H2|split; [exact H1|exact (is_prefix_firstn 10 l)]].
Qed.

Lemma rx_date_search_spec (l : list ascii) : forall prev w,
  rx_date_search prev l = Some w ->
  is_ymd w = true /\ is_prefix (list_ascii_of_string "20") w = true /\ substring_of w l = true.
Proof.
  induction l as [|c r IH]; intros prev w; cbn [rx_date_search].
  - destruct (rx_date_at prev []) eqn:E; [|discriminate]. intros F. injection F as <-.
    destruct (rx_date_at_spec _ _ _ E) as [H1 [H2 H3]]. split; [exact H1|split; [exact H2|]].
    apply substring_of_prefix, H3.
  - destruct (rx_date_at prev (c :: r)) eqn:E.
    + intros F. injection F as <-.
      destruct (rx_date_at_spec _ _ _ E) as [H1 [H2 H3]]. split; [exact H1|split; [exact H2|]].
      apply substring_of_prefix, H3.
    + intros F. destruct (IH _ _ F) as [H1 [H2 H3]]. split; [exact H1|split; [exact H2|]].
      apply substring_of_cons, H3.
Qed.

Lemma date_from_files_spec (files : list string) (d : string) :
  date_from_files files = Some d ->
  exists w f, d = string_of_list_ascii w /\ In f files /\ is_ymd w = true /\
    is_prefix (list_ascii_of_string "20") w = true /\ substring_of w (list_ascii_of_string f) = true.
Proof.
  induction files as [|f fs IH]; cbn [date_from_files]; [discriminate|].
  destruct (rx_date_search None (list_ascii_of_string f)) as [w|] eqn:E.
  - intros F. injection F as <-. destruct (rx_date_search_spec _ _ _ E) as [H1 [H2 H3]].
    exists w, f. split; [reflexivity|split; [left; reflexivity|auto]].
  - intros F. destruct (IH F) as [w [g [H0 [Hg H]]]]. exists w, g. split; [exact H0|split; [right; exact Hg|exact H]].
Qed.

Lemma guessDateFromPath_cases (dir : string) (files : list string) :
  guessDateFromPath dir files = "UNKNOWNDATE"%string \/
  exists w, guessDateFromPath dir files = string_of_list_ascii w /\ is_ymd w = true /\
    is_prefix (list_ascii_of_string "20") w = true /\
    (substring_of w (list_ascii_of_string dir) = true \/
     exists f, In f files /\ substring_of w (list_ascii_of_string f) = true).
Proof.
  unfold guessDateFromPath. destruct (rx_date_search None (list_ascii_of_string dir)) as [w|] eqn:E.
  - right. destruct (rx_date_search_spec _ _ _ E) as [H1 [H2 H3]]. exists w. auto.
  - destruct (date_from_files files) as [d|] eqn:D; [|left; reflexivity].
    right. destruct (date_from_files_spec _ _ D) as [w [f [-> [Hf [H1 [H2 H3]]]]]].
    exists w. split; [reflexivity|split; [exact H1|split; [exact H2|right; exists f; auto]]].
Qed.

Lemma ymd_char_b (c : ascii) : implb (is_digit c || Ascii.eqb c "-"%char) (name_char c) = true.
Proof. destruct c as [[] [] [] [] [] [] [] []]; reflexivity. Qed.

Lemma is_ymd_name_chars (w : list ascii) : is_ymd w = true -> forallb name_char w = true.
Proof.
  assert (G : forall c, is_digit c || Ascii.eqb c "-"%char = true -> name_char c = true).
  { intros c H. pose proof (ymd_char_b c) as E. rewrite H in E. exact E. }
  unfold is_ymd. do 10 (destruct w as [|? w]; [discriminate|]). destruct w; [|discriminate].
  intros H. cbn [forallb] in *. repeat rewrite andb_true_iff in H.
  decompose [and] H. cbn [forallb]. rewrite andb_true_r.
  repeat rewrite G by (apply orb_true_iff; auto). reflexivity.
Qed.

Lemma guessDateFromPath_name_chars (dir : string) (files : list string) :
  forallb name_char (list_ascii_of_string (guessDateFromPath dir files)) = true.
Proof.
  destruct (guessDateFromPath_cases dir files) as [->|[w [-> [H _]]]]; [reflexivity|].
  rewrite list_ascii_of_string_of_list_ascii. apply is_ymd_name_chars, H.
Qed.

Lemma digit_char_name (d : Z) : (0 <= d < 10)%Z -> name_char (digit_char d) = true.
Proof. intros H. apply digit_name_char, (digit_char_val d H). Qed.

Lemma digits_name_chars (D : list ascii) : Forall (fun c => is_digit c = true) D -> forallb name_char D = true.
Proof.
  induction 1 as [|c r Hc _ IH]; cbn [forallb]; [reflexivity|]. rewrite (digit_name_char _ Hc), IH. reflexivity.
Qed.

Lemma kexp_string_name_chars (k : Z) : forallb name_char (list_ascii_of_string (kexp_string k)) = true.
Proof.
  pose proof (Z.mod_pos_bound (Z.abs k) 1000 ltac:(lia)) as Hfr.
  destruct (digits_of_Z_spec (Z.abs k / 1000) ltac:(apply Z.div_pos; lia)) as [D1 [E1 [_ [Hd1 _]]]].
  unfold kexp_string. cbv zeta. rewrite !list_ascii_app, !forallb_app, E1, (digits_name_chars _ Hd1).
  apply andb_true_iff. split; [destruct (k <? 0)%Z; reflexivity|]. cbn [andb].
  destruct (Z.abs k mod 1000 =? 0)%Z; [reflexivity|].
  destruct (Z.abs k mod 1000 mod 100 =? 0)%Z; [|destruct (Z.abs k mod 1000 mod 10 =? 0)%Z];
    cbn [list_ascii_of_string forallb];
    repeat rewrite digit_char_name by (clear -Hfr; Z.div_mod_to_equations; lia);
    reflexivity.
Qed.

Lemma firstn_len_app (A B : list ascii) : firstn (List.length A) (A ++ B) = A.
Proof. induction A as [|c r IH]; cbn; [reflexivity|rewrite IH; reflexivity]. Qed.

Lemma skipn_len_app (A B : list ascii) : skipn (List.length A) (A ++ B) = B.
Proof. induction A as [|c r IH]; cbn; [reflexivity|exact IH]. Qed.

Lemma masterName_list (d f : string) (x : Q) :
  list_ascii_of_string (masterName d f x) =
  list_ascii_of_string "MasterFlat_" ++
  (list_ascii_of_string d ++ "_"%char :: list_ascii_of_string f ++ "_"%char ::
   list_ascii_of_string (kexp_string (kexp x)) ++ ["s"%char]) ++ list_ascii_of_string ".xisf".
Proof.
  unfold masterName. rewrite !list_ascii_app.
  repeat first [rewrite <- app_assoc | rewrite <- app_comm_cons]. reflexivity.
Qed.

Lemma MASTER_RE_match_shape (X : list ascii) :
  no_newline X = true ->
  MASTER_RE_match (string_of_list_ascii (list_ascii_of_string "MasterFlat_" ++ X ++ list_ascii_of_string ".xisf")) = true.
Proof.
  intros Hx. unfold MASTER_RE_match. rewrite list_ascii_of_string_of_list_ascii.
  assert (L : List.length (list_ascii_of_string "MasterFlat_") = 11%nat) by reflexivity.
  rewrite <- L. rewrite firstn_len_app, !skipn_len_app, length_app.
  assert (E : ends_ci_xisf (X ++ list_ascii_of_string ".xisf") = true).
  { unfold ends_ci_xisf. rewrite length_app.
    replace (List.length X + List.length (list_ascii_of_string ".xisf") - 5)%nat with (List.length X)
      by (cbn [list_ascii_of_string List.length]; lia).
    rewrite skipn_len_app. apply andb_true_iff. split; [apply Nat.leb_le; cbn [list_ascii_of_string List.length]; lia|reflexivity]. }
  assert (N : no_newline (X ++ list_ascii_of_string ".xisf") = true).
  { unfold no_newline in *. rewrite existsb_app. apply negb_true_iff in Hx. rewrite Hx. reflexivity. }
  rewrite E, N. cbn [andb orb]. rewrite andb_true_r. apply andb_true_iff. split; [apply Nat.leb_le; lia|reflexivity].
Qed.

Lemma masterName_middle_chars (d f : string) (x : Q) :
  forallb name_char (list_ascii_of_string d) = true ->
  forallb name_char (list_ascii_of_string f) = true ->
  forallb name_char (list_ascii_of_string d ++ "_"%char :: list_ascii_of_string f ++ "_"%char ::
                     list_ascii_of_string (kexp_string (kexp x)) ++ ["s"%char]) = true.
Proof.
  intros Hd Hf. repeat (rewrite !forallb_app; cbn [forallb]). rewrite Hd, Hf, kexp_string_name_chars. reflexivity.
Qed.

Lemma forallb_app3 (P : ascii -> bool) (A B C : list ascii) :
  forallb P A = true -> forallb P B = true -> forallb P C = true -> forallb P (A ++ B ++ C) = true.
Proof. intros HA HB HC. rewrite !forallb_app, HA, HB, HC. reflexivity. Qed.

(** X9: for an output folder without a trailing separator or line break, and
    a flats folder without a newline, the master path of [run()] lies
    directly in the output folder, its file name is [masterName], and that
    name matches the planner's master-file pattern. *)
Theorem masterOut_layout (outBase dir : string) (calFiles : list string) (exp : Q) :
  ends_with_sep outBase = false ->
  forallb (fun c => negb (is_line_term c)) (list_ascii_of_string outBase) = true ->
  no_newline (list_ascii_of_string dir) = true ->
  parentDir (masterOut outBase dir calFiles exp) = outBase /\
  baseName (masterOut outBase dir calFiles exp) =
    masterName (guessDateFromPath dir calFiles) (guessFilterFrom calFiles dir) exp /\
  MASTER_RE_match (masterName (guessDateFromPath dir calFiles) (guessFilterFrom calFiles dir) exp) = true.
Proof.
  intros He Hl Hd.
  pose proof (masterName_middle_chars _ _ exp (guessDateFromPath_name_chars dir calFiles)
                (guessFilterFrom_name_chars calFiles dir Hd)) as Hn.
  assert (Hs : no_sep (masterName (guessDateFromPath dir calFiles) (guessFilterFrom calFiles dir) exp) = true).
  { unfold no_sep. rewrite masterName_list. apply forallb_app3; [reflexivity|exact (forallb_name_no_sep _ Hn)|reflexivity]. }
  unfold masterOut. split; [apply parentDir_joinPath; assumption|split; [apply baseName_joinPath; assumption|]].
  rewrite <- (string_of_list_ascii_of_string (masterName _ _ _)). rewrite masterName_list.
  apply MASTER_RE_match_shape, forallb_name_no_newline, Hn.
Qed.

Lemma substring_of_skipn (k : list ascii) (n : nat) : forall s,
  substring_of k (skipn n s) = true -> substring_of k s = true.
Proof.
  induction n as [|n IH]; intros [|c r]; cbn [skipn]; try (intros H; exact H).
  intros H. apply substring_of_cons, IH, H.
Qed.

Lemma is_prefix_app_inv (A B s : list ascii) :
  is_prefix (A ++ B) s = true -> is_prefix B (skipn (List.length A) s) = true.
Proof.
  revert s. induction A as [|a A IH]; intros s H; [exact H|].
  destruct s as [|c r]; [discriminate|]. cbn [app is_prefix] in H. apply andb_true_iff in H.
  cbn [List.length skipn]. apply IH, H.
Qed.

Lemma is_prefix_app_l (B C s : list ascii) : is_prefix (B ++ C) s = true -> is_prefix B s = true.
Proof.
  revert s. induction B as [|b B IH]; intros s H; [reflexivity|].
  destruct s as [|c r]; [discriminate|]. cbn [app is_prefix] in *. apply andb_true_iff in H.
  destruct H as [H1 H2]. rewrite H1, (IH _ H2). reflexivity.
Qed.

Lemma substring_of_inner (k pre post s : list ascii) :
  substring_of (pre ++ k ++ post) s = true -> substring_of k s = true.
Proof.
  induction s as [|c r IH]; intros H; cbn [substring_of] in H; apply orb_true_iff in H.
  - destruct H as [H|H]; [|discriminate].
    apply substring_of_prefix. apply is_prefix_app_inv, is_prefix_app_l in H.
    destruct pre; [exact H|cbn in H; destruct k; [reflexivity|discriminate]].
  - destruct H as [H|H]; [|apply substring_of_cons, IH, H].
    apply (substring_of_skipn _ (List.length pre)), substring_of_prefix.
    apply is_prefix_app_l with (C := post). apply is_prefix_app_inv, H.
Qed.

(** X10: [_classify_dark_type] gives no type exactly when the upper-cased
    name does not contain DARK, and the type it gives is a substring of
    the upper-cased name. *)
Theorem classify_dark_type_spec (name : string) :
  (classify_dark_type name = None <->
   substring_of (list_ascii_of_string "DARK") (list_ascii_of_string (py_upper name)) = false) /\
  (forall t, classify_dark_type name = Some t ->
   substring_of (list_ascii_of_string (darkType_str t)) (list_ascii_of_string (py_upper name)) = true).
Proof.
  unfold classify_dark_type. set (u := list_ascii_of_string (py_upper name)).
  destruct (substring_of (list_ascii_of_string "MASTERDARKFLAT") u) eqn:E1.
  { assert (D : substring_of (list_ascii_of_string "DARK") u = true)
      by exact (substring_of_inner (list_ascii_of_string "DARK") (list_ascii_of_string "MASTER") (list_ascii_of_string "FLAT") u E1).
    rewrite D. split; [split; discriminate|]. intros t F. injection F as <-. exact E1. }
  destruct (substring_of (list_ascii_of_string "MASTERDARK") u) eqn:E2.
  { assert (D : substring_of (list_ascii_of_string "DARK") u = true)
      by exact (substring_of_inner (list_ascii_of_string "DARK") (list_ascii_of_string "MASTER") [] u E2).
    rewrite D. split; [split; discriminate|]. intros t F. injection F as <-. exact E2. }
  destruct (substring_of (list_ascii_of_string "DARKFLAT") u) eqn:E3.
  { assert (D : substring_of (list_ascii_of_string "DARK") u = true)
      by exact (substring_of_inner (list_ascii_of_string "DARK") [] (list_ascii_of_string "FLAT") u E3).
    rewrite D. split; [split; discriminate|]. intros t F. injection F as <-. exact E3. }
  destruct (substring_of (list_ascii_of_string "DARK") u) eqn:E4.
  - split; [split; discriminate|]. intros t F. injection F as <-. exact E4.
  - split; [split; reflexivity|]. discriminate.
Qed.

(** X11: an entry is in the dark catalog of [scan_darks] exactly when its
    path is a candidate file whose base name is classified as its type, whose
    [read_meta] exposure (from the header, or inferred from the file name)
    is its exposure, and whose binning, gain, offset and
    temperature it copies from that [read_meta] record. *)
Theorem dark_catalog_members (meta_of : string -> pyMeta) (cand : list string) (d : darkEntry) :
  In d (dark_catalog meta_of cand) <->
  In (d_path d) cand /\
  classify_dark_type (basename (d_path d)) = Some (d_type d) /\
  m_exposure (meta_of (d_path d)) = Some (d_exposure d) /\
  d_binning d = m_binning (meta_of (d_path d)) /\ d_gain d = m_gain (meta_of (d_path d)) /\
  d_offset d = m_offset (meta_of (d_path d)) /\ d_temp d = m_temp (meta_of (d_path d)).
Proof.
  unfold dark_catalog. rewrite in_flat_map. split.
  - intros [p [Hp Hd]].
    destruct (classify_dark_type (basename p)) as [typ|] eqn:Hc; [|contradiction].
    destruct (m_exposure (meta_of p)) as [ex|] eqn:He; [|contradiction].
    destruct Hd as [<-|[]]. cbn [d_path d_type d_exposure d_binning d_gain d_offset d_temp].
    auto 8.
  - intros [Hp [Hc [He [Hb [Hg [Ho Ht]]]]]]. exists (d_path d). split; [exact Hp|].
    rewrite Hc, He. left. destruct d. cbn in *. subst. reflexivity.
Qed.

Lemma darkType_eqb_true (a b : darkType) : darkType_eqb a b = true <-> a = b.
Proof. destruct a, b; cbn; split; congruence. Qed.

Lemma assoc_get_add_dark (k k' : string) (d : darkEntry) (l : list (string * list darkEntry)) :
  assoc_get [] k (add_dark k' d l) =
  if String.eqb k k' then assoc_get [] k l ++ [d] else assoc_get [] k l.
Proof.
  induction l as [|[k1 ds] r IH]; cbn [add_dark assoc_get].
  - destruct (String.eqb k k'); reflexivity.
  - destruct (String.eqb_spec k' k1) as [->|Hne]; cbn [assoc_get].
    + destruct (String.eqb k k1); reflexivity.
    + destruct (String.eqb_spec k k1) as [->|Hk].
      * destruct (String.eqb_spec k1 k') as [E|]; [congruence|reflexivity].
      * exact IH.
Qed.

Lemma keys_add_dark (k k' : string) (d : darkEntry) (l : list (string * list darkEntry)) :
  In k (map fst (add_dark k' d l)) <-> k = k' \/ In k (map fst l).
Proof.
  induction l as [|[k1 ds] r IH]; cbn [add_dark map fst In].
  - split; [intros [<-|[]]; left; reflexivity|intros [->|[]]; left; reflexivity].
  - destruct (String.eqb_spec k' k1) as [->|Hne]; cbn [map fst In].
    + split; [intros H; right; exact H|intros [->|H]; [left; reflexivity|exact H]].
    + rewrite IH. tauto.
Qed.

Lemma by_type_get (typ : darkType) (k : string) (cat : list darkEntry) : forall acc,
  assoc_get [] k (fold_left (by_type_step typ) cat acc) =
  assoc_get [] k acc ++ filter (fun d => darkType_eqb (d_type d) typ && String.eqb k (dark_key d)) cat.
Proof.
  induction cat as [|d r IH]; intros acc; cbn [fold_left filter]; [rewrite app_nil_r; reflexivity|].
  rewrite IH. unfold by_type_step. destruct (darkType_eqb (d_type d) typ); cbn [andb]; [|reflexivity].
  rewrite assoc_get_add_dark. destruct (String.eqb k (dark_key d)); [rewrite <- app_assoc; reflexivity|reflexivity].
Qed.

Lemma by_type_keys (typ : darkType) (k : string) (cat : list darkEntry) : forall acc,
  In k (map fst (fold_left (by_type_step typ) cat acc)) <->
  In k (map fst acc) \/ exists d, In d cat /\ d_type d = typ /\ k = dark_key d.
Proof.
  induction cat as [|d r IH]; intros acc; cbn [fold_left].
  - split; [tauto|intros [H|[d [[] _]]]; exact H].
  - rewrite IH. unfold by_type_step. destruct (darkType_eqb (d_type d) typ) eqn:Ht.
    + rewrite keys_add_dark. apply darkType_eqb_true in Ht. split.
      * intros [[->|H]|[d' [H1 H2]]]; [right; exists d; split; [left|]; auto|left; exact H|right; exists d'; split; [right|]; auto].
      * intros [H|[d' [[<-|H1] H2]]]; [left; right; exact H|left; left; apply H2|right; exists d'; auto].
    + split.
      * intros [H|[d' [H1 H2]]]; [left; exact H|right; exists d'; split; [right|]; auto].
      * intros [H|[d' [[<-|H1] [H2 H3]]]]; [left; exact H| |right; exists d'; auto].
        rewrite H2 in Ht. destruct typ; discriminate.
Qed.

Lemma fold_insert_in {A} (ins : A -> list A -> list A) :
  (forall x y l, In x (ins y l) <-> x = y \/ In x l) ->
  forall l acc x, In x (fold_left (fun acc y => ins y acc) l acc) <-> In x acc \/ In x l.
Proof.
  intros Hins. induction l as [|y r IH]; intros acc x; cbn [fold_left In].
  - tauto.
  - rewrite IH, Hins. split; intros; intuition (subst; auto).
Qed.

Lemma insert_dark_key_in (x k : string) (l : list string) : In x (insert_dark_key k l) <-> x = k \/ In x l.
Proof.
  induction l as [|y r IH]; cbn [insert_dark_key In]; [split; intros; intuition (subst; auto)|].
  destruct (Qltb (key_float k) (key_float y)); cbn [In]; [|rewrite IH]; split; intros; intuition (subst; auto).
Qed.

Lemma sort_dark_keys_in (x : string) (l : list string) : In x (sort_dark_keys l) <-> In x l.
Proof.
  unfold sort_dark_keys. rewrite (fold_insert_in insert_dark_key (fun x y l => insert_dark_key_in x y l)).
  cbn [In]. tauto.
Qed.

Lemma insert_by_lower_in (x d : darkEntry) (l : list darkEntry) : In x (insert_by_lower d l) <-> x = d \/ In x l.
Proof.
  induction l as [|y r IH]; cbn [insert_by_lower In]; [split; intros; intuition (subst; auto)|].
  destruct (String.compare (py_lower (d_path d)) (py_lower (d_path y))); cbn [In]; try (rewrite IH);
    split; intros; intuition (subst; auto).
Qed.

Lemma sort_by_lower_in (x : darkEntry) (l : list darkEntry) : In x (sort_by_lower l) <-> In x l.
Proof.
  unfold sort_by_lower. rewrite (fold_insert_in insert_by_lower (fun x y l => insert_by_lower_in x y l)).
  cbn [In]. tauto.
Qed.

Lemma type_item_triples (cat : list darkEntry) (typ : darkType) (kk pp : string) :
  In (kk, pp) (flat_map (fun expItem => map (fun fItem => (it_text expItem, it_text fItem)) (it_children expItem))
                 (it_children (type_item cat typ))) <->
  exists d, In d cat /\ d_type d = typ /\ kk = dark_key d /\ pp = d_path d.
Proof.
  unfold type_item. cbn [it_children]. rewrite in_flat_map. split.
  - intros [e [He Hin]]. apply in_map_iff in He. destruct He as [k [<- Hk]].
    cbn [it_children it_text] in Hin. rewrite map_map in Hin. apply in_map_iff in Hin.
    destruct Hin as [d [E Hd]]. cbn [it_text] in E. injection E as <- <-.
    rewrite sort_by_lower_in in Hd. unfold by_type in Hd. fold (by_type_step typ) in Hd.
    rewrite by_type_get in Hd. cbn [assoc_get app] in Hd. apply filter_In in Hd.
    destruct Hd as [Hd Hb]. apply andb_true_iff in Hb. destruct Hb as [Ht Hk'].
    apply darkType_eqb_true in Ht. apply String.eqb_eq in Hk'. exists d. auto.
  - intros [d [Hd [Ht [-> ->]]]]. exists (mkItem (dark_key d) true Checked
        (map (fun d0 => mkItem (d_path d0) true Checked []) (sort_by_lower (assoc_get [] (dark_key d) (by_type cat typ))))).
    split.
    + apply in_map_iff. exists (dark_key d). split; [reflexivity|]. rewrite sort_dark_keys_in.
      unfold by_type. fold (by_type_step typ). rewrite by_type_keys. right. exists d. auto.
    + cbn [it_children it_text]. rewrite map_map. apply in_map_iff. exists d. split; [reflexivity|].
      rewrite sort_by_lower_in. unfold by_type. fold (by_type_step typ). rewrite by_type_get.
      cbn [assoc_get app]. apply filter_In. split; [exact Hd|].
      rewrite Ht, String.eqb_refl. destruct typ; reflexivity.
Qed.

Lemma scan_darks_tree_iff (dark_roots cand : list string) (meta_of : string -> pyMeta) (tt kk pp : string) :
  In (tt, kk, pp) (tree_triples (snd (scan_darks dark_roots cand meta_of))) <->
  exists d, In d (fst (scan_darks dark_roots cand meta_of)) /\
    tt = darkType_str (d_type d) /\ kk = dark_key d /\ pp = d_path d.
Proof.
  destruct dark_roots as [|r rs]; cbn [scan_darks fst snd].
  - unfold tree_triples. cbn. split; [intros []|intros [d [[] _]]].
  - unfold tree_triples. cbn [it_children]. rewrite in_flat_map. split.
    + intros [ti [Hti Hin]]. apply in_map_iff in Hti. destruct Hti as [typ [<- Htyp]].
      assert (Hin' : In (kk, pp) (flat_map (fun expItem => map (fun fItem => (it_text expItem, it_text fItem)) (it_children expItem))
                 (it_children (type_item (dark_catalog meta_of cand) typ)))).
      { rewrite in_flat_map in Hin |- *. destruct Hin as [e [He Hf]]. exists e. split; [exact He|].
        apply in_map_iff in Hf. destruct Hf as [f [E Hf]]. injection E as <- <- <-.
        apply in_map_iff. exists f. split; [reflexivity|exact Hf]. }
      assert (Htt : tt = darkType_str typ).
      { rewrite in_flat_map in Hin. destruct Hin as [e [_ Hf]]. apply in_map_iff in Hf.
        destruct Hf as [f [E _]]. injection E as <- _ _. reflexivity. }
      apply type_item_triples in Hin'. destruct Hin' as [d [Hd [Ht [Hk Hp]]]].
      exists d. subst. auto.
    + intros [d [Hd [-> [-> ->]]]]. exists (type_item (dark_catalog meta_of cand) (d_type d)). split.
      * apply in_map_iff. exists (d_type d). split; [reflexivity|]. destruct (d_type d); cbn; tauto.
      * assert (H : In (dark_key d, d_path d)
                    (flat_map (fun expItem => map (fun fItem => (it_text expItem, it_text fItem)) (it_children expItem))
                      (it_children (type_item (dark_catalog meta_of cand) (d_type d))))).
        { apply type_item_triples. exists d. auto. }
        rewrite in_flat_map in H |- *. destruct H as [e [He Hf]]. exists e. split; [exact He|].
        apply in_map_iff in Hf. destruct Hf as [f [E Hf]]. injection E as E1 E2.
        apply in_map_iff. exists f. split; [|exact Hf]. rewrite E1, E2. reflexivity.
Qed.

Lemma filter_all_true {A} (f : A -> bool) (l : list A) :
  (forall x, In x l -> f x = true) -> filter f l = l.
Proof.
  induction l as [|x r IH]; intros H; cbn [filter]; [reflexivity|].
  rewrite (H x (or_introl eq_refl)), IH; [reflexivity|]. intros y Hy. apply H. right. exact Hy.
Qed.

Lemma filter_all_false {A} (f : A -> bool) (l : list A) :
  (forall x, In x l -> f x = false) -> filter f l = [].
Proof.
  induction l as [|x r IH]; intros H; cbn [filter]; [reflexivity|].
  rewrite (H x (or_introl eq_refl)), IH; [reflexivity|]. intros y Hy. apply H. right. exact Hy.
Qed.

Lemma allowed_of_triple (root : stdItem) (tt kk pp : string) :
  files_checked root -> In (tt, kk, pp) (tree_triples root) -> In pp (allowed_paths root).
Proof.
  intros Hc Hin. unfold tree_triples in Hin. unfold allowed_paths.
  rewrite in_flat_map in Hin |- *. destruct Hin as [ty [Hty Hin]]. exists ty. split; [exact Hty|].
  rewrite in_flat_map in Hin |- *. destruct Hin as [e [He Hin]]. exists e. split; [exact He|].
  apply in_map_iff in Hin. destruct Hin as [f [E Hf]]. injection E as _ _ <-.
  rewrite in_flat_map. exists f. split; [exact Hf|].
  destruct (Hc ty e f Hty He Hf) as [H1 H2]. rewrite H1, H2. left. reflexivity.
Qed.

Lemma scan_darks_files_checked (dark_roots cand : list string) (meta_of : string -> pyMeta) :
  files_checked (snd (scan_darks dark_roots cand meta_of)).
Proof.
  intros ty e f Hty He Hf. destruct dark_roots as [|r rs]; cbn [scan_darks snd it_children] in Hty; [destruct Hty|].
  apply in_map_iff in Hty. destruct Hty as [typ [<- _]]. unfold type_item in He. cbn [it_children] in He.
  apply in_map_iff in He. destruct He as [k [<- _]]. cbn [it_children] in Hf.
  apply in_map_iff in Hf. destruct Hf as [d [<- _]]. split; reflexivity.
Qed.

Lemma gather_all_allowed (root : stdItem) (cat : list darkEntry) :
  files_checked root ->
  (forall d, In d cat -> exists tt kk, In (tt, kk, d_path d) (tree_triples root)) ->
  gather_allowed_darks (Some root) cat = cat.
Proof.
  intros Hc H. unfold gather_allowed_darks. apply filter_all_true. intros d Hd.
  destruct (H d Hd) as [tt [kk Ht]]. apply existsb_exists. exists (d_path d).
  split; [exact (allowed_of_triple _ _ _ _ Hc Ht)|apply String.eqb_refl].
Qed.

(** X13: gathering the allowed darks from the freshly built dark tree (all
    file items checked) returns the whole catalog, in order. *)
Theorem gather_after_scan (dark_roots cand : list string) (meta_of : string -> pyMeta) :
  gather_allowed_darks (Some (snd (scan_darks dark_roots cand meta_of))) (fst (scan_darks dark_roots cand meta_of)) =
  fst (scan_darks dark_roots cand meta_of).
Proof.
  apply gather_all_allowed; [apply scan_darks_files_checked|].
  intros d Hd. exists (darkType_str (d_type d)), (dark_key d). apply scan_darks_tree_iff. exists d. auto.
Qed.

Lemma stdItem_ind_all (P : stdItem -> Prop) :
  (forall t c s chs, Forall P chs -> P (mkItem t c s chs)) -> forall it, P it.
Proof.
  intros H. fix IH 1. intros [t c s chs]. apply H.
  exact ((fix go (l : list stdItem) : Forall P l :=
            match l with
            | [] => Forall_nil P
            | x :: r => Forall_cons x (IH x) (go r)
            end) chs).
Qed.

Lemma erase_set_state (it : stdItem) (st : checkState) : erase (set_state it st) = erase it.
Proof. destruct it; reflexivity. Qed.

Lemma erase_set_children_check (it : stdItem) : forall st, erase (set_children_check it st) = erase it.
Proof.
  induction it as [t c s chs IH] using stdItem_ind_all. intros st. cbn [set_children_check erase].
  f_equal. rewrite map_map. apply map_ext_in. intros ch Hin. rewrite Forall_forall in IH.
  destruct (it_checkable ch); [rewrite erase_set_state|]; apply IH, Hin.
Qed.

Lemma erase_fields (a b : stdItem) : erase a = erase b ->
  it_text a = it_text b /\ it_checkable a = it_checkable b /\ map erase (it_children a) = map erase (it_children b).
Proof. destruct a, b. cbn. intros E. injection E as -> -> E. auto. Qed.

Lemma erase_in (a b x : stdItem) : erase a = erase b -> In x (it_children a) ->
  exists y, In y (it_children b) /\ erase x = erase y.
Proof.
  intros E Hx. destruct (erase_fields a b E) as [_ [_ M]].
  assert (Hm : In (erase x) (map erase (it_children b))) by (rewrite <- M; apply in_map, Hx).
  apply in_map_iff in Hm. destruct Hm as [y [Ey Hy]]. exists y. auto.
Qed.

Lemma tree_triples_erase (root : stdItem) : tree_triples (erase root) = tree_triples root.
Proof.
  destruct root as [t c s chs]. unfold tree_triples. cbn [erase it_children].
  rewrite !flat_map_concat_map, map_map. f_equal. apply map_ext. intros [t1 c1 s1 ch1].
  cbn [erase it_children it_text]. rewrite !flat_map_concat_map, map_map. f_equal.
  apply map_ext. intros [t2 c2 s2 ch2]. cbn [erase it_children it_text]. rewrite map_map.
  apply map_ext. intros [t3 c3 s3 ch3]. reflexivity.
Qed.

Lemma set_state_fields (it : stdItem) (st : checkState) :
  it_checkable (set_state it st) = it_checkable it /\ it_state (set_state it st) = st /\
  it_children (set_state it st) = it_children it.
Proof. destruct it; auto. Qed.

Lemma scc_fields (it : stdItem) (st : checkState) :
  it_checkable (set_children_check it st) = it_checkable it /\
  it_children (set_children_check it st) =
    map (fun ch => let ch' := set_children_check ch (eff_state st) in
                   if it_checkable ch then set_state ch' (eff_state st) else ch') (it_children it).
Proof. destruct it; auto. Qed.

(** In [set_children_check it st], an item two levels down that is
    checkable has the effective state. *)
Lemma scc_grandchild (it : stdItem) (st : checkState) (e f : stdItem) :
  In e (it_children (set_children_check it st)) -> In f (it_children e) -> it_checkable f = true ->
  it_state f = eff_state (eff_state st).
Proof.
  intros He Hf Hc. rewrite (proj2 (scc_fields it st)) in He. apply in_map_iff in He.
  destruct He as [e0 [<- _]]. cbv zeta in Hf.
  assert (Hch : it_children (if it_checkable e0 then set_state (set_children_check e0 (eff_state st)) (eff_state st)
                             else set_children_check e0 (eff_state st)) =
                it_children (set_children_check e0 (eff_state st)))
    by (destruct (it_checkable e0); [apply set_state_fields|reflexivity]).
  rewrite Hch, (proj2 (scc_fields e0 _)) in Hf. apply in_map_iff in Hf. destruct Hf as [f0 [<- _]].
  cbv zeta in Hc |- *. destruct (it_checkable f0) eqn:Hf0.
  - apply set_state_fields.
  - rewrite (proj1 (scc_fields f0 _)) in Hc. congruence.
Qed.

Lemma set_all_darks_files (b : bool) (root : stdItem) :
  (forall ty, In ty (it_children root) -> it_checkable ty = true) ->
  exists root', set_all_darks b (Some root) = Some root' /\ erase root' = erase root /\
    forall ty e f, In ty (it_children root') -> In e (it_children ty) -> In f (it_children e) ->
      it_checkable f = true -> it_state f = (if b then Checked else Unchecked).
Proof.
  intros Hty. destruct root as [t c s chs]. cbn [set_all_darks].
  set (st := if b then Checked else Unchecked).
  set (chs' := map (fun typItem => if it_checkable typItem then set_children_check (set_state typItem st) st
                                   else typItem) chs).
  eexists. split; [reflexivity|split].
  - cbn [erase]. f_equal. unfold chs'. rewrite map_map. apply map_ext_in. intros ty Hin.
    destruct (it_checkable ty); [rewrite erase_set_children_check, erase_set_state|]; reflexivity.
  - intros ty e f Hin He Hf Hc. cbn [it_children] in Hin. unfold chs' in Hin. apply in_map_iff in Hin.
    destruct Hin as [ty0 [<- Hty0]]. rewrite (Hty ty0 Hty0) in He.
    rewrite (scc_grandchild _ _ e f He Hf Hc). unfold st. destruct b; reflexivity.
Qed.

(** X14: after [_set_all_darks(b)] on a dark tree with the shape [scan_darks]
    built (check states aside), [_gather_allowed_darks] returns the whole
    catalog when [b] is true and nothing when it is false. *)
Theorem select_all_or_none (dark_roots cand : list string) (meta_of : string -> pyMeta)
    (root : stdItem) (b : bool) :
  erase root = erase (snd (scan_darks dark_roots cand meta_of)) ->
  gather_allowed_darks (set_all_darks b (Some root)) (fst (scan_darks dark_roots cand meta_of)) =
  if b then fst (scan_darks dark_roots cand meta_of) else [].
Proof.
  intros E. set (fresh := snd (scan_darks dark_roots cand meta_of)).
  assert (Hfc := scan_darks_files_checked dark_roots cand meta_of). fold fresh in Hfc, E.
  assert (Hty : forall ty, In ty (it_children root) -> it_checkable ty = true).
  { intros ty Hin. destruct (erase_in _ _ _ E Hin) as [ty0 [Hin0 E0]].
    destruct (erase_fields _ _ E0) as [_ [-> _]]. unfold fresh in Hin0.
    destruct dark_roots as [|r rs]; cbn [scan_darks snd it_children] in Hin0; [destruct Hin0|].
    apply in_map_iff in Hin0. destruct Hin0 as [typ [<- _]]. reflexivity. }
  destruct (set_all_darks_files b root Hty) as [root' [-> [E' Hst]]].
  assert (Hchk : forall ty e f, In ty (it_children root') -> In e (it_children ty) -> In f (it_children e) ->
                 it_checkable f = true).
  { intros ty e f H1 H2 H3. rewrite <- E' in E.
    destruct (erase_in _ _ _ E H1) as [ty0 [H1' Ety]].
    destruct (erase_in _ _ _ Ety H2) as [e0 [H2' Ee]].
    destruct (erase_in _ _ _ Ee H3) as [f0 [H3' Ef]].
    destruct (erase_fields _ _ Ef) as [_ [-> _]]. exact (proj1 (Hfc ty0 e0 f0 H1' H2' H3')). }
  destruct b.
  - apply gather_all_allowed.
    + intros ty e f H1 H2 H3. split; [exact (Hchk ty e f H1 H2 H3)|exact (Hst ty e f H1 H2 H3 (Hchk ty e f H1 H2 H3))].
    + intros d Hd. exists (darkType_str (d_type d)), (dark_key d).
      rewrite <- tree_triples_erase, E', E, tree_triples_erase. apply scan_darks_tree_iff. exists d. auto.
  - unfold gather_allowed_darks. apply filter_all_false. intros d _.
    destruct (existsb _ _) eqn:Ex; [|reflexivity]. apply existsb_exists in Ex.
    destruct Ex as [p [Hp _]]. exfalso. unfold allowed_paths in Hp.
    rewrite in_flat_map in Hp. destruct Hp as [ty [H1 Hp]].
    rewrite in_flat_map in Hp. destruct Hp as [e [H2 Hp]].
    rewrite in_flat_map in Hp. destruct Hp as [f [H3 Hp]].
    rewrite (Hchk ty e f H1 H2 H3), (Hst ty e f H1 H2 H3 (Hchk ty e f H1 H2 H3)) in Hp. destruct Hp.
Qed.

(** X1: the exposure key [scan_flats] writes, [f"{round(ex,3):.3f}"], reads
    back with [float] as [round(ex, 3)]. *)
Theorem bucket_key_roundtrip (x : Q) :
  exists q, py_float (bucket_key x) = Some q /\ q == Qmake (py_round3 x) 1000.
Proof. exact (bucket_key_float_eq x). Qed.

(** X6: [joinPath(a, b)] for a folder [a] without a trailing separator or a
    line break and a name [b] without separator splits back: [parentDir]
    gives [a] and [baseName] gives [b]. *)
Theorem joinPath_split (a b : string) :
  ends_with_sep a = false ->
  forallb (fun c => negb (is_line_term c)) (list_ascii_of_string a) = true ->
  no_sep b = true ->
  parentDir (joinPath a b) = a /\ baseName (joinPath a b) = b.
Proof.
  intros He Hl Hb. split; [apply parentDir_joinPath|apply baseName_joinPath]; assumption.
Qed.

(** X8: [guessDateFromPath] returns UNKNOWNDATE or a date of the form
    20yy-mm-dd found in the folder path or in one of the files. *)
Theorem guessDateFromPath_found (dir : string) (files : list string) :
  guessDateFromPath dir files = "UNKNOWNDATE"%string \/
  exists w, guessDateFromPath dir files = string_of_list_ascii w /\ is_ymd w = true /\
    is_prefix (list_ascii_of_string "20") w = true /\
    (substring_of w (list_ascii_of_string dir) = true \/
     exists f, In f files /\ substring_of w (list_ascii_of_string f) = true).
Proof. exact (guessDateFromPath_cases dir files). Qed.

(** X12: the file items of the dark tree built by [scan_darks] are exactly
    the catalog entries, each under the item of its type and the item of
    its exposure key. *)
Theorem scan_darks_tree (dark_roots cand : list string) (meta_of : string -> pyMeta) (tt kk pp : string) :
  In (tt, kk, pp) (tree_triples (snd (scan_darks dark_roots cand meta_of))) <->
  exists d, In d (fst (scan_darks dark_roots cand meta_of)) /\
    tt = darkType_str (d_type d) /\ kk = dark_key d /\ pp = d_path d.
Proof. exact (scan_darks_tree_iff dark_roots cand meta_of tt kk pp). Qed.

Lemma scan_group_exposure_witness :
  scan_flats ex_listdir ex_meta ex_walk = inr (fst ex_scan, snd ex_scan) /\
  (forall j g f, In j (fst ex_scan) -> In g (j_groups j) -> In f (g_files g) ->
   exists ex, m_exposure (ex_meta f) = Some ex /\ g_exposure g == Qmake (py_round3 ex) 1000).
Proof.
  assert (H : scan_flats ex_listdir ex_meta ex_walk = inr (fst ex_scan, snd ex_scan))
    by (vm_compute; reflexivity).
  split; [exact H|exact (scan_group_exposure ex_listdir ex_meta ex_walk (fst ex_scan) (snd ex_scan) H)].
Defined.

Lemma scan_groups_ascending_witness :
  scan_flats ex_listdir ex_meta ex_walk = inr (fst ex_scan, snd ex_scan) /\
  (forall j, In j (fst ex_scan) -> Sorted Qle (map g_exposure (j_groups j))).
Proof.
  assert (H : scan_flats ex_listdir ex_meta ex_walk = inr (fst ex_scan, snd ex_scan))
    by (vm_compute; reflexivity).
  split; [exact H|exact (scan_groups_ascending ex_listdir ex_meta ex_walk (fst ex_scan) (snd ex_scan) H)].
Defined.

Lemma joinPath_split_witness :
  ends_with_sep "D:\proc"%string = false /\
  forallb (fun c => negb (is_line_term c)) (list_ascii_of_string "D:\proc") = true /\
  no_sep "MasterFlat_x.xisf"%string = true /\
  parentDir (joinPath "D:\proc" "MasterFlat_x.xisf") = "D:\proc"%string /\
  baseName (joinPath "D:\proc" "MasterFlat_x.xisf") = "MasterFlat_x.xisf"%string.
Proof.
  split; [reflexivity|split; [reflexivity|split; [reflexivity|]]].
  apply joinPath_split; reflexivity.
Defined.

Lemma masterOut_layout_witness :
  ends_with_sep "D:\proc\night1"%string = false /\
  forallb (fun c => negb (is_line_term c)) (list_ascii_of_string "D:\proc\night1") = true /\
  no_newline (list_ascii_of_string "D:\flats\night1") = true /\
  parentDir (masterOut "D:\proc\night1" "D:\flats\night1"
               ["D:\flats\night1\_CalibratedFlats_1.5s\flat_Filter_Ha_001_c.xisf"%string] (3#2)) =
    "D:\proc\night1"%string /\
  baseName (masterOut "D:\proc\night1" "D:\flats\night1"
               ["D:\flats\night1\_CalibratedFlats_1.5s\flat_Filter_Ha_001_c.xisf"%string] (3#2)) =
    masterName (guessDateFromPath "D:\flats\night1"
                  ["D:\flats\night1\_CalibratedFlats_1.5s\flat_Filter_Ha_001_c.xisf"%string])
               (guessFilterFrom ["D:\flats\night1\_CalibratedFlats_1.5s\flat_Filter_Ha_001_c.xisf"%string]
                  "D:\flats\night1") (3#2) /\
  MASTER_RE_match (masterName (guessDateFromPath "D:\flats\night1"
                  ["D:\flats\night1\_CalibratedFlats_1.5s\flat_Filter_Ha_001_c.xisf"%string])
               (guessFilterFrom ["D:\flats\night1\_CalibratedFlats_1.5s\flat_Filter_Ha_001_c.xisf"%string]
                  "D:\flats\night1") (3#2)) = true.
Proof.
  split; [reflexivity|split; [reflexivity|split; [reflexivity|]]].
  apply masterOut_layout; reflexivity.
Defined.

Lemma select_all_or_none_witness :
  erase (set_children_check (snd (scan_darks ex_dark_roots ex_dark_cand ex_dark_meta)) Unchecked) =
    erase (snd (scan_darks ex_dark_roots ex_dark_cand ex_dark_meta)) /\
  gather_allowed_darks
    (set_all_darks true (Some (set_children_check (snd (scan_darks ex_dark_roots ex_dark_cand ex_dark_meta)) Unchecked)))
    (fst (scan_darks ex_dark_roots ex_dark_cand ex_dark_meta)) =
  fst (scan_darks ex_dark_roots ex_dark_cand ex_dark_meta).
Proof.
  assert (H : erase (set_children_check (snd (scan_darks ex_dark_roots ex_dark_cand ex_dark_meta)) Unchecked) =
              erase (snd (scan_darks ex_dark_roots ex_dark_cand ex_dark_meta))) by (vm_compute; reflexivity).
  split; [exact H|].
  exact (select_all_or_none ex_dark_roots ex_dark_cand ex_dark_meta _ true H).
Defined.
Lemma insert_dark_key_sorted (k : string) (l : list string) :
  Sorted (fun a b => key_float a <= key_float b) l ->
  Sorted (fun a b => key_float a <= key_float b) (insert_dark_key k l).
Proof.
  induction l as [|y r IH]; intros Hs; cbn [insert_dark_key].
  - repeat constructor.
  - destruct (Qltb (key_float k) (key_float y)) eqn:E.
    + apply Qltb_true in E. constructor; [exact Hs|constructor; lra].
    + apply Qltb_false in E. inversion Hs as [|y' r' Hr Hhd]; subst.
      constructor; [exact (IH Hr)|].
      destruct r as [|z r]; cbn [insert_dark_key].
      * constructor. exact E.
      * destruct (Qltb (key_float k) (key_float z)); constructor; [exact E|].
        inversion Hhd; assumption.
Qed.

Lemma sort_dark_keys_sorted (l : list string) :
  Sorted (fun a b => key_float a <= key_float b) (sort_dark_keys l).
Proof.
  unfold sort_dark_keys.
  assert (G : forall acc, Sorted (fun a b => key_float a <= key_float b) acc ->
     Sorted (fun a b => key_float a <= key_float b) (fold_left (fun acc x => insert_dark_key x acc) l acc)).
  { induction l as [|y r IH]; intros acc H; cbn [fold_left]; [exact H|].
    apply IH, insert_dark_key_sorted, H. }
  apply G. constructor.
Qed.

Lemma insert_by_lower_sorted (d : darkEntry) (l : list darkEntry) :
  Sorted (fun a b => lower_le (d_path a) (d_path b)) l ->
  Sorted (fun a b => lower_le (d_path a) (d_path b)) (insert_by_lower d l).
Proof.
  unfold lower_le.
  induction l as [|y r IH]; intros Hs; cbn [insert_by_lower].
  - repeat constructor.
  - destruct (String.compare (py_lower (d_path d)) (py_lower (d_path y))) eqn:E.
    2: { constructor; [exact Hs|constructor]. rewrite E. discriminate. }
    all: assert (E' : String.compare (py_lower (d_path y)) (py_lower (d_path d)) <> Gt)
           by (rewrite String.compare_antisym, E; discriminate).
    all: inversion Hs as [|y' r' Hr Hhd]; subst.
    all: constructor; [exact (IH Hr)|].
    all: destruct r as [|z r]; cbn [insert_by_lower]; [constructor; exact E'|].
    all: destruct (String.compare (py_lower (d_path d)) (py_lower (d_path z))); constructor;
           first [exact E' | inversion Hhd; assumption].
Qed.

Lemma sort_by_lower_sorted (l : list darkEntry) :
  Sorted (fun a b => lower_le (d_path a) (d_path b)) (sort_by_lower l).
Proof.
  unfold sort_by_lower.
  assert (G : forall acc, Sorted (fun a b => lower_le (d_path a) (d_path b)) acc ->
     Sorted (fun a b => lower_le (d_path a) (d_path b)) (fold_left (fun acc x => insert_by_lower x acc) l acc)).
  { induction l as [|y r IH]; intros acc H; cbn [fold_left]; [exact H|].
    apply IH, insert_by_lower_sorted, H. }
  apply G. constructor.
Qed.

Lemma sorted_map_rel {A B} (f : A -> B) (R : A -> A -> Prop) (S : B -> B -> Prop) (l : list A) :
  (forall a b, R a b -> S (f a) (f b)) -> Sorted R l -> Sorted S (map f l).
Proof.
  intros HRS. induction 1 as [|a l Hs IH Hhd]; cbn [map]; constructor; [exact IH|].
  destruct Hhd; constructor. apply HRS. assumption.
Qed.

(** X15: in the dark tree built by [scan_darks], the exposure items under
    each type item are in ascending order of their exposure [float(k[:-1])],
    and the file items under each exposure item are in ascending order of
    lower-cased path. *)
Theorem dark_tree_sorted (dark_roots cand : list string) (meta_of : string -> pyMeta) :
  Forall (fun ty =>
    Sorted Qle (map (fun e => key_float (it_text e)) (it_children ty)) /\
    Forall (fun e => Sorted (fun a b => String.compare (py_lower a) (py_lower b) <> Gt)
                            (map it_text (it_children e)))
           (it_children ty))
    (it_children (snd (scan_darks dark_roots cand meta_of))).
Proof.
  destruct dark_roots as [|r rs]; cbn [scan_darks snd it_children]; [constructor|].
  apply Forall_forall. intros ty Hty. apply in_map_iff in Hty. destruct Hty as [typ [<- _]].
  unfold type_item. cbn [it_children]. split.
  - rewrite map_map. cbn [it_text].
    apply (sorted_map_rel key_float (fun a b => key_float a <= key_float b) Qle); [auto|].
    apply sort_dark_keys_sorted.
  - apply Forall_forall. intros e He. apply in_map_iff in He. destruct He as [k [<- _]].
    cbn [it_children]. rewrite map_map. cbn [it_text].
    apply (sorted_map_rel d_path (fun a b => lower_le (d_path a) (d_path b))); [auto|].
    apply sort_by_lower_sorted.
Qed.

Lemma scc_state (it : stdItem) (st : checkState) : it_state (set_children_check it st) = it_state it.
Proof. destruct it; reflexivity. Qed.

Lemma scan_darks_checkable (dark_roots cand : list string) (meta_of : string -> pyMeta) :
  Forall (fun ty => it_checkable ty = true /\
    Forall (fun e => it_checkable e = true /\ Forall (fun f => it_checkable f = true) (it_children e))
      (it_children ty))
    (it_children (snd (scan_darks dark_roots cand meta_of))).
Proof.
  destruct dark_roots as [|r rs]; cbn [scan_darks snd it_children]; [constructor|].
  apply Forall_forall. intros ty Hty. apply in_map_iff in Hty. destruct Hty as [typ [<- _]].
  split; [reflexivity|]. apply Forall_forall. intros e He. unfold type_item in He. cbn [it_children] in He.
  apply in_map_iff in He. destruct He as [k [<- _]]. split; [reflexivity|].
  apply Forall_forall. intros f Hf. cbn [it_children] in Hf. apply in_map_iff in Hf.
  destruct Hf as [d [<- _]]. reflexivity.
Qed.

(** The checkable shape of three levels is kept by [erase]-equal trees. *)
Lemma checkable_erase (a b : stdItem) : erase a = erase b ->
  Forall (fun ty => it_checkable ty = true /\
    Forall (fun e => it_checkable e = true /\ Forall (fun f => it_checkable f = true) (it_children e))
      (it_children ty)) (it_children b) ->
  Forall (fun ty => it_checkable ty = true /\
    Forall (fun e => it_checkable e = true /\ Forall (fun f => it_checkable f = true) (it_children e))
      (it_children ty)) (it_children a).
Proof.
  intros E H. rewrite Forall_forall in H |- *. intros ty Hty.
  destruct (erase_in _ _ _ E Hty) as [ty0 [Hty0 Ety]]. destruct (H ty0 Hty0) as [Cty Hes].
  destruct (erase_fields _ _ Ety) as [_ [-> _]]. split; [exact Cty|].
  rewrite Forall_forall in Hes |- *. intros e He.
  destruct (erase_in _ _ _ Ety He) as [e0 [He0 Ee]]. destruct (Hes e0 He0) as [Ce Hfs].
  destruct (erase_fields _ _ Ee) as [_ [-> _]]. split; [exact Ce|].
  rewrite Forall_forall in Hfs |- *. intros f Hf.
  destruct (erase_in _ _ _ Ee Hf) as [f0 [Hf0 Ef]].
  destruct (erase_fields _ _ Ef) as [_ [-> _]]. exact (Hfs f0 Hf0).
Qed.

Lemma tally_uniform (chs : list stdItem) (st : checkState) :
  Forall (fun ch => it_checkable ch = true /\ it_state ch = st) chs ->
  tally chs = (List.length chs, (if checkState_eqb st Checked then List.length chs else 0%nat),
               checkState_eqb st PartiallyChecked && (0 <? List.length chs)%nat).
Proof.
  induction 1 as [|ch r [Hc Hs] _ IH]; [destruct st; reflexivity|].
  cbn [tally List.length]. rewrite IH, Hc, Hs.
  destruct st; cbn; rewrite ?orb_false_r; destruct (List.length r); reflexivity.
Qed.

Lemma set_children_check_uniform (it : stdItem) (st : checkState) :
  eff_state st = st ->
  Forall (fun e => it_checkable e = true /\ Forall (fun f => it_checkable f = true) (it_children e))
    (it_children it) ->
  Forall (fun e => it_state e = st /\ Forall (fun f => it_state f = st) (it_children e))
    (it_children (set_children_check it st)).
Proof.
  intros Hst H. rewrite (proj2 (scc_fields it st)), Forall_map, Hst.
  apply (Forall_impl _ (P := fun e => it_checkable e = true /\ Forall (fun f => it_checkable f = true) (it_children e)));
    [|exact H].
  intros e [Ce Hf]. cbv zeta. rewrite Ce. destruct (set_state_fields (set_children_check e st) st) as [_ [S1 C1]].
  split; [exact S1|]. rewrite C1, (proj2 (scc_fields e st)), Forall_map, Hst.
  apply (Forall_impl _ (P := fun f => it_checkable f = true)); [|exact Hf].
  intros f Cf. cbv zeta. rewrite Cf. apply set_state_fields.
Qed.

(** X16: [_set_all_darks(b)] on a dark tree with the shape [scan_darks]
    built (check states aside) leaves the tree's shape and gives every type,
    exposure and file item the state Checked when [b] is true and Unchecked
    otherwise; when dark roots were listed, the root shows the same state. *)
Theorem set_all_darks_states (dark_roots cand : list string) (meta_of : string -> pyMeta)
    (root : stdItem) (b : bool) :
  erase root = erase (snd (scan_darks dark_roots cand meta_of)) ->
  exists root', set_all_darks b (Some root) = Some root' /\ erase root' = erase root /\
    (dark_roots <> [] -> it_state root' = if b then Checked else Unchecked) /\
    Forall (fun ty => it_state ty = (if b then Checked else Unchecked) /\
      Forall (fun e => it_state e = (if b then Checked else Unchecked) /\
        Forall (fun f => it_state f = (if b then Checked else Unchecked)) (it_children e))
        (it_children ty))
      (it_children root').
Proof.
  intros E. pose proof (checkable_erase _ _ E (scan_darks_checkable dark_roots cand meta_of)) as Hc.
  destruct root as [t c s chs]. cbn [set_all_darks].
  set (st := if b then Checked else Unchecked).
  assert (Hst : eff_state st = st) by (unfold st; destruct b; reflexivity).
  set (chs' := map (fun typItem => if it_checkable typItem then set_children_check (set_state typItem st) st
                                   else typItem) chs).
  assert (Hu : Forall (fun ty => it_state ty = st /\
      Forall (fun e => it_state e = st /\ Forall (fun f => it_state f = st) (it_children e)) (it_children ty)) chs').
  { unfold chs'. apply Forall_map. cbn [it_children] in Hc.
    apply (Forall_impl _ (P := fun ty => it_checkable ty = true /\
      Forall (fun e => it_checkable e = true /\ Forall (fun f => it_checkable f = true) (it_children e))
        (it_children ty))); [|exact Hc].
    intros ty [Cty He]. rewrite Cty. rewrite scc_state. destruct (set_state_fields ty st) as [_ [S1 C1]].
    split; [exact S1|]. apply set_children_check_uniform; [exact Hst|]. rewrite C1. exact He. }
  eexists. split; [reflexivity|split; [|split; [|exact Hu]]].
  - cbn [erase]. f_equal. unfold chs'. rewrite map_map. apply map_ext_in. intros ty Hin.
    destruct (it_checkable ty); [rewrite erase_set_children_check, erase_set_state|]; reflexivity.
  - intros Hne. cbn [it_state].
    assert (Hlen : List.length chs' = 4%nat).
    { unfold chs'. rewrite length_map. destruct (erase_fields _ _ E) as [_ [_ M]].
      apply (f_equal (@List.length stdItem)) in M. rewrite !length_map in M. cbn [it_children] in M. rewrite M.
      destruct dark_roots as [|r rs]; [contradiction|reflexivity]. }
    assert (Hcu : Forall (fun ch => it_checkable ch = true /\ it_state ch = st) chs').
    { unfold chs'. apply Forall_map. cbn [it_children] in Hc.
      apply (Forall_impl _ (P := fun ty => it_checkable ty = true /\
        Forall (fun e => it_checkable e = true /\ Forall (fun f => it_checkable f = true) (it_children e))
          (it_children ty))); [|exact Hc].
      intros ty [Cty _]. rewrite Cty. rewrite (proj1 (scc_fields _ st)), scc_state.
      destruct (set_state_fields ty st) as [C1 [S1 _]]. rewrite C1, S1. auto. }
    clearbody chs'. destruct chs' as [|c0 r0]; [discriminate|]. cbv iota.
    unfold parent_state. rewrite (tally_uniform _ st Hcu), Hlen. unfold st. destruct b; reflexivity.
Qed.

Lemma set_all_darks_states_witness :
  erase ex_dark_unticked = erase (snd (scan_darks ex_dark_roots ex_dark_cand ex_dark_meta)) /\
  exists root', set_all_darks true (Some ex_dark_unticked) = Some root' /\ erase root' = erase ex_dark_unticked /\
    (ex_dark_roots <> [] -> it_state root' = Checked) /\
    Forall (fun ty => it_state ty = Checked /\
      Forall (fun e => it_state e = Checked /\
        Forall (fun f => it_state f = Checked) (it_children e))
        (it_children ty))
      (it_children root').
Proof.
  assert (H : erase ex_dark_unticked = erase (snd (scan_darks ex_dark_roots ex_dark_cand ex_dark_meta)))
    by (vm_compute; reflexivity).
  split; [exact H|].
  exact (set_all_darks_states ex_dark_roots ex_dark_cand ex_dark_meta ex_dark_unticked true H).
Defined.
